(** * Video catalog browser: scanning, fingerprinting and asset pipeline

    A shallow embedding of [app/lib/db.ts], [app/lib/ffmpeg.ts],
    [app/lib/scanner.ts] and the proxy route's [processQueue], with the
    properties of the written specification stated over it.

    Conventions of the embedding.
    - A JavaScript string is a [string]: a sequence of code units below 256
      (the Latin-1 range), [charCodeAt] being the code of the character.
    - A JavaScript number that holds a count, a size or a 32-bit hash is a
      [Z]; one that holds a duration or a ratio is the exact rational [Q]
      that is its value. The arithmetic of the sprite layout is done on
      IEEE doubles, every product and quotient rounded ([Double]); the
      quotient of [parseFrameRate] and the weighted progress are exact.
    - A promise that resolves or rejects is a value of [Result]; the
      external processes (ffprobe, ffmpeg) and the file system are oracles
      passed as arguments. *)

From Stdlib Require Import ZArith QArith Qround Qminmax Qabs Qpower List String Ascii Bool
  Lia Lqa Arith Permutation Sorted OrderedTypeEx.
Import ListNotations.


(** ** Results of fallible calls (a thrown [Error] or a rejected promise) *)

Inductive Result (A : Type) : Type :=
| Ok (a : A)
| Throw (message : string).
Arguments Ok {A} a.
Arguments Throw {A} message.

(** ** The JavaScript built-ins the sources rely on *)

Module JS.

Local Open Scope Z_scope.

(** *** Strings *)

Definition charCodeAt (c : ascii) : Z := Z.of_N (N_of_ascii c).

Definition chars (s : string) : list ascii := list_ascii_of_string s.

Definition startsWith (s searchString : string) : bool := String.prefix searchString s.

Definition includes (s searchString : string) : bool :=
  match String.index 0 searchString s with
  | Some _ => true
  | None => false
  end.

(** [s.split(sep)] for a one-character separator: never the empty list. *)
Fixpoint split (sep : ascii) (s : string) : list string :=
  match s with
  | EmptyString => [EmptyString]
  | String c rest =>
      if Ascii.eqb c sep then EmptyString :: split sep rest
      else match split sep rest with
           | part :: parts => String c part :: parts
           | [] => [String c EmptyString]
           end
  end.

(** Upper-case letters of the Latin-1 range: A-Z, and the accented capitals
    U+00C0..U+00DE but for the multiplication sign U+00D7. *)
Definition isUpperCase (n : N) : bool :=
  ((65 <=? n) && (n <=? 90) || (192 <=? n) && (n <=? 214) ||
   (216 <=? n) && (n <=? 222))%N.

Definition toLowerCaseChar (c : ascii) : ascii :=
  let n := N_of_ascii c in
  if isUpperCase n then ascii_of_N (n + 32) else c.

Fixpoint toLowerCase (s : string) : string :=
  match s with
  | EmptyString => EmptyString
  | String c rest => String (toLowerCaseChar c) (toLowerCase rest)
  end.

(** *** 32-bit integers: [ToInt32], [<<] and [&] *)

Definition ToInt32 (x : Z) : Z :=
  let m := x mod 2 ^ 32 in
  if 2 ^ 31 <=? m then m - 2 ^ 32 else m.

Definition shiftLeft (x count : Z) : Z := ToInt32 (Z.shiftl (ToInt32 x) (count mod 32)).

Definition bitAnd (x y : Z) : Z := Z.land (ToInt32 x) (ToInt32 y).

(** *** Printing integers: [n.toString(radix)] and [String(n)], for a
    non-negative integer that prints without an exponent *)

Definition digitChar (d : Z) : ascii :=
  if d <? 10 then ascii_of_N (Z.to_N (48 + d)) else ascii_of_N (Z.to_N (87 + d)).

(** Digits of [n], least significant first. *)
Fixpoint digitsLE (fuel : nat) (radix n : Z) : list ascii :=
  match fuel with
  | O => []
  | S fuel' =>
      digitChar (n mod radix) ::
      (if n / radix =? 0 then [] else digitsLE fuel' radix (n / radix))
  end.

Definition digitsOf (radix n : Z) : list ascii :=
  rev (digitsLE (S (Z.to_nat (Z.log2 n))) radix n).

Definition toStringRadix (radix n : Z) : string := string_of_list_ascii (digitsOf radix n).

Definition String_ (n : Z) : string := toStringRadix 10 n.

(** *** Dates: the UTC calendar fields of a time value, and [toISOString] *)

Record Date := {
  year : Z;
  month : Z;
  day : Z;
  hours : Z;
  minutes : Z;
  seconds : Z;
  milliseconds : Z
}.

Definition pad2 (n : Z) : list ascii :=
  [digitChar (n / 10 mod 10); digitChar (n mod 10)].
Definition pad3 (n : Z) : list ascii :=
  digitChar (n / 100 mod 10) :: pad2 n.
Definition pad4 (n : Z) : list ascii :=
  digitChar (n / 1000 mod 10) :: pad3 n.
Definition pad6 (n : Z) : list ascii :=
  digitChar (n / 100000 mod 10) :: digitChar (n / 10000 mod 10) :: pad4 n.

(** Years 0 to 9999 print on four digits, the others with a sign and six. *)
Definition isoYear (y : Z) : list ascii :=
  if (0 <=? y) && (y <=? 9999) then pad4 y
  else (if y <? 0 then "-"%char else "+"%char) :: pad6 (Z.abs y).

Definition isoChars (d : Date) : list ascii :=
  isoYear (year d) ++ "-"%char :: pad2 (month d) ++ "-"%char :: pad2 (day d) ++
  "T"%char :: pad2 (hours d) ++ ":"%char :: pad2 (minutes d) ++
  ":"%char :: pad2 (seconds d) ++ "."%char :: pad3 (milliseconds d) ++ ["Z"%char].

Definition toISOString (d : Date) : string := string_of_list_ascii (isoChars d).

(** *** Numbers that may be [NaN] or infinite *)

Inductive number :=
| NaN
| Finite (q : Q)
| Infinity (negative : bool).

(** [ToBoolean]: [NaN] and zero are falsy. *)
Definition truthy (x : number) : bool :=
  match x with
  | NaN => false
  | Finite q => negb (Qeq_bool q 0)
  | Infinity _ => true
  end.

Definition isNegative (q : Q) : bool := (Qnum q <? 0)%Z.

(** [x / y]; a zero divisor is taken as +0. *)
Definition divide (x y : number) : number :=
  match x, y with
  | NaN, _ | _, NaN => NaN
  | Finite a, Finite b =>
      if Qeq_bool b 0 then (if Qeq_bool a 0 then NaN else Infinity (isNegative a))
      else Finite (a / b)
  | Finite _, Infinity _ => Finite 0
  | Infinity s, Finite b => Infinity (xorb s (isNegative b))
  | Infinity _, Infinity _ => NaN
  end.

Definition Math_round (x : Q) : Z := Qfloor (x + (1 # 2))%Q.

(** *** [Number(string)] and [parseFloat(string)] *)

Definition isWhiteSpace (c : ascii) : bool :=
  let n := N_of_ascii c in
  ((9 <=? n) && (n <=? 13) || (n =? 32) || (n =? 160))%N.

Fixpoint trimStart (l : list ascii) : list ascii :=
  match l with
  | c :: rest => if isWhiteSpace c then trimStart rest else l
  | [] => []
  end.

Definition trim (l : list ascii) : list ascii := rev (trimStart (rev (trimStart l))).

(** Value of a digit in the given radix, if it is one. *)
Definition digitValue (radix : Z) (c : ascii) : option Z :=
  let n := charCodeAt c in
  let v := if (48 <=? n) && (n <=? 57) then n - 48
           else if (97 <=? n) && (n <=? 122) then n - 87
           else if (65 <=? n) && (n <=? 90) then n - 55
           else radix in
  if v <? radix then Some v else None.

(** Reads the longest run of digits: its value, its length, the rest. *)
Fixpoint scanDigits (radix : Z) (l : list ascii) (acc : Z) (count : nat)
  : Z * nat * list ascii :=
  match l with
  | c :: rest =>
      match digitValue radix c with
      | Some v => scanDigits radix rest (acc * radix + v) (S count)
      | None => (acc, count, l)
      end
  | [] => (acc, count, l)
  end.

Fixpoint dropPrefix (p l : list ascii) : option (list ascii) :=
  match p, l with
  | [], _ => Some l
  | a :: p', b :: l' => if Ascii.eqb a b then dropPrefix p' l' else None
  | _ :: _, [] => None
  end.

(** The exponent part [e], [e+], [e-] followed by digits; without digits
    the literal ends before the [e]. *)
Definition scanExponent (l : list ascii) : Z * list ascii :=
  match l with
  | c :: rest =>
      if Ascii.eqb c "e" || Ascii.eqb c "E" then
        let '(negative, afterSign) :=
          match rest with
          | s :: rest' =>
              if Ascii.eqb s "-" then (true, rest')
              else if Ascii.eqb s "+" then (false, rest')
              else (false, rest)
          | [] => (false, rest)
          end in
        match scanDigits 10 afterSign 0 0 with
        | (_, O, _) => (0, l)
        | (e, S _, rest'') => ((if negative then - e else e), rest'')
        end
      else (0, l)
  | [] => (0, l)
  end.

(** [StrUnsignedDecimalLiteral]: the longest prefix that is one, with its
    value, and what follows it. *)
Definition scanUnsigned (l : list ascii) : option (number * list ascii) :=
  match dropPrefix (chars "Infinity") l with
  | Some rest => Some (Infinity false, rest)
  | None =>
      let '(intPart, intLen, afterInt) := scanDigits 10 l 0 0 in
      let mantissa :=
        match afterInt with
        | c :: afterDot =>
            if Ascii.eqb c "." then
              let '(fracPart, fracLen, afterFrac) := scanDigits 10 afterDot 0 0 in
              match intLen, fracLen with
              | O, O => None
              | _, _ =>
                  Some ((inject_Z intPart + inject_Z fracPart / inject_Z (10 ^ Z.of_nat fracLen))%Q,
                        afterFrac)
              end
            else match intLen with O => None | S _ => Some (inject_Z intPart, afterInt) end
        | [] => match intLen with O => None | S _ => Some (inject_Z intPart, afterInt) end
        end in
      match mantissa with
      | None => None
      | Some (m, afterMantissa) =>
          let '(e, rest) := scanExponent afterMantissa in
          Some (Finite (m * Qpower 10 e)%Q, rest)
      end
  end.

Definition negate (x : number) : number :=
  match x with
  | NaN => NaN
  | Finite q => Finite (- q)%Q
  | Infinity s => Infinity (negb s)
  end.

(** [StrDecimalLiteral]: an optional sign before the unsigned literal. *)
Definition scanDecimal (l : list ascii) : option (number * list ascii) :=
  match l with
  | c :: rest =>
      if Ascii.eqb c "-" then
        match scanUnsigned rest with
        | Some (v, r) => Some (negate v, r)
        | None => None
        end
      else if Ascii.eqb c "+" then scanUnsigned rest
      else scanUnsigned l
  | [] => None
  end.

Definition parseFloat (s : string) : number :=
  match scanDecimal (trimStart (chars s)) with
  | Some (v, _) => v
  | None => NaN
  end.

(** A literal [0x..], [0o..] or [0b..]: digits of the radix up to the end. *)
Definition scanRadixLiteral (l : list ascii) : option number :=
  match l with
  | z :: r :: digits =>
      if Ascii.eqb z "0" then
        let radix :=
          if Ascii.eqb r "x" || Ascii.eqb r "X" then Some 16
          else if Ascii.eqb r "o" || Ascii.eqb r "O" then Some 8
          else if Ascii.eqb r "b" || Ascii.eqb r "B" then Some 2
          else None in
        match radix with
        | Some rx =>
            match scanDigits rx digits 0 0 with
            | (v, S _, []) => Some (Finite (inject_Z v))
            | _ => Some NaN
            end
        | None => None
        end
      else None
  | _ => None
  end.

Definition Number (s : string) : number :=
  match trim (chars s) with
  | [] => Finite 0
  | t =>
      match scanRadixLiteral t with
      | Some v => v
      | None =>
          match scanDecimal t with
          | Some (v, []) => v
          | _ => NaN
          end
      end
  end.

End JS.

(** ** [app/lib/types.ts]: rows as stored, objects as served *)

Module VideoRow.
Record t := {
  id : string;
  file_path : string;
  file_name : string;
  file_size : Z;
  duration : Q;
  width : option Z;
  height : option Z;
  created_at : string;
  directory : string;
  has_proxy : Z;
  has_sprite : Z;
  proxy_path : option string;
  sprite_path : option string;
  thumbnail_path : option string;
  file_hash : option string;
  file_mtime : option string;
  scanned_at : option string
}.
End VideoRow.

Module Video.
Record t := {
  id : string;
  filePath : string;
  fileName : string;
  fileSize : Z;
  duration : Q;
  width : option Z;
  height : option Z;
  createdAt : string;
  directory : string;
  hasProxy : bool;
  hasSprite : bool;
  proxyPath : option string;
  spritePath : option string;
  thumbnailPath : option string;
  fileHash : option string;
  fileMtime : option string;
  scannedAt : option string
}.
End Video.

Module SelectionRow.
Record t := {
  id : string;
  video_id : string;
  is_favorite : Z;
  notes : option string;
  created_at : string
}.
End SelectionRow.

Inductive JobStatus := queued | processing | complete | error.

Definition JobStatus_eqb (a b : JobStatus) : bool :=
  match a, b with
  | queued, queued | processing, processing | complete, complete | error, error => true
  | _, _ => false
  end.

Module ProxyJobRow.
Record t := {
  id : string;
  video_id : string;
  status : JobStatus;
  progress : Z;
  created_at : string;
  started_at : option string;
  completed_at : option string;
  error : option string
}.
End ProxyJobRow.

Module ProxyJob.
Record t := {
  id : string;
  videoId : string;
  status : JobStatus;
  progress : Z;
  createdAt : string;
  error : option string
}.
End ProxyJob.

Inductive ScanState := scanning | scanComplete | scanError.

Module ScanRow.
Record t := {
  id : string;
  root_path : string;
  status : ScanState;
  videos_found : Z;
  started_at : string;
  completed_at : option string
}.
End ScanRow.

Module FFmpegMetadata.
Record t := {
  duration : Q;
  width : Z;
  height : Z;
  codec : string;
  frameRate : JS.number;
  bitRate : Z
}.
End FFmpegMetadata.

Module Types.

Definition rowToVideo (row : VideoRow.t) : Video.t :=
  {| Video.id := VideoRow.id row;
     Video.filePath := VideoRow.file_path row;
     Video.fileName := VideoRow.file_name row;
     Video.fileSize := VideoRow.file_size row;
     Video.duration := VideoRow.duration row;
     Video.width := VideoRow.width row;
     Video.height := VideoRow.height row;
     Video.createdAt := VideoRow.created_at row;
     Video.directory := VideoRow.directory row;
     Video.hasProxy := (VideoRow.has_proxy row =? 1)%Z;
     Video.hasSprite := (VideoRow.has_sprite row =? 1)%Z;
     Video.proxyPath := VideoRow.proxy_path row;
     Video.spritePath := VideoRow.sprite_path row;
     Video.thumbnailPath := VideoRow.thumbnail_path row;
     Video.fileHash := VideoRow.file_hash row;
     Video.fileMtime := VideoRow.file_mtime row;
     Video.scannedAt := VideoRow.scanned_at row |}.

(** [row.error || undefined]: an empty message reads as none. *)
Definition rowToProxyJob (row : ProxyJobRow.t) : ProxyJob.t :=
  {| ProxyJob.id := ProxyJobRow.id row;
     ProxyJob.videoId := ProxyJobRow.video_id row;
     ProxyJob.status := ProxyJobRow.status row;
     ProxyJob.progress := ProxyJobRow.progress row;
     ProxyJob.createdAt := ProxyJobRow.created_at row;
     ProxyJob.error :=
       match ProxyJobRow.error row with
       | Some EmptyString => None
       | e => e
       end |}.

End Types.

(** ** [app/lib/db.ts]: the catalog database

    The tables are lists of rows in rowid order. The database is taken as
    opened ([initDatabase] has run), so [getDatabase] does not throw. A
    reading of the wall clock ([new Date()], [Date.now()]) is an argument of
    the function that makes it. *)

Module Db.

Local Open Scope Z_scope.
Local Open Scope string_scope.

Record Database := {
  videos : list VideoRow.t;
  selections : list SelectionRow.t;
  proxy_queue : list ProxyJobRow.t;
  scans : list ScanRow.t
}.

Definition emptyDatabase : Database :=
  {| videos := []; selections := []; proxy_queue := []; scans := [] |}.

Definition getDataDir (rootPath : string) : string := rootPath ++ "/.vcb-data".

(** The value of [hash] when the loop of [generateId] ends. *)
Definition generateIdHash (filePath : string) : Z :=
  fold_left
    (fun hash c =>
       let hash := (JS.shiftLeft hash 5 - hash) + JS.charCodeAt c in
       JS.bitAnd hash hash)
    (JS.chars filePath) 0.

Definition generateId (filePath : string) : string :=
  JS.toStringRadix 36 (Z.abs (generateIdHash filePath)).

Record VideoInsertData := {
  filePath : string;
  fileName : string;
  fileSize : Z;
  duration : Q;
  width : option Z;
  height : option Z;
  createdAt : string;
  directory : string;
  fileHash : option string;
  fileMtime : option string
}.

(** [value || null] on an optional string. *)
Definition orNull (value : option string) : option string :=
  match value with
  | Some EmptyString => None
  | v => v
  end.

Definition getVideoById (id : string) (db : Database) : option Video.t :=
  option_map Types.rowToVideo
    (find (fun row => VideoRow.id row =? id) (videos db)).

Definition getVideoByPath (filePath : string) (db : Database) : option Video.t :=
  option_map Types.rowToVideo
    (find (fun row => VideoRow.file_path row =? filePath) (videos db)).

(** The row written by the INSERT of [insertVideo]: the five columns it
    does not name take the defaults of the schema, 0 and NULL. *)
Definition insertedRow (id scannedAt : string) (video : VideoInsertData) : VideoRow.t :=
  {| VideoRow.id := id;
     VideoRow.file_path := filePath video;
     VideoRow.file_name := fileName video;
     VideoRow.file_size := fileSize video;
     VideoRow.duration := duration video;
     VideoRow.width := width video;
     VideoRow.height := height video;
     VideoRow.created_at := createdAt video;
     VideoRow.directory := directory video;
     VideoRow.has_proxy := 0;
     VideoRow.has_sprite := 0;
     VideoRow.proxy_path := None;
     VideoRow.sprite_path := None;
     VideoRow.thumbnail_path := None;
     VideoRow.file_hash := orNull (fileHash video);
     VideoRow.file_mtime := orNull (fileMtime video);
     VideoRow.scanned_at := Some scannedAt |}.

(** INSERT OR REPLACE: the rows that hold the new primary key or the new
    (unique) path are deleted, with the rows of the tables that reference
    them (ON DELETE CASCADE), and the new row is added. *)
Definition insertOrReplaceVideo (row : VideoRow.t) (db : Database) : Database :=
  let conflicts r :=
    (VideoRow.id r =? VideoRow.id row) || (VideoRow.file_path r =? VideoRow.file_path row) in
  let deleted := map VideoRow.id (filter conflicts (videos db)) in
  let orphan video_id := existsb (String.eqb video_id) deleted in
  {| videos := filter (fun r => negb (conflicts r)) (videos db) ++ [row];
     selections := filter (fun s => negb (orphan (SelectionRow.video_id s))) (selections db);
     proxy_queue := filter (fun j => negb (orphan (ProxyJobRow.video_id j))) (proxy_queue db);
     scans := scans db |}.

Definition insertVideo (scannedAt : string) (video : VideoInsertData) (db : Database)
  : Database * option Video.t :=
  let id := generateId (filePath video) in
  let db' := insertOrReplaceVideo (insertedRow id scannedAt video) db in
  (db', getVideoById id db').

Definition updateVideos (id : string) (f : VideoRow.t -> VideoRow.t) (db : Database)
  : Database :=
  {| videos := map (fun r => if VideoRow.id r =? id then f r else r) (videos db);
     selections := selections db;
     proxy_queue := proxy_queue db;
     scans := scans db |}.

Definition setProxy (proxyPath spritePath thumbnailPath : string) (r : VideoRow.t)
  : VideoRow.t :=
  {| VideoRow.id := VideoRow.id r;
     VideoRow.file_path := VideoRow.file_path r;
     VideoRow.file_name := VideoRow.file_name r;
     VideoRow.file_size := VideoRow.file_size r;
     VideoRow.duration := VideoRow.duration r;
     VideoRow.width := VideoRow.width r;
     VideoRow.height := VideoRow.height r;
     VideoRow.created_at := VideoRow.created_at r;
     VideoRow.directory := VideoRow.directory r;
     VideoRow.has_proxy := 1;
     VideoRow.has_sprite := 1;
     VideoRow.proxy_path := Some proxyPath;
     VideoRow.sprite_path := Some spritePath;
     VideoRow.thumbnail_path := Some thumbnailPath;
     VideoRow.file_hash := VideoRow.file_hash r;
     VideoRow.file_mtime := VideoRow.file_mtime r;
     VideoRow.scanned_at := VideoRow.scanned_at r |}.

Definition setThumbnailAndSprite (thumbnailPath spritePath : string) (r : VideoRow.t)
  : VideoRow.t :=
  {| VideoRow.id := VideoRow.id r;
     VideoRow.file_path := VideoRow.file_path r;
     VideoRow.file_name := VideoRow.file_name r;
     VideoRow.file_size := VideoRow.file_size r;
     VideoRow.duration := VideoRow.duration r;
     VideoRow.width := VideoRow.width r;
     VideoRow.height := VideoRow.height r;
     VideoRow.created_at := VideoRow.created_at r;
     VideoRow.directory := VideoRow.directory r;
     VideoRow.has_proxy := VideoRow.has_proxy r;
     VideoRow.has_sprite := 1;
     VideoRow.proxy_path := VideoRow.proxy_path r;
     VideoRow.sprite_path := Some spritePath;
     VideoRow.thumbnail_path := Some thumbnailPath;
     VideoRow.file_hash := VideoRow.file_hash r;
     VideoRow.file_mtime := VideoRow.file_mtime r;
     VideoRow.scanned_at := VideoRow.scanned_at r |}.

Definition updateVideoProxy (id proxyPath spritePath thumbnailPath : string)
  (db : Database) : Database :=
  updateVideos id (setProxy proxyPath spritePath thumbnailPath) db.

Definition updateVideoThumbnailAndSprite (id thumbnailPath spritePath : string)
  (db : Database) : Database :=
  updateVideos id (setThumbnailAndSprite thumbnailPath spritePath) db.

(** *** Proxy queue *)

Definition isQueued (row : ProxyJobRow.t) : bool :=
  JobStatus_eqb (ProxyJobRow.status row) queued.

Definition getProxyJobById (id : string) (db : Database) : option ProxyJob.t :=
  option_map Types.rowToProxyJob
    (find (fun row => ProxyJobRow.id row =? id) (proxy_queue db)).

(** A plain INSERT: it throws when the key is taken or when the video it
    references does not exist. *)
Definition addToProxyQueue (nowMs : Z) (createdAt : string) (videoId : string)
  (db : Database) : Result (Database * option ProxyJob.t) :=
  let id := generateId ("proxy-" ++ videoId ++ "-" ++ JS.String_ nowMs) in
  if existsb (fun row => ProxyJobRow.id row =? id) (proxy_queue db) then
    Throw "UNIQUE constraint failed: proxy_queue.id"
  else if negb (existsb (fun row => VideoRow.id row =? videoId) (videos db)) then
    Throw "FOREIGN KEY constraint failed"
  else
    let row :=
      {| ProxyJobRow.id := id;
         ProxyJobRow.video_id := videoId;
         ProxyJobRow.status := queued;
         ProxyJobRow.progress := 0;
         ProxyJobRow.created_at := createdAt;
         ProxyJobRow.started_at := None;
         ProxyJobRow.completed_at := None;
         ProxyJobRow.error := None |} in
    let db' :=
      {| videos := videos db;
         selections := selections db;
         proxy_queue := proxy_queue db ++ [row];
         scans := scans db |} in
    Ok (db', getProxyJobById id db').

Definition updateJobs (id : string) (f : ProxyJobRow.t -> ProxyJobRow.t) (db : Database)
  : Database :=
  {| videos := videos db;
     selections := selections db;
     proxy_queue := map (fun r => if ProxyJobRow.id r =? id then f r else r) (proxy_queue db);
     scans := scans db |}.

(** The three UPDATE statements of [updateProxyJobStatus]. *)
Definition updateProxyJobStatus (now : string) (id : string) (status : JobStatus)
  (progress : Z) (error : option string) (db : Database) : Database :=
  updateJobs id
    (fun r =>
       match status with
       | processing =>
           {| ProxyJobRow.id := ProxyJobRow.id r;
              ProxyJobRow.video_id := ProxyJobRow.video_id r;
              ProxyJobRow.status := status;
              ProxyJobRow.progress := progress;
              ProxyJobRow.created_at := ProxyJobRow.created_at r;
              ProxyJobRow.started_at := Some now;
              ProxyJobRow.completed_at := ProxyJobRow.completed_at r;
              ProxyJobRow.error := ProxyJobRow.error r |}
       | complete | error =>
           {| ProxyJobRow.id := ProxyJobRow.id r;
              ProxyJobRow.video_id := ProxyJobRow.video_id r;
              ProxyJobRow.status := status;
              ProxyJobRow.progress := progress;
              ProxyJobRow.created_at := ProxyJobRow.created_at r;
              ProxyJobRow.started_at := ProxyJobRow.started_at r;
              ProxyJobRow.completed_at := Some now;
              ProxyJobRow.error := orNull error |}
       | queued =>
           {| ProxyJobRow.id := ProxyJobRow.id r;
              ProxyJobRow.video_id := ProxyJobRow.video_id r;
              ProxyJobRow.status := status;
              ProxyJobRow.progress := progress;
              ProxyJobRow.created_at := ProxyJobRow.created_at r;
              ProxyJobRow.started_at := ProxyJobRow.started_at r;
              ProxyJobRow.completed_at := ProxyJobRow.completed_at r;
              ProxyJobRow.error := ProxyJobRow.error r |}
       end)
    db.

(** ORDER BY created_at ASC LIMIT 1 over TEXT: the least creation stamp in
    byte order; of several rows with that stamp, the one of least rowid. *)
Fixpoint earliest (rows : list ProxyJobRow.t) : option ProxyJobRow.t :=
  match rows with
  | [] => None
  | r :: rest =>
      match earliest rest with
      | None => Some r
      | Some m =>
          if String.leb (ProxyJobRow.created_at r) (ProxyJobRow.created_at m)
          then Some r else Some m
      end
  end.

Definition getNextQueuedJob (db : Database) : option ProxyJob.t :=
  option_map Types.rowToProxyJob (earliest (filter isQueued (proxy_queue db))).

(** *** Scan sessions *)

Definition createScan (nowMs : Z) (startedAt : string) (rootPath : string)
  (db : Database) : Result (Database * string) :=
  let id := generateId ("scan-" ++ rootPath ++ "-" ++ JS.String_ nowMs) in
  if existsb (fun row => ScanRow.id row =? id) (scans db) then
    Throw "UNIQUE constraint failed: scans.id"
  else
    Ok ({| videos := videos db;
           selections := selections db;
           proxy_queue := proxy_queue db;
           scans := scans db ++
             [{| ScanRow.id := id;
                 ScanRow.root_path := rootPath;
                 ScanRow.status := scanning;
                 ScanRow.videos_found := 0;
                 ScanRow.started_at := startedAt;
                 ScanRow.completed_at := None |}] |}, id).

Definition updateScans (id : string) (f : ScanRow.t -> ScanRow.t) (db : Database)
  : Database :=
  {| videos := videos db;
     selections := selections db;
     proxy_queue := proxy_queue db;
     scans := map (fun r => if ScanRow.id r =? id then f r else r) (scans db) |}.

Definition updateScanProgress (id : string) (videosFound : Z) (db : Database) : Database :=
  updateScans id
    (fun r =>
       {| ScanRow.id := ScanRow.id r;
          ScanRow.root_path := ScanRow.root_path r;
          ScanRow.status := ScanRow.status r;
          ScanRow.videos_found := videosFound;
          ScanRow.started_at := ScanRow.started_at r;
          ScanRow.completed_at := ScanRow.completed_at r |})
    db.

Definition completeScan (now : string) (id : string) (videosFound : Z) (db : Database)
  : Database :=
  updateScans id
    (fun r =>
       {| ScanRow.id := ScanRow.id r;
          ScanRow.root_path := ScanRow.root_path r;
          ScanRow.status := scanComplete;
          ScanRow.videos_found := videosFound;
          ScanRow.started_at := ScanRow.started_at r;
          ScanRow.completed_at := Some now |})
    db.

Definition getScanStatus (id : string) (db : Database) : option (ScanState * Z) :=
  option_map (fun row => (ScanRow.status row, ScanRow.videos_found row))
    (find (fun row => ScanRow.id row =? id) (scans db)).

End Db.

(** ** IEEE 754 binary64 numbers, rounded to nearest, ties to even

    The numbers the sprite layout is computed with. A finite double is a
    sign and a magnitude, an exact rational; the magnitude of a result is
    the double nearest to the exact one, a tie going to the even
    significand, with gradual underflow below 2^-1022 and overflow to
    infinity from 2^1024 - 2^970 on. Zero has a sign. *)

Module Double.

Local Open Scope Q_scope.

Inductive t :=
| NaN
| Infinite (negative : bool)
| Finite (negative : bool) (magnitude : Q).

Definition pow2 (e : Z) : Q := 2 ^ e.

(** For a positive [x], the exponent [e] with [2^e <= x < 2^(e+1)]. *)
Definition binade (x : Q) : Z :=
  let e := (Z.log2 (Qnum x) - Z.log2 (Zpos (Qden x)))%Z in
  if Qle_bool (pow2 e) x then e else (e - 1)%Z.

(** The integer nearest to [x], the even one of two that are as near. *)
Definition nearestInteger (x : Q) : Z :=
  let f := Qfloor x in
  match Qcompare (x - inject_Z f) (1 # 2) with
  | Lt => f
  | Gt => (f + 1)%Z
  | Eq => if Z.even f then f else (f + 1)%Z
  end.

(** The exponent of the doubles around a positive [x], -1022 at least. *)
Definition exponent (x : Q) : Z := Z.max (binade x) (-1022).

(** The distance between the doubles around a positive [x]: 53 significant
    bits. *)
Definition ulp (x : Q) : Q := pow2 (exponent x - 52).

(** The multiple of [ulp x] nearest to a positive [x]. *)
Definition nearestPositive (x : Q) : Q :=
  inject_Z (nearestInteger (x / ulp x)) * ulp x.

(** The magnitude of the double nearest to a magnitude, were the exponent
    unbounded above, as a fraction in lowest terms. *)
Definition nearest (x : Q) : Q :=
  if Qle_bool x 0 then 0 else Qred (nearestPositive x).

(** The double of the given sign nearest to the exact magnitude [x]. *)
Definition round (negative : bool) (x : Q) : t :=
  if Qle_bool (pow2 1024) (nearest x) then Infinite negative
  else Finite negative (nearest x).

(** The double nearest to [q]: what a decimal literal of value [q] denotes
    and what [parseFloat] returns for one. *)
Definition ofQ (q : Q) : t := round (Qnum q <? 0)%Z (Qabs q).

(** An integer literal. *)
Definition ofZ (n : Z) : t := ofQ (inject_Z n).

(** [x * y]. *)
Definition mul (x y : t) : t :=
  match x, y with
  | NaN, _ | _, NaN => NaN
  | Infinite s, Infinite s' => Infinite (xorb s s')
  | Infinite s, Finite s' m | Finite s' m, Infinite s =>
      if Qeq_bool m 0 then NaN else Infinite (xorb s s')
  | Finite s m, Finite s' m' => round (xorb s s') (m * m')
  end.

(** [x / y]. *)
Definition div (x y : t) : t :=
  match x, y with
  | NaN, _ | _, NaN => NaN
  | Infinite _, Infinite _ => NaN
  | Infinite s, Finite s' _ => Infinite (xorb s s')
  | Finite s _, Infinite s' => Finite (xorb s s') 0
  | Finite s m, Finite s' m' =>
      if Qeq_bool m' 0 then
        (if Qeq_bool m 0 then NaN else Infinite (xorb s s'))
      else round (xorb s s') (m / m')
  end.

(** The value of a finite double as a rational, the two zeros being 0. *)
Definition value (negative : bool) (magnitude : Q) : Q :=
  if negative then - magnitude else magnitude.

(** The value of a double as a rational, 0 for [NaN] and the infinities. *)
Definition toQ (x : t) : Q :=
  match x with
  | Finite s m => value s m
  | _ => 0
  end.

(** [x <= y]: false when one of them is [NaN]. *)
Definition leb (x y : t) : bool :=
  match x, y with
  | NaN, _ | _, NaN => false
  | Infinite s, Infinite s' => s || negb s'
  | Infinite s, Finite _ _ => s
  | Finite _ _, Infinite s' => negb s'
  | Finite s m, Finite s' m' => Qle_bool (value s m) (value s' m')
  end.

(** [Math.ceil]: of a negative number above -1 it is the negative zero. *)
Definition Math_ceil (x : t) : t :=
  match x with
  | Finite false m => Finite false (inject_Z (Qceiling m))
  | Finite true m => Finite true (inject_Z (Qfloor m))
  | other => other
  end.

(** [Math.min]: [NaN] when an argument is; of the two zeros the negative. *)
Definition Math_min (x y : t) : t :=
  match x, y with
  | NaN, _ | _, NaN => NaN
  | Finite s m, Finite s' m' =>
      if Qeq_bool (value s m) (value s' m') then Finite (s || s') m
      else if leb x y then x else y
  | _, _ => if leb x y then x else y
  end.

(** The double has the value of the integer [n]. *)
Definition isInteger (x : t) (n : Z) : Prop :=
  exists negative magnitude,
    x = Finite negative magnitude /\ value negative magnitude == inject_Z n.

(** The rational is the value of a finite double. *)
Definition representable (q : Q) : Prop :=
  nearest (Qabs q) == Qabs q /\ Qabs q < pow2 1024.

End Double.

(** ** [app/lib/ffmpeg.ts]: sprite sheet layout *)

Module Ffmpeg.

Local Open Scope Q_scope.

Record SpriteConfig := {
  width : Z;
  height : Z;
  columns : Z;
  rows : Double.t;
  interval : Double.t;
  totalFrames : Double.t
}.

(** The three locals [fps], [columns], [rows] chosen by the duration tiers
    at the head of [generateSpriteSheet]; [1 / 3], [1 / 12] and [1 / 30]
    are quotients of doubles. *)
Definition spriteTier (duration : Double.t) : Double.t * Z * Double.t :=
  if Double.leb duration (Double.ofZ 60) then
    (Double.ofZ 1, 10%Z,
     Double.Math_ceil
       (Double.div (Double.Math_min duration (Double.ofZ 60)) (Double.ofZ 10)))
  else if Double.leb duration (Double.ofZ 300) then
    (Double.div (Double.ofZ 1) (Double.ofZ 3), 10%Z, Double.ofZ 10)
  else if Double.leb duration (Double.ofZ 1800) then
    (Double.div (Double.ofZ 1) (Double.ofZ 12), 15%Z, Double.ofZ 10)
  else
    (Double.div (Double.ofZ 1) (Double.ofZ 30), 20%Z, Double.ofZ 10).

Definition spriteFps (duration : Double.t) : Double.t := fst (fst (spriteTier duration)).
Definition spriteColumns (duration : Double.t) : Z := snd (fst (spriteTier duration)).
Definition spriteRows (duration : Double.t) : Double.t := snd (spriteTier duration).

(** [Math.min(Math.ceil(duration * fps), columns * rows)] *)
Definition spriteTotalFrames (duration : Double.t) : Double.t :=
  Double.Math_min
    (Double.Math_ceil (Double.mul duration (spriteFps duration)))
    (Double.mul (Double.ofZ (spriteColumns duration)) (spriteRows duration)).

(** [duration / totalFrames] *)
Definition spriteInterval (duration : Double.t) : Double.t :=
  Double.div duration (spriteTotalFrames duration).

Definition thumbWidth : Z := 160.
Definition thumbHeight : Z := 90.

(** How a spawned ffmpeg ends: the ['close'] event with an exit code (and
    whether the output file exists afterwards), or the ['error'] event. *)
Inductive FfmpegRun :=
| Closed (code : Z) (outputExists : bool)
| SpawnError (message : string).

Definition spriteLayout (duration : Double.t) : SpriteConfig :=
  {| width := thumbWidth;
     height := thumbHeight;
     columns := spriteColumns duration;
     rows := spriteRows duration;
     interval := spriteInterval duration;
     totalFrames := spriteTotalFrames duration |}.

(** The duration is the number read from ffprobe's output, the double
    nearest to the decimal printed there. *)
Definition generateSpriteSheet (duration : Q) (run : FfmpegRun) : Result SpriteConfig :=
  match run with
  | SpawnError m => Throw ("Failed to start ffmpeg: " ++ m)
  | Closed code outputExists =>
      if negb (code =? 0)%Z then Throw "ffmpeg sprite sheet exited with a non-zero code"
      else if negb outputExists then Throw "Sprite sheet file not created"
      else Ok (spriteLayout (Double.ofQ duration))
  end.

(** The tier table of the specification, read as a relation between a
    duration and a layout: frame interval in seconds, columns, rows. *)
Inductive TierTable (d : Q) : Q -> Z -> Z -> Prop :=
| tier_short : d <= 60 -> TierTable d 1 10 (Qceiling (Qmin d 60 / 10))
| tier_medium : 60 < d -> d <= 300 -> TierTable d 3 10 10
| tier_long : 300 < d -> d <= 1800 -> TierTable d 12 15 10
| tier_huge : 1800 < d -> TierTable d 30 20 10.


(** *** Frame rate of the probed stream *)

Definition parseFrameRate (frameRate : option string) : JS.number :=
  match frameRate with
  | None => JS.Finite 30
  | Some EmptyString => JS.Finite 30
  | Some frameRate =>
      if JS.includes frameRate "/" then
        match map JS.Number (JS.split "/" frameRate) with
        | num :: den :: _ =>
            if JS.truthy den then JS.divide num den else JS.Finite 30
        | _ => JS.Finite 30
        end
      else
        let parsed := JS.parseFloat frameRate in
        if JS.truthy parsed then parsed else JS.Finite 30
  end.

(** *** Single-frame thumbnail *)

Definition generateThumbnail (run : FfmpegRun) : Result unit :=
  match run with
  | SpawnError m => Throw ("Failed to start ffmpeg: " ++ m)
  | Closed code outputExists =>
      if negb (code =? 0)%Z then Throw "ffmpeg thumbnail exited with a non-zero code"
      else if negb outputExists then Throw "Thumbnail file not created"
      else Ok tt
  end.

Definition getProxyDir (rootPath : string) : string :=
  (Db.getDataDir rootPath ++ "/proxies")%string.

Definition thumbnailPathOf (rootPath videoId : string) : string :=
  (getProxyDir rootPath ++ "/" ++ videoId ++ "_thumb.jpg")%string.
Definition spritePathOf (rootPath videoId : string) : string :=
  (getProxyDir rootPath ++ "/" ++ videoId ++ "_sprite.jpg")%string.
Definition proxyPathOf (rootPath videoId : string) : string :=
  (getProxyDir rootPath ++ "/" ++ videoId ++ "_proxy.mp4")%string.

End Ffmpeg.

(** ** The world the scanner and the queue worker run in *)

Module Effects.

(** What leaves the process: the external programs started, the lines
    written by [console.error]. *)
Inductive Event :=
| ProbeStarted (filePath : string)
| ThumbnailStarted (videoId filePath : string)
| SpriteStarted (videoId filePath : string)
| AssetsStarted (videoId filePath : string)
| ConsoleError (message : string).

(** The locals [thumbnailDone], [spriteDone] and [proxyProgress] that the
    progress callback of one turn of the queue worker closes over. *)
Record Progress := {
  thumbnailDone : bool;
  spriteDone : bool;
  proxyProgress : Z
}.

(** Besides the database and the two module variables [currentRootPath]
    and [isGenerating]: the variable [job] of the running worker, declared
    once before its loop and assigned at the end of every turn, and the
    locals of the callbacks created under it, in the order of their
    creation. The callbacks read [job] when they run. *)
Record World := {
  database : Db.Database;
  currentRootPath : option string;
  isGenerating : bool;
  job : option ProxyJob.t;
  closures : list Progress;
  clock : nat;
  trace : list Event
}.

(** A regular file as [fs.stat] and [fd.read] see it. *)
Record FileEntry := {
  content : list ascii;
  mtime : JS.Date;
  birthtime : JS.Date
}.

(** A progress callback that runs while a turn of the worker waits for its
    generators: one of the turn's own, or one created by an earlier turn,
    whose joint promise was rejected while some of its generators were
    still running ([Promise.all] rejects with the first failure and stops
    nothing). *)
Inductive Arrival :=
| Own (stage : string) (progress : Z)
| Late (closure : nat) (stage : string) (progress : Z).

(** One run of the three generators of [generateAllProxyAssets]: the
    callbacks in the order they arrive, then how the joint promise settles
    (with the first rejection, if any). *)
Record AssetRun := {
  arrivals : list Arrival;
  settled : Result unit
}.

(** The environment: files by path, the digest, the external programs by
    the file they are given (the asset run of the queue also by the time it
    starts), and the successive readings of the clock, as a date and as
    milliseconds. *)
Record Env := {
  md5 : list ascii -> string;
  files : string -> option FileEntry;
  ffprobe : string -> Result FFmpegMetadata.t;
  mkdirProxies : string -> bool;
  thumbnailRun : string -> Ffmpeg.FfmpegRun;
  spriteRun : string -> Ffmpeg.FfmpegRun;
  assetRun : nat -> string -> AssetRun;
  now : nat -> JS.Date;
  dateNow : nat -> Z
}.

(** Computations that read and write the world and may throw; what was
    written before a throw stays written. *)
Definition M (A : Type) : Type := World -> Result A * World.

Definition ret {A} (a : A) : M A := fun w => (Ok a, w).

Definition bind {A B} (m : M A) (k : A -> M B) : M B :=
  fun w =>
    match m w with
    | (Ok a, w') => k a w'
    | (Throw e, w') => (Throw e, w')
    end.

Definition throw {A} (message : string) : M A := fun w => (Throw message, w).

Definition tryCatch {A} (body : M A) (handler : string -> M A) : M A :=
  fun w =>
    match body w with
    | (Ok a, w') => (Ok a, w')
    | (Throw e, w') => handler e w'
    end.

Definition lift {A} (r : Result A) : M A := fun w => (r, w).

Definition emit (e : Event) : M unit :=
  fun w =>
    (Ok tt,
     {| database := database w;
        currentRootPath := currentRootPath w;
        isGenerating := isGenerating w;
        job := job w;
        closures := closures w;
        clock := clock w;
        trace := trace w ++ [e] |}).

Definition readDb {A} (f : Db.Database -> A) : M A := fun w => (Ok (f (database w)), w).

Definition writeDb (f : Db.Database -> Db.Database) : M unit :=
  fun w =>
    (Ok tt,
     {| database := f (database w);
        currentRootPath := currentRootPath w;
        isGenerating := isGenerating w;
        job := job w;
        closures := closures w;
        clock := clock w;
        trace := trace w |}).

(** [new Date().toISOString()]: the next reading of the clock. *)
Definition newDate (env : Env) : M string :=
  fun w =>
    (Ok (JS.toISOString (now env (clock w))),
     {| database := database w;
        currentRootPath := currentRootPath w;
        isGenerating := isGenerating w;
        job := job w;
        closures := closures w;
        clock := S (clock w);
        trace := trace w |}).

(** [Date.now()]. *)
Definition readDateNow (env : Env) : M Z :=
  fun w =>
    (Ok (dateNow env (clock w)),
     {| database := database w;
        currentRootPath := currentRootPath w;
        isGenerating := isGenerating w;
        job := job w;
        closures := closures w;
        clock := S (clock w);
        trace := trace w |}).

Definition getClock : M nat := fun w => (Ok (clock w), w).

Definition setGenerating (b : bool) : M unit :=
  fun w =>
    (Ok tt,
     {| database := database w;
        currentRootPath := currentRootPath w;
        isGenerating := b;
        job := job w;
        closures := closures w;
        clock := clock w;
        trace := trace w |}).

Definition setRootPath (rootPath : string) : M unit :=
  fun w =>
    (Ok tt,
     {| database := database w;
        currentRootPath := Some rootPath;
        isGenerating := isGenerating w;
        job := job w;
        closures := closures w;
        clock := clock w;
        trace := trace w |}).

(** [let job = ...]: a new variable, which no callback closes over yet. *)
Definition declareJob (first : option ProxyJob.t) : M unit :=
  fun w =>
    (Ok tt,
     {| database := database w;
        currentRootPath := currentRootPath w;
        isGenerating := isGenerating w;
        job := first;
        closures := [];
        clock := clock w;
        trace := trace w |}).

(** [job = ...]. *)
Definition assignJob (next : option ProxyJob.t) : M unit :=
  fun w =>
    (Ok tt,
     {| database := database w;
        currentRootPath := currentRootPath w;
        isGenerating := isGenerating w;
        job := next;
        closures := closures w;
        clock := clock w;
        trace := trace w |}).

Definition readJob : M (option ProxyJob.t) := fun w => (Ok (job w), w).

Fixpoint setNth {A} (k : nat) (a : A) (l : list A) : list A :=
  match l, k with
  | [], _ => []
  | _ :: rest, O => a :: rest
  | b :: rest, S k' => b :: setNth k' a rest
  end.

(** The declaration of the locals of a callback; the result numbers them. *)
Definition newClosure (st : Progress) : M nat :=
  fun w =>
    (Ok (List.length (closures w)),
     {| database := database w;
        currentRootPath := currentRootPath w;
        isGenerating := isGenerating w;
        job := job w;
        closures := closures w ++ [st];
        clock := clock w;
        trace := trace w |}).

Definition readClosure (k : nat) : M (option Progress) :=
  fun w => (Ok (nth_error (closures w) k), w).

Definition writeClosure (k : nat) (st : Progress) : M unit :=
  fun w =>
    (Ok tt,
     {| database := database w;
        currentRootPath := currentRootPath w;
        isGenerating := isGenerating w;
        job := job w;
        closures := setNth k st (closures w);
        clock := clock w;
        trace := trace w |}).

End Effects.

Declare Scope effects_scope.
Delimit Scope effects_scope with eff.
Notation "x <- m ;; k" := (Effects.bind m (fun x => k))
  (at level 61, m at next level, right associativity) : effects_scope.
Notation "m ;;; k" := (Effects.bind m (fun _ => k))
  (at level 61, right associativity) : effects_scope.

(** ** [app/lib/scanner.ts] *)

Module Scanner.
Import Effects.

Local Open Scope string_scope.
Local Open Scope effects_scope.

Definition VIDEO_EXTENSIONS : list string :=
  [".mov"; ".mp4"; ".m4v"; ".avi"; ".mkv"; ".webm"].

Definition METADATA_CONCURRENCY : nat := 4.

(** *** Paths (POSIX) *)

(** The suffix that starts at the last dot, if there is a dot. *)
Fixpoint fromLastDot (l : list ascii) : option (list ascii) :=
  match l with
  | [] => None
  | c :: rest =>
      match fromLastDot rest with
      | Some ext => Some ext
      | None => if Ascii.eqb c "." then Some l else None
      end
  end.

(** The last portion of a path: trailing slashes dropped, then what
    follows the last slash. *)
Fixpoint dropSlashes (l : list ascii) : list ascii :=
  match l with
  | c :: rest => if Ascii.eqb c "/" then dropSlashes rest else l
  | [] => []
  end.

Fixpoint afterLastSlash (l : list ascii) : list ascii :=
  match l with
  | [] => []
  | c :: rest =>
      if existsb (Ascii.eqb "/") l
      then afterLastSlash rest
      else l
  end.

Definition lastPortion (p : string) : list ascii :=
  afterLastSlash (rev (dropSlashes (rev (JS.chars p)))).

(** [path.extname]: from the last dot of the last portion to its end; empty
    when that portion has no dot but possibly a leading one, or is [..]. *)
Definition extname (p : string) : string :=
  match lastPortion p with
  | [] => ""
  | first :: rest =>
      match fromLastDot rest with
      | None => ""
      | Some ext =>
          if (String.eqb (string_of_list_ascii (first :: rest)) "..") then ""
          else string_of_list_ascii ext
      end
  end.

(** [path.join(dir, name)] for a normalized [dir] and a plain name. *)
Definition join (dir name : string) : string := dir ++ "/" ++ name.

Definition basename (p : string) : string := string_of_list_ascii (lastPortion p).

(** [path.dirname] of an absolute, normalized path. *)
Definition dirname (p : string) : string :=
  let l := rev (dropSlashes (rev (JS.chars p))) in
  let dir := rev (dropSlashes (rev (firstn (List.length l - List.length (afterLastSlash l)) l))) in
  match dir with
  | [] => if JS.startsWith p "/" then "/" else "."
  | _ => string_of_list_ascii dir
  end.

(** *** The walk *)

Definition isVideoFile (filePath : string) : bool :=
  let ext := JS.toLowerCase (extname filePath) in
  existsb (String.eqb ext) VIDEO_EXTENSIONS.

Definition shouldSkipPath (name : string) : bool :=
  if JS.startsWith name "." then true
  else if existsb (String.eqb name)
            ["node_modules"; "__MACOSX"; ".Trash"; ".Spotlight-V100"; ".fseventsd"]
  then true
  else false.

(** An entry of a directory as [readdir] with file types reports it; a
    directory comes with its own listing, or none when reading it throws. *)
#[local] Unset Elimination Schemes.
Inductive Dirent :=
| FileEnt (name : string)
| DirectoryEnt (name : string) (listing : option (list Dirent))
| OtherEnt (name : string).
#[local] Set Elimination Schemes.

Definition direntName (entry : Dirent) : string :=
  match entry with
  | FileEnt name | DirectoryEnt name _ | OtherEnt name => name
  end.

(** The body of the loop of [scanDirectory] for one entry, the recursive
    call included; the paths yielded, in order. *)
Fixpoint scanEntry (rootPath : string) (entry : Dirent) : list string :=
  if shouldSkipPath (direntName entry) then []
  else
    let fullPath := join rootPath (direntName entry) in
    match entry with
    | DirectoryEnt _ (Some entries) => flat_map (scanEntry fullPath) entries
    | DirectoryEnt _ None => []
    | FileEnt name => if isVideoFile name then [fullPath] else []
    | OtherEnt _ => []
    end.

Definition scanDirectory (rootPath : string) (listing : option (list Dirent))
  : list string :=
  match listing with
  | Some entries => flat_map (scanEntry rootPath) entries
  | None => []
  end.

(** *** Fingerprint *)

(** What the digest is fed: the bytes read, then the size and the
    modification time as text. *)
Definition fingerprintInput (file : FileEntry) : list ascii :=
  firstn (N.to_nat 65536) (content file) ++
  JS.chars (JS.String_ (Z.of_nat (List.length (content file)))) ++
  JS.chars (JS.toISOString (mtime file)).

Definition getFileFingerprint (env : Env) (filePath : string) : M string :=
  match files env filePath with
  | None => throw ("ENOENT: no such file or directory, stat " ++ filePath)
  | Some file => ret (md5 env (fingerprintInput file))
  end.

(** *** One file of the process phase *)

Record UnitResult := {
  video : option Video.t;
  skipped : bool
}.

Definition getVideoMetadata (env : Env) (filePath : string) : M FFmpegMetadata.t :=
  emit (ProbeStarted filePath) ;;;
  lift (ffprobe env filePath).

Definition ensureProxyDir (env : Env) (rootPath : string) : M string :=
  if mkdirProxies env rootPath then ret (Ffmpeg.getProxyDir rootPath)
  else throw ("EACCES: permission denied, mkdir " ++ Ffmpeg.getProxyDir rootPath).

Definition generateThumbnailOnly (env : Env) (videoId inputPath rootPath : string)
  (duration : Q) : M string :=
  _ <- ensureProxyDir env rootPath ;;
  emit (ThumbnailStarted videoId inputPath) ;;;
  lift (Ffmpeg.generateThumbnail (thumbnailRun env inputPath)) ;;;
  ret (Ffmpeg.thumbnailPathOf rootPath videoId).

Definition generateSpriteSheetOnly (env : Env) (videoId inputPath rootPath : string)
  (duration : Q) : M (string * Ffmpeg.SpriteConfig) :=
  _ <- ensureProxyDir env rootPath ;;
  emit (SpriteStarted videoId inputPath) ;;;
  spriteConfig <- lift (Ffmpeg.generateSpriteSheet duration (spriteRun env inputPath)) ;;
  ret (Ffmpeg.spritePathOf rootPath videoId, spriteConfig).

(** [Promise.all] of two started computations: both run; it rejects when
    one of them does. *)
Definition promiseAll2 {A B} (a : M A) (b : M B) : M (A * B) :=
  fun w =>
    let '(ra, w1) := a w in
    let '(rb, w2) := b w1 in
    match ra, rb with
    | Ok x, Ok y => (Ok (x, y), w2)
    | Throw e, _ => (Throw e, w2)
    | Ok _, Throw e => (Throw e, w2)
    end.

(** [existing && existing.fileHash === fingerprint]. *)
Definition unchanged (existing : option Video.t) (fingerprint : string) : bool :=
  match existing with
  | Some found =>
      match Video.fileHash found with
      | Some stored => stored =? fingerprint
      | None => false
      end
  | None => false
  end.

Definition stat (env : Env) (filePath : string) : M FileEntry :=
  match files env filePath with
  | Some file => ret file
  | None => throw ("ENOENT: no such file or directory, stat " ++ filePath)
  end.

(** [insertVideo] of [db.ts], with its reading of the clock. *)
Definition insertVideo (env : Env) (videoData : Db.VideoInsertData) : M (option Video.t) :=
  scannedAt <- newDate env ;;
  inserted <- readDb (fun db => snd (Db.insertVideo scannedAt videoData db)) ;;
  writeDb (fun db => fst (Db.insertVideo scannedAt videoData db)) ;;;
  ret inserted.

(** The guarded [try] of thumbnail and sprite, with its own [catch]. *)
Definition thumbnailAndSprite (env : Env) (filePath rootPath : string) (duration : Q)
  (inserted : option Video.t) : M unit :=
  tryCatch
    (match inserted with
     | None => throw "TypeError: Cannot read properties of null (reading 'id')"
     | Some video =>
         paths <- promiseAll2
           (generateThumbnailOnly env (Video.id video) filePath rootPath duration)
           (generateSpriteSheetOnly env (Video.id video) filePath rootPath duration) ;;
         writeDb (Db.updateVideoThumbnailAndSprite (Video.id video)
                    (fst paths) (fst (snd paths)))
     end)
    (fun thumbError =>
       emit (ConsoleError ("Failed to generate thumbnail/sprite for " ++ filePath))).

(** What follows the fingerprint check for a new or changed file: probe,
    upsert, then thumbnail and sprite. *)
Definition reprocess (env : Env) (filePath rootPath : string) (generateThumbs : bool)
  (stats : FileEntry) (fingerprint : string) : M UnitResult :=
  metadata <- getVideoMetadata env filePath ;;
  let videoData :=
    {| Db.filePath := filePath;
       Db.fileName := basename filePath;
       Db.fileSize := Z.of_nat (List.length (content stats));
       Db.duration := FFmpegMetadata.duration metadata;
       Db.width := Some (FFmpegMetadata.width metadata);
       Db.height := Some (FFmpegMetadata.height metadata);
       Db.createdAt := JS.toISOString (birthtime stats);
       Db.directory := dirname filePath;
       Db.fileHash := Some fingerprint;
       Db.fileMtime := Some (JS.toISOString (mtime stats)) |} in
  inserted <- insertVideo env videoData ;;
  (if generateThumbs && negb (Qle_bool (FFmpegMetadata.duration metadata) 0) then
     thumbnailAndSprite env filePath rootPath (FFmpegMetadata.duration metadata) inserted
   else ret tt) ;;;
  ret {| video := inserted; skipped := false |}.

Definition processVideoFile (env : Env) (filePath rootPath : string)
  (generateThumbs : bool) : M UnitResult :=
  tryCatch
    (fingerprint <- getFileFingerprint env filePath ;;
     stats <- stat env filePath ;;
     existing <- readDb (Db.getVideoByPath filePath) ;;
     if unchanged existing fingerprint then
       ret {| video := existing; skipped := true |}
     else
       reprocess env filePath rootPath generateThumbs stats fingerprint)
    (fun error =>
       emit (ConsoleError ("Error processing video " ++ filePath)) ;;;
       ret {| video := None; skipped := false |}).

(** *** The two phases of a scan *)

Record Counters := {
  videosFound : Z;
  videosProcessed : Z;
  videosSkipped : Z
}.

(** The closure [processVideo]: one unit of the pool, then the counters
    and the running count of the session. The caller's [onProgress], when
    there is one, only reads the counters and is left out. *)
Definition processVideo (env : Env) (rootPath scanId : string) (counters : Counters)
  (videoPath : string) : M Counters :=
  result <- processVideoFile env videoPath rootPath true ;;
  let counters' :=
    match video result with
    | Some _ =>
        {| videosFound := videosFound counters + 1;
           videosProcessed :=
             if skipped result then videosProcessed counters
             else videosProcessed counters + 1;
           videosSkipped :=
             if skipped result then videosSkipped counters + 1
             else videosSkipped counters |}
    | None => counters
    end in
  writeDb (Db.updateScanProgress scanId (videosFound counters')) ;;;
  ret counters'.

(** The units of the pool, taken one after the other in the order of the
    walk, in which [p-limit] starts them; every update of the counters and
    of the database is made between two awaits. *)
Fixpoint processAll (env : Env) (rootPath scanId : string) (videoPaths : list string)
  (counters : Counters) : M Counters :=
  match videoPaths with
  | [] => ret counters
  | videoPath :: rest =>
      counters' <- processVideo env rootPath scanId counters videoPath ;;
      processAll env rootPath scanId rest counters'
  end.

(** [createScan] of [db.ts], with its two readings of the clock. *)
Definition createScan (env : Env) (rootPath : string) : M string :=
  nowMs <- readDateNow env ;;
  startedAt <- newDate env ;;
  created <- (db <- readDb (fun db => db) ;; lift (Db.createScan nowMs startedAt rootPath db)) ;;
  writeDb (fun _ => fst created) ;;;
  ret (snd created).

Inductive RootStat :=
| RootMissing
| RootNotDirectory
| RootDirectory (listing : option (list Dirent)).

Record ScanSummary := {
  scanId : string;
  found : Z;
  processed : Z;
  skippedCount : Z
}.

Definition scanAndProcessDirectory (env : Env) (rootPath : string) (root : RootStat)
  : M ScanSummary :=
  match root with
  | RootMissing | RootNotDirectory => throw ("Invalid directory path: " ++ rootPath)
  | RootDirectory listing =>
      setRootPath rootPath ;;;
      id <- createScan env rootPath ;;
      let videoPaths := scanDirectory rootPath listing in
      counters <- processAll env rootPath id videoPaths
                    {| videosFound := 0; videosProcessed := 0; videosSkipped := 0 |} ;;
      completedAt <- newDate env ;;
      writeDb (Db.completeScan completedAt id (videosFound counters)) ;;;
      ret {| scanId := id;
             found := videosFound counters;
             processed := videosProcessed counters;
             skippedCount := videosSkipped counters |}
  end.

End Scanner.

(** ** [app/api/proxy/route.ts]: the queue worker *)

Module ProxyRoute.
Import Effects.

Local Open Scope string_scope.
Local Open Scope effects_scope.

Definition initialProgress : Progress :=
  {| thumbnailDone := false; spriteDone := false; proxyProgress := 0 |}.

Definition track (st : Progress) (stage : string) (progress : Z) : Progress :=
  if (stage =? "thumbnail") && (progress =? 100)%Z then
    {| thumbnailDone := true;
       spriteDone := spriteDone st;
       proxyProgress := proxyProgress st |}
  else if (stage =? "sprite") && (progress =? 100)%Z then
    {| thumbnailDone := thumbnailDone st;
       spriteDone := true;
       proxyProgress := proxyProgress st |}
  else if stage =? "proxy" then
    {| thumbnailDone := thumbnailDone st;
       spriteDone := spriteDone st;
       proxyProgress := progress |}
  else st.

Definition overallProgress (st : Progress) : Q :=
  ((if thumbnailDone st then 5 else 0) +
   (if spriteDone st then 15 else 0) +
   inject_Z (proxyProgress st) * (8 # 10))%Q.

Definition updateProxyJobStatus (env : Env) (id : string) (status : JobStatus)
  (progress : Z) (error : option string) : M unit :=
  now <- newDate env ;;
  writeDb (Db.updateProxyJobStatus now id status progress error).

(** The callback [(stage, progress) => ...] whose locals are numbered
    [closure]. It updates its own locals and writes to the row of the job
    that the variable [job] holds when it runs ([job!.id]). A callback whose
    locals do not exist never runs. *)
Definition onProgress (env : Env) (closure : nat) (stage : string) (progress : Z)
  : M unit :=
  found <- readClosure closure ;;
  match found with
  | None => ret tt
  | Some st =>
      let st' := track st stage progress in
      writeClosure closure st' ;;;
      current <- readJob ;;
      match current with
      | None => throw "TypeError: Cannot read properties of null (reading 'id')"
      | Some j =>
          updateProxyJobStatus env (ProxyJob.id j) processing
            (JS.Math_round (overallProgress st')) None
      end
  end.

(** The callbacks that run while the turn whose locals are [me] waits. *)
Fixpoint deliver (env : Env) (me : nat) (pending : list Arrival) : M unit :=
  match pending with
  | [] => ret tt
  | Own stage progress :: rest =>
      onProgress env me stage progress ;;; deliver env me rest
  | Late closure stage progress :: rest =>
      onProgress env closure stage progress ;;; deliver env me rest
  end.

Record Assets := {
  proxyPath : string;
  spritePath : string;
  thumbnailPath : string
}.

(** [generateAllProxyAssets] of [ffmpeg.ts] under the callback above: the
    directory, the opening event, the callbacks as they arrive, then the
    settlement. *)
Definition generateAllProxyAssets (env : Env) (me : nat)
  (videoId inputPath rootPath : string) : M Assets :=
  _ <- Scanner.ensureProxyDir env rootPath ;;
  onProgress env me "all" 0%Z ;;;
  started <- getClock ;;
  emit (AssetsStarted videoId inputPath) ;;;
  let run := assetRun env started inputPath in
  deliver env me (arrivals run) ;;;
  lift (settled run) ;;;
  ret {| proxyPath := Ffmpeg.proxyPathOf rootPath videoId;
         spritePath := Ffmpeg.spritePathOf rootPath videoId;
         thumbnailPath := Ffmpeg.thumbnailPathOf rootPath videoId |}.

(** One turn of the [while] loop, [current] being the job the variable
    holds. Outside the callback the turn reads [job] only between two
    assignments, where it is [current]. *)
Definition processJob (env : Env) (rootPath : string) (current : ProxyJob.t) : M unit :=
  updateProxyJobStatus env (ProxyJob.id current) processing 0 None ;;;
  found <- readDb (Db.getVideoById (ProxyJob.videoId current)) ;;
  match found with
  | None =>
      updateProxyJobStatus env (ProxyJob.id current) error 0 (Some "Video not found")
  | Some video =>
      tryCatch
        (me <- newClosure initialProgress ;;
         result <- generateAllProxyAssets env me (Video.id video)
                     (Video.filePath video) rootPath ;;
         writeDb (Db.updateVideoProxy (Video.id video) (proxyPath result)
                    (spritePath result) (thumbnailPath result)) ;;;
         updateProxyJobStatus env (ProxyJob.id current) complete 100 None)
        (fun e =>
           emit (ConsoleError ("Error generating proxy for " ++ Video.fileName video)) ;;;
           updateProxyJobStatus env (ProxyJob.id current) error 0 (Some ("Error: " ++ e)))
  end.

(** The [while (job)] loop. It returns the jobs in the order it claimed
    them (the source returns nothing; the list serves the statements about
    order), or nothing when the fuel runs out before the queue is drained. *)
Fixpoint drain (fuel : nat) (env : Env) (rootPath : string)
  : M (option (list ProxyJob.t)) :=
  held <- readJob ;;
  match held with
  | None => ret (Some [])
  | Some current =>
      match fuel with
      | O => ret None
      | S fuel' =>
          processJob env rootPath current ;;;
          next <- readDb Db.getNextQueuedJob ;;
          assignJob next ;;;
          claimed <- drain fuel' env rootPath ;;
          ret (option_map (cons current) claimed)
      end
  end.

(** [try { ... } finally { isGenerating = false }]. *)
Definition finallyIdle {A} (body : M A) : M A :=
  fun w =>
    let '(r, w') := body w in
    (r, snd (setGenerating false w')).

(** Callbacks that arrive after the loop has ended find [job] null and
    throw inside an event handler of the child process; the worker has
    returned by then, and they are no part of its run. *)
Definition processQueue (fuel : nat) (env : Env) : M (option (list ProxyJob.t)) :=
  fun w =>
    if isGenerating w then (Ok (Some []), w)
    else
      match currentRootPath w with
      | None => (emit (ConsoleError "No root path available for proxy generation") ;;;
                 ret (Some [])) w
      | Some rootPath =>
          (setGenerating true ;;;
           finallyIdle
             (first <- readDb Db.getNextQueuedJob ;;
              declareJob first ;;;
              drain fuel env rootPath)) w
      end.

End ProxyRoute.

(** ** A small catalog used as a running example *)

Module Examples.
Import Effects.

Local Open Scope string_scope.

Definition newYear : JS.Date :=
  {| JS.year := 2024; JS.month := 1; JS.day := 1; JS.hours := 0;
     JS.minutes := 0; JS.seconds := 0; JS.milliseconds := 0 |}.

Definition clip : FileEntry :=
  {| content := JS.chars "abc"; mtime := newYear; birthtime := newYear |}.

Definition tenSeconds : FFmpegMetadata.t :=
  {| FFmpegMetadata.duration := 10;
     FFmpegMetadata.width := 1920;
     FFmpegMetadata.height := 1080;
     FFmpegMetadata.codec := "h264";
     FFmpegMetadata.frameRate := JS.Finite 30;
     FFmpegMetadata.bitRate := 1000 |}.

(** A stand-in for the digest: the input itself. *)
Definition plainDigest (input : list ascii) : string := string_of_list_ascii input.

Definition idleRun : AssetRun := {| arrivals := []; settled := Ok tt |}.

(** One file, [/v/a.mp4], and the given behaviour of the external programs. *)
Definition envWith (probe : Result FFmpegMetadata.t) (thumbnail sprite : Ffmpeg.FfmpegRun)
  (assets : AssetRun) : Env :=
  {| md5 := plainDigest;
     files := fun p => if p =? "/v/a.mp4" then Some clip else None;
     ffprobe := fun _ => probe;
     mkdirProxies := fun _ => true;
     thumbnailRun := fun _ => thumbnail;
     spriteRun := fun _ => sprite;
     assetRun := fun _ _ => assets;
     now := fun _ => newYear;
     dateNow := fun _ => 1704067200000%Z |}.

Definition worldOf (db : Db.Database) : World :=
  {| database := db;
     currentRootPath := Some "/v";
     isGenerating := false;
     job := None;
     closures := [];
     clock := 0;
     trace := [] |}.

(** The row of [/v/a.mp4] once its proxy, sprite and thumbnail exist, with
    the given stored fingerprint. *)
Definition proxiedRow (hash : string) : VideoRow.t :=
  {| VideoRow.id := Db.generateId "/v/a.mp4";
     VideoRow.file_path := "/v/a.mp4";
     VideoRow.file_name := "a.mp4";
     VideoRow.file_size := 3;
     VideoRow.duration := 10;
     VideoRow.width := Some 1920%Z;
     VideoRow.height := Some 1080%Z;
     VideoRow.created_at := "2024-01-01T00:00:00.000Z";
     VideoRow.directory := "/v";
     VideoRow.has_proxy := 1;
     VideoRow.has_sprite := 1;
     VideoRow.proxy_path := Some "/v/.vcb-data/proxies/y_proxy.mp4";
     VideoRow.sprite_path := Some "/v/.vcb-data/proxies/y_sprite.jpg";
     VideoRow.thumbnail_path := Some "/v/.vcb-data/proxies/y_thumb.jpg";
     VideoRow.file_hash := Some hash;
     VideoRow.file_mtime := Some "2024-01-01T00:00:00.000Z";
     VideoRow.scanned_at := Some "2024-01-01T00:00:00.000Z" |}.

Definition catalogWith (rows : list VideoRow.t) : Db.Database :=
  {| Db.videos := rows; Db.selections := []; Db.proxy_queue := []; Db.scans := [] |}.

Definition queueRow (id videoId createdAt : string) (status : JobStatus) : ProxyJobRow.t :=
  {| ProxyJobRow.id := id;
     ProxyJobRow.video_id := videoId;
     ProxyJobRow.status := status;
     ProxyJobRow.progress := 0;
     ProxyJobRow.created_at := createdAt;
     ProxyJobRow.started_at := None;
     ProxyJobRow.completed_at := None;
     ProxyJobRow.error := None |}.

Definition healthyEnv : Env :=
  envWith (Ok tenSeconds) (Ffmpeg.Closed 0 true) (Ffmpeg.Closed 0 true) idleRun.

(** ffmpeg exits with code 1 for the thumbnail. *)
Definition thumbnailFailsEnv : Env :=
  envWith (Ok tenSeconds) (Ffmpeg.Closed 1 false) (Ffmpeg.Closed 0 true) idleRun.

(** ffprobe exits with a non-zero code. *)
Definition probeFailsEnv : Env :=
  envWith (Throw "ffprobe exited with code 1") (Ffmpeg.Closed 0 true)
    (Ffmpeg.Closed 0 true) idleRun.

Definition emptyWorld : World := worldOf Db.emptyDatabase.

(** The catalog holds [/v/a.mp4] with a proxy and an outdated fingerprint. *)
Definition staleWorld : World := worldOf (catalogWith [proxiedRow "stale"]).

(** The catalog holds [/v/a.mp4] with the fingerprint the file has now. *)
Definition freshWorld : World :=
  worldOf (catalogWith [proxiedRow (plainDigest (Scanner.fingerprintInput clip))]).

Definition dataOf (path name : string) : Db.VideoInsertData :=
  {| Db.filePath := path;
     Db.fileName := name;
     Db.fileSize := 10;
     Db.duration := 12;
     Db.width := Some 1920%Z;
     Db.height := Some 1080%Z;
     Db.createdAt := "2024-01-01T00:00:00.000Z";
     Db.directory := "/v";
     Db.fileHash := Some "f";
     Db.fileMtime := Some "2024-01-01T00:00:00.000Z" |}.

(** Two videos and two queued jobs; the job of [/v/a.mp4] was created
    first, though its row comes second. Its encoder fails. *)
Definition videoRowOf (path name : string) : VideoRow.t :=
  Db.insertedRow (Db.generateId path) "2024-01-01T00:00:00.000Z" (dataOf path name).

Definition queueEnv : Env :=
  {| md5 := plainDigest;
     files := fun _ => Some clip;
     ffprobe := fun _ => Ok tenSeconds;
     mkdirProxies := fun _ => true;
     thumbnailRun := fun _ => Ffmpeg.Closed 0 true;
     spriteRun := fun _ => Ffmpeg.Closed 0 true;
     assetRun := fun _ path =>
       if path =? "/v/a.mp4" then
         {| arrivals := [Own "proxy" 40];
            settled := Throw "ffmpeg proxy exited with code 1" |}
       else
         {| arrivals :=
              [Own "thumbnail" 100; Own "proxy" 50; Own "sprite" 100; Own "proxy" 100];
            settled := Ok tt |};
     now := fun _ => newYear;
     dateNow := fun _ => 1704067200000%Z |}.

Definition queueWorld : World :=
  worldOf
    {| Db.videos := [videoRowOf "/v/a.mp4" "a.mp4"; videoRowOf "/v/b.mp4" "b.mp4"];
       Db.selections := [];
       Db.proxy_queue :=
         [queueRow "jb" (Db.generateId "/v/b.mp4") "2024-01-02T00:00:00.000Z" queued;
          queueRow "ja" (Db.generateId "/v/a.mp4") "2024-01-01T00:00:00.000Z" queued];
       Db.scans := [] |}.

Definition jobOf (id path createdAt : string) : ProxyJob.t :=
  Types.rowToProxyJob (queueRow id (Db.generateId path) createdAt queued).

(** The same queue when ffmpeg fails at once on the sprite sheet of
    [/v/a.mp4] and its thumbnail is still being extracted: the thumbnail is
    ready, and the callback of that turn runs, while [/v/b.mp4] is encoded. *)
Definition lateEnv : Env :=
  {| md5 := plainDigest;
     files := fun _ => Some clip;
     ffprobe := fun _ => Ok tenSeconds;
     mkdirProxies := fun _ => true;
     thumbnailRun := fun _ => Ffmpeg.Closed 0 true;
     spriteRun := fun _ => Ffmpeg.Closed 0 true;
     assetRun := fun _ path =>
       if path =? "/v/a.mp4" then
         {| arrivals := [];
            settled := Throw "ffmpeg sprite sheet exited with code 1" |}
       else
         {| arrivals :=
              [Own "proxy" 50; Late 0 "thumbnail" 100; Own "proxy" 60; Own "thumbnail" 100;
               Own "sprite" 100; Own "proxy" 100];
            settled := Ok tt |};
     now := fun _ => newYear;
     dateNow := fun _ => 1704067200000%Z |}.

(** The run of the worker on this queue, stopped in its second turn after
    the [n] first callbacks that arrive while it waits for the generators
    of [/v/b.mp4]. *)
Definition secondTurn (n : nat) : M unit :=
  (first <- readDb Db.getNextQueuedJob ;;
   declareJob first ;;;
   ProxyRoute.processJob lateEnv "/v" (jobOf "ja" "/v/a.mp4" "2024-01-01T00:00:00.000Z") ;;;
   next <- readDb Db.getNextQueuedJob ;;
   assignJob next ;;;
   ProxyRoute.updateProxyJobStatus lateEnv "jb" processing 0 None ;;;
   me <- newClosure ProxyRoute.initialProgress ;;
   ProxyRoute.onProgress lateEnv me "all" 0 ;;;
   started <- getClock ;;
   ProxyRoute.deliver lateEnv me
     (firstn n (arrivals (assetRun lateEnv started "/v/b.mp4"))))%eff.

(** Two files that differ in content, size and modification time: nine
    bytes last modified in the year 112024, and the same nine bytes followed
    by [9+], last modified in 2024. *)
Definition farFuture : JS.Date :=
  {| JS.year := 112024; JS.month := 1; JS.day := 1; JS.hours := 0;
     JS.minutes := 0; JS.seconds := 0; JS.milliseconds := 0 |}.

Definition nineBytes : FileEntry :=
  {| content := JS.chars "aaaaaaaaa"; mtime := farFuture; birthtime := newYear |}.

Definition elevenBytes : FileEntry :=
  {| content := JS.chars "aaaaaaaaa9+"; mtime := newYear; birthtime := newYear |}.

(** [clip] with another creation time. *)
Definition copiedClip : FileEntry :=
  {| content := content clip; mtime := mtime clip; birthtime := farFuture |}.

Definition twinEnv : Env :=
  {| md5 := plainDigest;
     files := fun p =>
       if p =? "/v/nine.mp4" then Some nineBytes
       else if p =? "/v/eleven.mp4" then Some elevenBytes
       else None;
     ffprobe := fun _ => Ok tenSeconds;
     mkdirProxies := fun _ => true;
     thumbnailRun := fun _ => Ffmpeg.Closed 0 true;
     spriteRun := fun _ => Ffmpeg.Closed 0 true;
     assetRun := fun _ _ => idleRun;
     now := fun _ => newYear;
     dateNow := fun _ => 1704067200000%Z |}.

(** 63.00000000000001, the double next above 63, and the least positive
    double. *)
Definition justAbove63 : Q := 8866461766385665 # 140737488355328.
Definition leastDouble : Q := Double.pow2 (-1074).

End Examples.

(** ** The terms in which the properties are stated *)

Module FfmpegTerms.
Import Ffmpeg.

Local Open Scope string_scope.
Local Open Scope Q_scope.

(** The text holds no slash. *)
Fixpoint noSlash (s : string) : bool :=
  match s with
  | EmptyString => true
  | String c rest => negb (Ascii.eqb c "/") && noSlash rest
  end.

End FfmpegTerms.

Module ScannerTerms.
Import Effects Scanner.

Local Open Scope string_scope.

(** What a computation may do to the world besides the catalog tables. *)
Definition sameControl (w w' : World) : Prop :=
  currentRootPath w' = currentRootPath w /\ isGenerating w' = isGenerating w /\
  Db.scans (database w') = Db.scans (database w).

Definition fingerprintOf (env : Env) (file : FileEntry) : string :=
  md5 env (fingerprintInput file).

Definition withTrace (w : World) (events : list Event) : World :=
  {| database := database w;
     currentRootPath := currentRootPath w;
     isGenerating := isGenerating w;
     job := job w;
     closures := closures w;
     clock := clock w;
     trace := trace w ++ events |}.

Definition failedUnit : UnitResult := {| video := None; skipped := false |}.

(** The upsert made for a file whose probe succeeded. *)
Definition videoDataOf (env : Env) (filePath : string) (file : FileEntry)
  (metadata : FFmpegMetadata.t) : Db.VideoInsertData :=
  {| Db.filePath := filePath;
     Db.fileName := basename filePath;
     Db.fileSize := Z.of_nat (List.length (content file));
     Db.duration := FFmpegMetadata.duration metadata;
     Db.width := Some (FFmpegMetadata.width metadata);
     Db.height := Some (FFmpegMetadata.height metadata);
     Db.createdAt := JS.toISOString (birthtime file);
     Db.directory := dirname filePath;
     Db.fileHash := Some (fingerprintOf env file);
     Db.fileMtime := Some (JS.toISOString (mtime file)) |}.

(** The counters after a unit, as [processVideo] updates them. *)
Definition count (counters : Counters) (result : UnitResult) : Counters :=
  match video result with
  | Some _ =>
      {| videosFound := videosFound counters + 1;
         videosProcessed :=
           if skipped result then videosProcessed counters
           else videosProcessed counters + 1;
         videosSkipped :=
           if skipped result then videosSkipped counters + 1
           else videosSkipped counters |}
  | None => counters
  end.

Definition withScanProgress (scanId : string) (counters : Counters) (w : World) : World :=
  {| database := Db.updateScanProgress scanId (videosFound counters) (database w);
     currentRootPath := currentRootPath w;
     isGenerating := isGenerating w;
     job := job w;
     closures := closures w;
     clock := clock w;
     trace := trace w |}.

(** One unit of the pool as a step on counters and world. *)
Definition unitStep (env : Env) (rootPath scanId : string) (state : Counters * World)
  (videoPath : string) : Counters * World :=
  match processVideo env rootPath scanId (fst state) videoPath (snd state) with
  | (Ok counters', w') => (counters', w')
  | (Throw _, w') => (fst state, w')
  end.

(** The generators fail when the proxy directory cannot be made, or when
    ffmpeg fails for the thumbnail or for the sprite sheet. *)
Definition generationFails (env : Env) (filePath rootPath : string) (duration : Q) : Prop :=
  mkdirProxies env rootPath = false \/
  (exists e, Ffmpeg.generateThumbnail (thumbnailRun env filePath) = Throw e) \/
  (exists e, Ffmpeg.generateSpriteSheet duration (spriteRun env filePath) = Throw e).

Definition zeroCounters : Counters :=
  {| videosFound := 0; videosProcessed := 0; videosSkipped := 0 |}.

(** The session id that [createScan] is about to draw is not taken. *)
Definition scanIdFresh (env : Env) (rootPath : string) (w : World) : Prop :=
  existsb
    (fun row =>
       String.eqb (ScanRow.id row)
         (Db.generateId ("scan-" ++ rootPath ++ "-" ++ JS.String_ (dateNow env (clock w)))))
    (Db.scans (database w)) = false.

(** The id of the session that [createScan] opens. *)
Definition sessionId (env : Env) (rootPath : string) (w : World) : string :=
  Db.generateId ("scan-" ++ rootPath ++ "-" ++ JS.String_ (dateNow env (clock w))).

(** The world once [createScan] has written the row of the session. *)
Definition sessionStarted (env : Env) (rootPath : string) (w : World) : World :=
  {| database :=
       {| Db.videos := Db.videos (database w);
          Db.selections := Db.selections (database w);
          Db.proxy_queue := Db.proxy_queue (database w);
          Db.scans := Db.scans (database w) ++
            [{| ScanRow.id := sessionId env rootPath w;
                ScanRow.root_path := rootPath;
                ScanRow.status := scanning;
                ScanRow.videos_found := 0;
                ScanRow.started_at := JS.toISOString (now env (S (clock w)));
                ScanRow.completed_at := None |}] |};
     currentRootPath := Some rootPath;
     isGenerating := isGenerating w;
     job := job w;
     closures := closures w;
     clock := S (S (clock w));
     trace := trace w |}.

Definition sessionCompleted (env : Env) (id : string) (state : Counters * World) : World :=
  {| database :=
       Db.completeScan (JS.toISOString (now env (clock (snd state)))) id
         (videosFound (fst state)) (database (snd state));
     currentRootPath := currentRootPath (snd state);
     isGenerating := isGenerating (snd state);
     job := job (snd state);
     closures := closures (snd state);
     clock := S (clock (snd state));
     trace := trace (snd state) |}.

(** The path has a stored record whose fingerprint is the one the file has
    now. *)
Definition indexedUnchanged (env : Env) (db : Db.Database) (filePath : string) : Prop :=
  exists file v,
    files env filePath = Some file /\
    Db.getVideoByPath filePath db = Some v /\
    Video.fileHash v = Some (fingerprintOf env file).

(** The test of the skip branch for a path: the file can be read and the
    stored record of the path has the fingerprint the file has now. *)
Definition unchangedIn (env : Env) (db : Db.Database) (filePath : string) : bool :=
  match files env filePath with
  | Some file => unchanged (Db.getVideoByPath filePath db) (fingerprintOf env file)
  | None => false
  end.

(** The counters once a unit has been counted as processed. *)
Definition oneMoreProcessed (counters : Counters) : Counters :=
  {| videosFound := videosFound counters + 1;
     videosProcessed := videosProcessed counters + 1;
     videosSkipped := videosSkipped counters |}.

End ScannerTerms.

Module StampTerms.

Local Open Scope Z_scope.






End StampTerms.

Module ProxyTerms.
Import Effects ProxyRoute StampTerms.

Local Open Scope string_scope.
Local Open Scope list_scope.

(** The world after one UPDATE of the status of a job. *)
Definition afterStatus (env : Env) (id : string) (status : JobStatus) (progress : Z)
  (error : option string) (w : World) : World :=
  {| database :=
       Db.updateProxyJobStatus (JS.toISOString (now env (clock w))) id status progress
         error (database w);
     currentRootPath := currentRootPath w;
     isGenerating := isGenerating w;
     job := Effects.job w;
     closures := closures w;
     clock := S (clock w);
     trace := trace w |}.




(** The locals of a callback after one more event. *)
Definition trackEvent (st : Progress) (event : string * Z) : Progress :=
  track st (fst event) (snd event).

Definition thumbnailFinished (events : list (string * Z)) : bool :=
  existsb (fun e => (fst e =? "thumbnail") && (snd e =? 100)%Z) events.

Definition spriteFinished (events : list (string * Z)) : bool :=
  existsb (fun e => (fst e =? "sprite") && (snd e =? 100)%Z) events.

(** The percentages reported by the proxy encoder, in order. *)
Definition proxyReports (events : list (string * Z)) : list Z :=
  map snd (filter (fun e => fst e =? "proxy") events).

Definition proxyPercent (events : list (string * Z)) : Z := last (proxyReports events) 0%Z.

(** round(5 [thumbnail finished] + 15 [sprite finished] + 0.8 proxyPercent). *)
Definition weighted (events : list (string * Z)) : Z :=
  JS.Math_round
    ((if thumbnailFinished events then 5 else 0) +
     (if spriteFinished events then 15 else 0) +
     (8 # 10) * inject_Z (proxyPercent events))%Q.

Definition storedProgress (id : string) (w : World) : option Z :=
  option_map ProxyJob.progress (Db.getProxyJobById id (database w)).

Definition storedStatus (id : string) (w : World) : option JobStatus :=
  option_map ProxyJob.status (Db.getProxyJobById id (database w)).

Definition withClosure (k : nat) (st : Progress) (w : World) : World :=
  {| database := database w;
     currentRootPath := currentRootPath w;
     isGenerating := isGenerating w;
     job := Effects.job w;
     closures := setNth k st (closures w);
     clock := clock w;
     trace := trace w |}.

(** The world after the callback whose locals are numbered [k], and are
    now [st], has written to the row of the job [id]. *)
Definition afterCallback (env : Env) (id : string) (k : nat) (st : Progress) (w : World)
  : World :=
  afterStatus env id processing (JS.Math_round (overallProgress st)) None
    (withClosure k st w).













(** An event as a callback of the turn that waits. *)
Definition own (event : string * Z) : Arrival := Own (fst event) (snd event).






End ProxyTerms.

Module WalkTerms.
Import Scanner.

Local Open Scope string_scope.
Local Open Scope list_scope.

Definition denyList : list string :=
  ["node_modules"; "__MACOSX"; ".Trash"; ".Spotlight-V100"; ".fseventsd"].

(** A name is hidden when it begins with a dot, denied when it is one of
    the names of the deny-list. *)
Definition hiddenOrDenied (name : string) : Prop :=
  (exists rest, name = String "." rest) \/ In name denyList.

(** The regular files below an entry: the names of the directories gone
    through, the entry included, and the name of the file. Only a
    directory that can be read has anything below it. *)
Inductive fileUnder : Dirent -> list string -> string -> Prop :=
| under_file (name : string) : fileUnder (FileEnt name) [] name
| under_directory (dir : string) (entries : list Dirent) (entry : Dirent)
    (dirs : list string) (name : string) :
    In entry entries -> fileUnder entry dirs name ->
    fileUnder (DirectoryEnt dir (Some entries)) (dir :: dirs) name.

(** The path of a file from the names of its components. *)
Definition pathOf (rootPath : string) (components : list string) : string :=
  fold_left join components rootPath.

(** The extension is one of the allow-list, whatever its case. *)
Definition hasVideoExtension (name : string) : Prop :=
  In (JS.toLowerCase (extname name)) VIDEO_EXTENSIONS.

Definition visibleVideo (dirs : list string) (name : string) : Prop :=
  Forall (fun component => ~ hiddenOrDenied component) (dirs ++ [name]) /\
  hasVideoExtension name.

Fixpoint slashFree (name : string) : bool :=
  match name with
  | EmptyString => true
  | String c rest => negb (Ascii.eqb c "/") && slashFree rest
  end.

#[local] Unset Elimination Schemes.
(** The names of a tree are names of directory entries: without slash. *)
Inductive wellNamed : Dirent -> Prop :=
| named_file (name : string) : slashFree name = true -> wellNamed (FileEnt name)
| named_unreadable (name : string) :
    slashFree name = true -> wellNamed (DirectoryEnt name None)
| named_directory (name : string) (entries : list Dirent) :
    slashFree name = true -> Forall wellNamed entries ->
    wellNamed (DirectoryEnt name (Some entries))
| named_other (name : string) : slashFree name = true -> wellNamed (OtherEnt name).
#[local] Set Elimination Schemes.

Fixpoint tailOf (components : list string) : string :=
  match components with
  | [] => ""
  | c :: rest => "/" ++ c ++ tailOf rest
  end.

Definition sampleTree : list Dirent :=
  [FileEnt "a.MP4";
   DirectoryEnt "day1"
     (Some [FileEnt "b.mov"; FileEnt ".hidden.mp4";
            DirectoryEnt "deep" (Some [FileEnt "c.webm"; FileEnt "c.webm.txt"])]);
   DirectoryEnt ".vcb-data" (Some [FileEnt "p.mp4"]);
   DirectoryEnt "node_modules" (Some [FileEnt "m.mp4"]);
   DirectoryEnt "locked" None;
   OtherEnt "link.mp4";
   FileEnt "notes.txt"].

End WalkTerms.

Module FingerprintTerms.
Import Effects Scanner.

Local Open Scope string_scope.
Local Open Scope list_scope.
Local Open Scope Z_scope.

(** The fuel [toString] gives itself to print [n]. *)
Definition fuelOf (n : Z) : nat := S (Z.to_nat (Z.log2 n)).

(** The three inputs of the fingerprint. *)
Definition prefixOf (file : FileEntry) : list ascii :=
  firstn (N.to_nat 65536) (content file).

Definition sizeOf (file : FileEntry) : Z := Z.of_nat (List.length (content file)).

Definition stampOf (file : FileEntry) : string := JS.toISOString (mtime file).

(** The year prints on four digits. *)
Definition fourDigitYear (d : JS.Date) : bool :=
  (0 <=? JS.year d) && (JS.year d <=? 9999).

End FingerprintTerms.

(** * Properties

    ** Rounding to the nearest double *)

Module DoubleFacts.
Import Double.
Local Open Scope Q_scope.

Lemma pow2_pos (e : Z) : 0 < pow2 e.
Proof. apply Qpower_0_lt. reflexivity. Qed.

Lemma pow2_add (a b : Z) : pow2 (a + b) == pow2 a * pow2 b.
Proof. apply Qpower_plus. discriminate. Qed.

Lemma pow2_le (a b : Z) : (a <= b)%Z -> pow2 a <= pow2 b.
Proof. intros H. apply Qpower_le_compat_l; [exact H|discriminate]. Qed.

Lemma pow2_lt (a b : Z) : (a < b)%Z -> pow2 a < pow2 b.
Proof. intros H. apply Qpower_lt_compat_l; [exact H|reflexivity]. Qed.

Lemma pow2_lt_inv (a b : Z) : pow2 a < pow2 b -> (a < b)%Z.
Proof. intros H. apply (Qpower_lt_compat_l_inv 2); [exact H|reflexivity]. Qed.

Lemma pow2_Z (e : Z) : (0 <= e)%Z -> pow2 e == inject_Z (2 ^ e).
Proof. intros H. unfold pow2. now rewrite Zpower_Qpower. Qed.

Lemma binade_bounds (x : Q) :
  0 < x -> pow2 (binade x) <= x /\ x < pow2 (binade x + 1).
Proof.
  intros Hx. destruct x as [n d].
  assert (Hn : (0 < n)%Z).
  { unfold Qlt in Hx. cbn in Hx. lia. }
  set (ln := Z.log2 n). set (ld := Z.log2 (Zpos d)).
  destruct (Z.log2_spec n Hn) as [Hn1 Hn2]. fold ln in Hn1, Hn2.
  destruct (Z.log2_spec (Zpos d) (Pos2Z.is_pos d)) as [Hd1 Hd2]. fold ld in Hd1, Hd2.
  assert (Hln : (0 <= ln)%Z) by apply Z.log2_nonneg.
  assert (Hld : (0 <= ld)%Z) by apply Z.log2_nonneg.
  assert (Hxd : (n # d) * inject_Z (Zpos d) == inject_Z n).
  { unfold Qeq, Qmult, inject_Z. cbn. lia. }
  assert (Q1 : pow2 ln <= inject_Z n).
  { rewrite pow2_Z by exact Hln. now rewrite <- Zle_Qle. }
  assert (Q2 : inject_Z n < pow2 (ln + 1)).
  { rewrite pow2_Z by lia. rewrite <- Zlt_Qlt. unfold Z.succ in Hn2. exact Hn2. }
  assert (Q3 : pow2 ld <= inject_Z (Zpos d)).
  { rewrite pow2_Z by exact Hld. now rewrite <- Zle_Qle. }
  assert (Q4 : inject_Z (Zpos d) < pow2 (ld + 1)).
  { rewrite pow2_Z by lia. rewrite <- Zlt_Qlt. unfold Z.succ in Hd2. exact Hd2. }
  assert (Hup : (n # d) < pow2 (ln - ld + 1)).
  { apply (Qmult_lt_r _ _ (pow2 ld) (pow2_pos ld)).
    rewrite <- pow2_add. replace (ln - ld + 1 + ld)%Z with (ln + 1)%Z by lia.
    eapply Qle_lt_trans; [|exact Q2]. rewrite <- Hxd.
    apply Qmult_le_l; [exact Hx|exact Q3]. }
  assert (Hlow : pow2 (ln - ld - 1) < (n # d)).
  { apply (Qmult_lt_r _ _ (pow2 (ld + 1)) (pow2_pos _)).
    rewrite <- pow2_add. replace (ln - ld - 1 + (ld + 1))%Z with ln by lia.
    eapply Qle_lt_trans; [exact Q1|]. rewrite <- Hxd.
    apply Qmult_lt_l; [exact Hx|exact Q4]. }
  unfold binade. cbn [Qnum Qden]. fold ln ld.
  destruct (Qle_bool (pow2 (ln - ld)) (n # d)) eqn:E.
  - apply Qle_bool_iff in E. split; [exact E|exact Hup].
  - split; [apply Qlt_le_weak; exact Hlow|].
    replace (ln - ld - 1 + 1)%Z with (ln - ld)%Z by lia.
    apply Qnot_le_lt. intros H. apply Qle_bool_iff in H. congruence.
Qed.

Lemma binade_unique (x : Q) (e : Z) :
  pow2 e <= x -> x < pow2 (e + 1) -> binade x = e.
Proof.
  intros H1 H2.
  assert (Hx : 0 < x) by (eapply Qlt_le_trans; [apply (pow2_pos e)|exact H1]).
  destruct (binade_bounds x Hx) as [B1 B2].
  assert (binade x < e + 1)%Z.
  { apply pow2_lt_inv. eapply Qle_lt_trans; eassumption. }
  assert (e < binade x + 1)%Z.
  { apply pow2_lt_inv. eapply Qle_lt_trans; eassumption. }
  lia.
Qed.

Lemma binade_comp (x y : Q) : 0 < x -> x == y -> binade x = binade y.
Proof.
  intros Hx E. destruct (binade_bounds x Hx) as [B1 B2]. symmetry.
  apply binade_unique; now rewrite <- E.
Qed.

Lemma binade_mono (x y : Q) : 0 < x -> x <= y -> (binade x <= binade y)%Z.
Proof.
  intros Hx Hxy.
  assert (Hy : 0 < y) by (eapply Qlt_le_trans; eassumption).
  destruct (binade_bounds x Hx) as [B1 _]. destruct (binade_bounds y Hy) as [_ B2].
  assert (binade x < binade y + 1)%Z; [|lia].
  apply pow2_lt_inv. eapply Qle_lt_trans; [exact B1|].
  eapply Qle_lt_trans; eassumption.
Qed.


Lemma nearestInteger_Z (z : Z) : nearestInteger (inject_Z z) = z.
Proof.
  unfold nearestInteger. rewrite Qfloor_Z.
  destruct (Qcompare_spec (inject_Z z - inject_Z z) (1 # 2)) as [H|H|H].
  - exfalso. assert (E : inject_Z z - inject_Z z == 0) by ring.
    rewrite E in H. discriminate.
  - reflexivity.
  - exfalso. assert (E : inject_Z z - inject_Z z == 0) by ring.
    rewrite E in H. discriminate.
Qed.

Lemma nearestInteger_bounds (x : Q) :
  (Qfloor x <= nearestInteger x <= Qfloor x + 1)%Z.
Proof.
  unfold nearestInteger.
  destruct (Qcompare (x - inject_Z (Qfloor x)) (1 # 2)); [destruct (Z.even (Qfloor x))| |]; lia.
Qed.

Lemma nearestInteger_mono (x y : Q) :
  x <= y -> (nearestInteger x <= nearestInteger y)%Z.
Proof.
  intros Hxy. pose proof (Qfloor_resp_le x y Hxy) as Hf.
  destruct (Z.eq_dec (Qfloor x) (Qfloor y)) as [E|N].
  - unfold nearestInteger. rewrite <- E.
    assert (Hr : x - inject_Z (Qfloor x) <= y - inject_Z (Qfloor x)) by lra.
    destruct (Qcompare_spec (x - inject_Z (Qfloor x)) (1 # 2)) as [H1|H1|H1];
      destruct (Qcompare_spec (y - inject_Z (Qfloor x)) (1 # 2)) as [H2|H2|H2];
      try destruct (Z.even (Qfloor x)); try lia; exfalso; lra.
  - pose proof (nearestInteger_bounds x). pose proof (nearestInteger_bounds y). lia.
Qed.

Lemma nearestInteger_comp (x y : Q) : x == y -> nearestInteger x = nearestInteger y.
Proof.
  intros E. apply Z.le_antisymm; apply nearestInteger_mono; rewrite E; apply Qle_refl.
Qed.

Lemma nearestInteger_le (x : Q) (k : Z) : x <= inject_Z k -> (nearestInteger x <= k)%Z.
Proof. intros H. rewrite <- (nearestInteger_Z k). now apply nearestInteger_mono. Qed.

Lemma nearestInteger_ge (x : Q) (k : Z) : inject_Z k <= x -> (k <= nearestInteger x)%Z.
Proof. intros H. rewrite <- (nearestInteger_Z k) at 1. now apply nearestInteger_mono. Qed.

Lemma ulp_pos (x : Q) : 0 < ulp x.
Proof. apply pow2_pos. Qed.

(** A multiple of the spacing at [x] that bounds [x] bounds its rounding. *)
Lemma nearestPositive_le (x : Q) (k : Z) :
  x <= inject_Z k * ulp x -> nearestPositive x <= inject_Z k * ulp x.
Proof.
  intros H. unfold nearestPositive. apply Qmult_le_compat_r; [|apply Qlt_le_weak, ulp_pos].
  rewrite <- Zle_Qle. apply nearestInteger_le.
  apply Qle_shift_div_r; [apply ulp_pos|exact H].
Qed.

Lemma nearestPositive_ge (x : Q) (k : Z) :
  inject_Z k * ulp x <= x -> inject_Z k * ulp x <= nearestPositive x.
Proof.
  intros H. unfold nearestPositive. apply Qmult_le_compat_r; [|apply Qlt_le_weak, ulp_pos].
  rewrite <- Zle_Qle. apply nearestInteger_ge.
  apply Qle_shift_div_l; [apply ulp_pos|exact H].
Qed.

Lemma ulp_exponent (x : Q) : ulp x = pow2 (exponent x - 52).
Proof. reflexivity. Qed.

Lemma pow2_53_ulp (x : Q) : inject_Z (2 ^ 53) * ulp x == pow2 (exponent x + 1).
Proof.
  rewrite ulp_exponent, <- pow2_Z by lia. rewrite <- pow2_add.
  now replace (53 + (exponent x - 52))%Z with (exponent x + 1)%Z by lia.
Qed.

Lemma pow2_52_ulp (x : Q) : inject_Z (2 ^ 52) * ulp x == pow2 (exponent x).
Proof.
  rewrite ulp_exponent, <- pow2_Z by lia. rewrite <- pow2_add.
  now replace (52 + (exponent x - 52))%Z with (exponent x) by lia.
Qed.

Lemma below_next_binade (x : Q) : 0 < x -> x < pow2 (exponent x + 1).
Proof.
  intros Hx. destruct (binade_bounds x Hx) as [_ B].
  eapply Qlt_le_trans; [exact B|]. apply pow2_le. unfold exponent. lia.
Qed.

Lemma nearestPositive_mono (x y : Q) :
  0 < x -> x <= y -> nearestPositive x <= nearestPositive y.
Proof.
  intros Hx Hxy.
  assert (Hy : 0 < y) by (eapply Qlt_le_trans; eassumption).
  pose proof (binade_mono x y Hx Hxy) as Hb.
  destruct (Z.eq_dec (exponent x) (exponent y)) as [E|N].
  - unfold nearestPositive. rewrite !ulp_exponent, E.
    apply Qmult_le_compat_r; [|apply Qlt_le_weak, pow2_pos].
    rewrite <- Zle_Qle. apply nearestInteger_mono.
    apply Qmult_le_compat_r; [exact Hxy|].
    apply Qlt_le_weak, Qinv_lt_0_compat, pow2_pos.
  - assert (Hlt : (exponent x < exponent y)%Z) by (unfold exponent in *; lia).
    assert (Ey : exponent y = binade y) by (unfold exponent in *; lia).
    apply Qle_trans with (pow2 (exponent x + 1)).
    + rewrite <- pow2_53_ulp. apply nearestPositive_le. rewrite pow2_53_ulp.
      apply Qlt_le_weak, below_next_binade, Hx.
    + apply Qle_trans with (pow2 (exponent y)); [apply pow2_le; lia|].
      rewrite <- pow2_52_ulp. apply nearestPositive_ge. rewrite pow2_52_ulp, Ey.
      apply (binade_bounds y Hy).
Qed.

Lemma nearestPositive_nonneg (x : Q) : 0 < x -> 0 <= nearestPositive x.
Proof.
  intros Hx. assert (H : inject_Z 0 * ulp x <= nearestPositive x).
  { apply nearestPositive_ge. rewrite Qmult_0_l. now apply Qlt_le_weak. }
  now rewrite Qmult_0_l in H.
Qed.

Lemma nearest_nonneg (x : Q) : 0 <= nearest x.
Proof.
  unfold nearest. destruct (Qle_bool x 0) eqn:E; [apply Qle_refl|].
  rewrite Qred_correct. apply nearestPositive_nonneg.
  apply Qnot_le_lt. intros H. apply Qle_bool_iff in H. congruence.
Qed.

Lemma nearest_mono (x y : Q) : x <= y -> nearest x <= nearest y.
Proof.
  intros Hxy. unfold nearest at 1. destruct (Qle_bool x 0) eqn:Ex; [apply nearest_nonneg|].
  assert (Hx : 0 < x).
  { apply Qnot_le_lt. intros H. apply Qle_bool_iff in H. congruence. }
  unfold nearest. destruct (Qle_bool y 0) eqn:Ey.
  - apply Qle_bool_iff in Ey. exfalso. lra.
  - rewrite !Qred_correct. now apply nearestPositive_mono.
Qed.

Lemma nearest_comp (x y : Q) : x == y -> nearest x == nearest y.
Proof.
  intros E. apply Qle_antisym; apply nearest_mono; rewrite E; apply Qle_refl.
Qed.

(** A significand of at most 53 bits over an exponent of the format is a
    double. *)
Lemma nearest_exact (m e : Z) :
  (0 < m < 2 ^ 53)%Z -> (-1074 <= e)%Z ->
  nearest (inject_Z m * pow2 e) == inject_Z m * pow2 e.
Proof.
  intros Hm He. set (x := inject_Z m * pow2 e).
  assert (Hx : 0 < x).
  { apply Qmult_lt_0_compat; [|apply pow2_pos].
    change 0 with (inject_Z 0). rewrite <- Zlt_Qlt. lia. }
  unfold nearest. destruct (Qle_bool x 0) eqn:E0.
  { apply Qle_bool_iff in E0. exfalso. lra. }
  rewrite Qred_correct.
  assert (Hb : (binade x < e + 53)%Z).
  { apply pow2_lt_inv. eapply Qle_lt_trans; [apply (binade_bounds x Hx)|].
    unfold x. rewrite pow2_add, Qmult_comm.
    apply Qmult_lt_l; [apply pow2_pos|].
    rewrite pow2_Z by lia. rewrite <- Zlt_Qlt. lia. }
  set (k := (e - (exponent x - 52))%Z).
  assert (Hk : (0 <= k)%Z) by (unfold k, exponent; lia).
  assert (Hxk : x == inject_Z (m * 2 ^ k) * ulp x).
  { rewrite ulp_exponent, inject_Z_mult, <- pow2_Z by exact Hk.
    rewrite <- Qmult_assoc, <- pow2_add.
    unfold k. replace (e - (exponent x - 52) + (exponent x - 52))%Z with e by lia.
    reflexivity. }
  apply Qle_antisym.
  - rewrite Hxk at 2. apply nearestPositive_le. rewrite <- Hxk. apply Qle_refl.
  - rewrite Hxk at 1. apply nearestPositive_ge. rewrite <- Hxk. apply Qle_refl.
Qed.

Lemma nearest_Z (n : Z) : (0 <= n < 2 ^ 53)%Z -> nearest (inject_Z n) == inject_Z n.
Proof.
  intros Hn. destruct (Z.eq_dec n 0) as [->|N]; [reflexivity|].
  assert (E : inject_Z n == inject_Z n * pow2 0) by (unfold pow2; cbn; ring).
  rewrite (nearest_comp _ _ E), nearest_exact by lia. now rewrite <- E.
Qed.

Lemma nearest_half (n : Z) :
  (0 < n < 2 ^ 53)%Z -> nearest (inject_Z n / 2) == inject_Z n / 2.
Proof.
  intros Hn.
  assert (E : inject_Z n / 2 == inject_Z n * pow2 (-1)) by (unfold pow2; cbn; field).
  rewrite (nearest_comp _ _ E), nearest_exact by lia. now rewrite <- E.
Qed.

(** A double is a multiple of the spacing around it: above a multiple, it
    is at least the next one. *)
Lemma next_multiple (d : Q) (a : Z) :
  0 < d -> nearest d == d -> inject_Z a * ulp d < d -> inject_Z (a + 1) * ulp d <= d.
Proof.
  intros Hd Hr Ha.
  unfold nearest in Hr. destruct (Qle_bool d 0) eqn:E0.
  { apply Qle_bool_iff in E0. exfalso. lra. }
  rewrite Qred_correct in Hr. unfold nearestPositive in Hr.
  set (n := nearestInteger (d / ulp d)) in Hr.
  assert (Hlt : inject_Z a * ulp d < inject_Z n * ulp d) by (now rewrite Hr).
  apply Qmult_lt_r in Hlt; [|apply ulp_pos]. rewrite <- Zlt_Qlt in Hlt.
  apply Qle_trans with (inject_Z n * ulp d); [|rewrite Hr; apply Qle_refl].
  apply Qmult_le_compat_r; [|apply Qlt_le_weak, ulp_pos].
  rewrite <- Zle_Qle. lia.
Qed.

(** In the binade [b]: *)
Lemma next_above (d : Q) (b a : Z) :
  nearest d == d -> (-1022 <= b)%Z ->
  pow2 b <= d -> d < pow2 (b + 1) ->
  inject_Z a * pow2 (b - 52) < d ->
  inject_Z (a + 1) * pow2 (b - 52) <= d.
Proof.
  intros Hr Hb Hlow Hup Ha.
  assert (Hd : 0 < d) by (eapply Qlt_le_trans; [apply (pow2_pos b)|exact Hlow]).
  assert (Hu : ulp d = pow2 (b - 52)).
  { unfold ulp, exponent. rewrite (binade_unique d b Hlow Hup). f_equal. lia. }
  rewrite <- Hu in Ha |- *. now apply next_multiple.
Qed.

End DoubleFacts.

(** ** Sprite layout and frame rate *)

Module FfmpegFacts.
Import Ffmpeg FfmpegTerms Double DoubleFacts.
Local Open Scope string_scope.
Local Open Scope Q_scope.

Lemma Qle_bool_false (x y : Q) : Qle_bool x y = false -> y < x.
Proof.
  intros H. apply Qnot_le_lt. intros Hle.
  apply Qle_bool_iff in Hle. congruence.
Qed.

Lemma Qceiling_pos (x : Q) : 0 < x -> (1 <= Qceiling x)%Z.
Proof.
  intros Hx.
  assert (H : 0 < inject_Z (Qceiling x)).
  { eapply Qlt_le_trans; [exact Hx | apply Qle_ceiling]. }
  change 0 with (inject_Z 0) in H. rewrite <- Zlt_Qlt in H. lia.
Qed.

Ltac qcompute := vm_compute; first [reflexivity | discriminate].

Lemma round_finite (s : bool) (x : Q) :
  nearest x < pow2 1024 -> round s x = Finite s (nearest x).
Proof.
  intros H. unfold round. destruct (Qle_bool (pow2 1024) (nearest x)) eqn:E; [|reflexivity].
  apply Qle_bool_iff in E. exfalso. apply (Qlt_irrefl (nearest x)).
  eapply Qlt_le_trans; eassumption.
Qed.

Lemma round_below (s : bool) (x y : Q) :
  x <= y -> nearest y == y -> y < pow2 1024 -> round s x = Finite s (nearest x).
Proof.
  intros Hxy Hy Hmax. apply round_finite. eapply Qle_lt_trans; [|exact Hmax].
  rewrite <- Hy. now apply nearest_mono.
Qed.

Lemma Qceiling_unique (q : Q) (k : Z) :
  inject_Z k < q -> q <= inject_Z (k + 1) -> Qceiling q = (k + 1)%Z.
Proof.
  intros H1 H2. pose proof (Qle_ceiling q) as H3. pose proof (Qceiling_lt q) as H4.
  assert (A : inject_Z k < inject_Z (Qceiling q)) by (eapply Qlt_le_trans; eassumption).
  assert (B : inject_Z (Qceiling q - 1) < inject_Z (k + 1)) by (eapply Qlt_le_trans; eassumption).
  rewrite <- Zlt_Qlt in A, B. lia.
Qed.

Lemma Qceiling_gt (q : Q) (k : Z) : inject_Z k < q -> (k < Qceiling q)%Z.
Proof.
  intros H. rewrite Zlt_Qlt. eapply Qlt_le_trans; [exact H|apply Qle_ceiling].
Qed.

Lemma Qceiling_le (q : Q) (k : Z) : q <= inject_Z k -> (Qceiling q <= k)%Z.
Proof. intros H. rewrite <- (Qceiling_Z k). now apply Qceiling_resp_le. Qed.


Lemma literals :
  ofZ 1 = Finite false 1 /\ ofZ 3 = Finite false 3 /\ ofZ 10 = Finite false 10 /\
  ofZ 12 = Finite false 12 /\ ofZ 15 = Finite false 15 /\ ofZ 20 = Finite false 20 /\
  ofZ 30 = Finite false 30 /\ ofZ 60 = Finite false 60 /\ ofZ 300 = Finite false 300 /\
  ofZ 1800 = Finite false 1800.
Proof. vm_compute. repeat split. Qed.

Lemma rates :
  div (ofZ 1) (ofZ 3) = Finite false (6004799503160661 # 18014398509481984) /\
  div (ofZ 1) (ofZ 12) = Finite false (6004799503160661 # 72057594037927936) /\
  div (ofZ 1) (ofZ 30) = Finite false (4803839602528529 # 144115188075855872).
Proof. vm_compute. repeat split. Qed.

Lemma grids :
  mul (ofZ 10) (Finite false 10) = Finite false 100 /\
  mul (ofZ 15) (Finite false 10) = Finite false 150 /\
  mul (ofZ 20) (Finite false 10) = Finite false 200.
Proof. vm_compute. repeat split. Qed.

Lemma Math_min_integers (p q : Q) (a b : Z) :
  p == inject_Z a -> q == inject_Z b ->
  exists m, Math_min (Finite false p) (Finite false q) = Finite false m /\
            m == inject_Z (Z.min a b).
Proof.
  intros Hp Hq. unfold Math_min, leb, value. cbn [orb].
  destruct (Qeq_bool p q) eqn:E.
  - exists p. split; [reflexivity|]. apply Qeq_bool_iff in E.
    assert (Hab : a = b) by (apply inject_Z_injective; now rewrite <- Hp, <- Hq).
    subst b. now rewrite Z.min_id.
  - destruct (Qle_bool p q) eqn:L.
    + exists p. split; [reflexivity|]. apply Qle_bool_iff in L.
      rewrite Hp, Hq in L. rewrite <- Zle_Qle in L. now rewrite Z.min_l.
    + exists q. split; [reflexivity|]. apply Qle_bool_false in L.
      rewrite Hp, Hq in L. rewrite <- Zlt_Qlt in L. now rewrite Z.min_r by lia.
Qed.

Lemma spriteTier_cases (x : Q) :
  (x <= 60 /\
   spriteTier (Finite false x) =
     (Finite false 1, 10%Z,
      Math_ceil (div (Math_min (Finite false x) (Finite false 60)) (Finite false 10)))) \/
  (60 < x /\ x <= 300 /\
   spriteTier (Finite false x) =
     (Finite false (6004799503160661 # 18014398509481984), 10%Z, Finite false 10)) \/
  (300 < x /\ x <= 1800 /\
   spriteTier (Finite false x) =
     (Finite false (6004799503160661 # 72057594037927936), 15%Z, Finite false 10)) \/
  (1800 < x /\
   spriteTier (Finite false x) =
     (Finite false (4803839602528529 # 144115188075855872), 20%Z, Finite false 10)).
Proof.
  destruct literals as (L1 & L3 & L10 & L12 & L15 & L20 & L30 & L60 & L300 & L1800).
  destruct rates as (R3 & R12 & R30).
  unfold spriteTier. rewrite R3, R12, R30, L1, L10, L60, L300, L1800.
  cbn [leb value].
  destruct (Qle_bool x 60) eqn:H60.
  { left. split; [now apply Qle_bool_iff | reflexivity]. }
  apply Qle_bool_false in H60.
  destruct (Qle_bool x 300) eqn:H300.
  { right; left. repeat split; [exact H60 | now apply Qle_bool_iff]. }
  apply Qle_bool_false in H300.
  destruct (Qle_bool x 1800) eqn:H1800.
  { right; right; left. repeat split; [exact H300 | now apply Qle_bool_iff]. }
  apply Qle_bool_false in H1800.
  right; right; right. split; [exact H1800 | reflexivity].
Qed.

Lemma rounds_above (x c : Q) (b a k : Z) :
  nearest x == x -> (-1022 <= b)%Z ->
  c == inject_Z a * pow2 (b - 52) -> pow2 b <= c ->
  inject_Z (a + 1) * pow2 (b - 52) <= pow2 (b + 1) ->
  inject_Z k < nearest (inject_Z (a + 1) * pow2 (b - 52) / 10) ->
  c < x -> inject_Z k < nearest (x / 10).
Proof.
  intros Hr Hb Hc Hlow Hnext Hk Hx.
  eapply Qlt_le_trans; [exact Hk|]. apply nearest_mono.
  unfold Qdiv. apply Qmult_le_compat_r; [|qcompute].
  destruct (Qlt_le_dec x (pow2 (b + 1))) as [Hup|Hup].
  - apply next_above; try assumption.
    + apply Qlt_le_weak. eapply Qle_lt_trans; eassumption.
    + now rewrite <- Hc.
  - eapply Qle_trans; eassumption.
Qed.

Lemma six_ulps (x : Q) :
  nearest x == x -> 5 * pow2 (-1074) < x -> 6 * pow2 (-1074) <= x.
Proof.
  intros Hr Hmin.
  assert (Hx : 0 < x) by (eapply Qle_lt_trans; [|exact Hmin]; qcompute).
  destruct (Qlt_le_dec x (pow2 (-1022))) as [Hsub|Hnorm].
  - assert (Hb : (binade x < -1022)%Z).
    { apply pow2_lt_inv. eapply Qle_lt_trans; [apply (binade_bounds x Hx)|exact Hsub]. }
    assert (Hu : ulp x = pow2 (-1074)).
    { unfold ulp, exponent. now rewrite Z.max_r by lia. }
    pose proof (next_multiple x 5 Hx Hr) as H. rewrite Hu in H. apply H, Hmin.
  - eapply Qle_trans; [|exact Hnorm]. qcompute.
Qed.

Lemma rows_short (x : Q) :
  nearest x == x -> 5 * pow2 (-1074) < x -> x <= 60 ->
  Qceiling (nearest (x / 10)) = Qceiling (x / 10).
Proof.
  intros Hr Hmin H60.
  assert (Hx : 0 < x) by (eapply Qle_lt_trans; [|exact Hmin]; qcompute).
  pose proof (Qle_ceiling (x / 10)) as Hc1. pose proof (Qceiling_lt (x / 10)) as Hc2.
  remember (Qceiling (x / 10) - 1)%Z as k eqn:Ek.
  assert (Hq : Qceiling (x / 10) = (k + 1)%Z) by lia. clear Ek.
  rewrite Hq in *. replace (k + 1 - 1)%Z with k in Hc2 by lia.
  assert (Ey : x / 10 == x * (1 # 10)) by field. rewrite Ey in Hc1, Hc2.
  assert (Hkx : inject_Z k * 10 < x) by lra.
  assert (Hxk : x <= inject_Z (k + 1) * 10) by lra.
  assert (Hk : (0 <= k <= 5)%Z).
  { split.
    - assert (0 < k + 1)%Z; [|lia]. rewrite Zlt_Qlt. change (inject_Z 0) with 0. lra.
    - assert (k < 6)%Z; [|lia]. rewrite Zlt_Qlt. change (inject_Z 6) with 6. lra. }
  apply Qceiling_unique.
  - assert (Hcases : (k = 0 \/ k = 1 \/ k = 2 \/ k = 3 \/ k = 4 \/ k = 5)%Z) by lia.
    destruct Hcases as [->|[->|[->|[->|[->| ->]]]]].
    + eapply Qlt_le_trans; [|apply nearest_mono; unfold Qdiv;
        apply Qmult_le_compat_r; [apply (six_ulps x Hr Hmin)|qcompute]].
      qcompute.
    + apply (rounds_above x 10 3 (10 * 2 ^ 49) 1 Hr);
        [lia|qcompute|qcompute|qcompute|qcompute|unfold inject_Z in Hkx; lra].
    + apply (rounds_above x 20 4 (20 * 2 ^ 48) 2 Hr);
        [lia|qcompute|qcompute|qcompute|qcompute|unfold inject_Z in Hkx; lra].
    + apply (rounds_above x 30 4 (30 * 2 ^ 48) 3 Hr);
        [lia|qcompute|qcompute|qcompute|qcompute|unfold inject_Z in Hkx; lra].
    + apply (rounds_above x 40 5 (40 * 2 ^ 47) 4 Hr);
        [lia|qcompute|qcompute|qcompute|qcompute|unfold inject_Z in Hkx; lra].
    + apply (rounds_above x 50 5 (50 * 2 ^ 47) 5 Hr);
        [lia|qcompute|qcompute|qcompute|qcompute|unfold inject_Z in Hkx; lra].
  - eapply Qle_trans; [apply nearest_mono; rewrite Ey; exact Hc1|].
    rewrite nearest_Z by lia. apply Qle_refl.
Qed.

Lemma Qceiling_ten (x : Q) : (Qceiling x <= 10 * Qceiling (x / 10))%Z.
Proof.
  apply Qceiling_le. rewrite inject_Z_mult. pose proof (Qle_ceiling (x / 10)) as H.
  assert (Ey : x / 10 == x * (1 # 10)) by field.
  assert (H' : x * (1 # 10) <= inject_Z (Qceiling (x / 10))) by (rewrite <- Ey; exact H).
  change (inject_Z 10) with 10. lra.
Qed.

(** The frame count computed with the rounded rate [f] against the one of
    the exact rate: the same or one less. *)
Lemma frames_bounds (x f y : Q) :
  x * f <= y -> y - x * f <= 1 # 2 -> 2 <= y -> y <= 2251799813685248 ->
  (2 <= Qceiling y)%Z /\
  (Qceiling y - 1 <= Qceiling (nearest (x * f)) <= Qceiling y)%Z.
Proof.
  intros Hle Hnear Hlow Hhigh.
  pose proof (Qle_ceiling y) as Hc1. pose proof (Qceiling_lt y) as Hc2.
  set (n := Qceiling y) in *.
  assert (Hn2 : (2 <= n)%Z).
  { rewrite Zle_Qle. change (inject_Z 2) with 2. lra. }
  assert (Hn : (n <= 2251799813685248)%Z) by (apply Qceiling_le; exact Hhigh).
  split; [exact Hn2|]. split.
  - assert (Hhalf : inject_Z (2 * n - 3) / 2 == inject_Z n - (3 # 2)).
    { unfold Z.sub. rewrite inject_Z_plus, inject_Z_mult.
      change (inject_Z 2) with 2. change (inject_Z (- (3))) with (-3 # 1). field. }
    assert (Hm : inject_Z (n - 1) == inject_Z n - 1).
    { unfold Z.sub. rewrite inject_Z_plus. reflexivity. }
    assert (H : inject_Z (n - 2) < nearest (x * f)).
    { apply Qlt_le_trans with (inject_Z (2 * n - 3) / 2).
      - rewrite Hhalf. unfold Z.sub. rewrite inject_Z_plus.
        change (inject_Z (- (2))) with (-2 # 1). lra.
      - rewrite <- (nearest_half (2 * n - 3)) by lia. apply nearest_mono.
        rewrite Hhalf. rewrite Hm in Hc2. lra. }
    apply Qceiling_gt in H. lia.
  - apply Qceiling_le. apply Qle_trans with (nearest (inject_Z n)).
    + apply nearest_mono. lra.
    + rewrite nearest_Z by lia. apply Qle_refl.
Qed.

(** The product, the ceiling, the minimum and the quotient that end
    [generateSpriteSheet]'s arithmetic, for a rate [f] of at most 1 and a
    grid of [cap] tiles. *)
Lemma total_and_interval (x f capQ : Q) (cap : Z) :
  nearest x == x -> x < pow2 1024 -> 0 < x -> 0 <= f -> f <= 1 ->
  capQ == inject_Z cap ->
  (1 <= Z.min (Qceiling (nearest (x * f))) cap)%Z ->
  exists m step,
    Math_min (Math_ceil (mul (Finite false x) (Finite false f))) (Finite false capQ) =
      Finite false m /\
    m == inject_Z (Z.min (Qceiling (nearest (x * f))) cap) /\
    div (Finite false x) (Finite false m) = Finite false step /\
    step == nearest (x / inject_Z (Z.min (Qceiling (nearest (x * f))) cap)).
Proof.
  intros Hr Hmax Hx Hf0 Hf1 Hcap Hone.
  assert (Hxf : x * f <= x).
  { rewrite <- (Qmult_1_r x) at 2. apply Qmult_le_l; assumption. }
  cbn [mul xorb]. rewrite (round_below false (x * f) x Hxf Hr Hmax). cbn [Math_ceil].
  destruct (Math_min_integers (inject_Z (Qceiling (nearest (x * f)))) capQ
              (Qceiling (nearest (x * f))) cap (Qeq_refl _) Hcap) as (m & Em & Hm).
  set (frames := Z.min (Qceiling (nearest (x * f))) cap) in *.
  assert (Hm1 : 1 <= m).
  { rewrite Hm. change 1 with (inject_Z 1). now rewrite <- Zle_Qle. }
  exists m, (nearest (x / m)). split; [exact Em|]. split; [exact Hm|]. split.
  - cbn [div xorb]. destruct (Qeq_bool m 0) eqn:E0.
    { apply Qeq_bool_iff in E0. exfalso. lra. }
    apply (round_below false (x / m) x); [|exact Hr|exact Hmax].
    apply Qle_shift_div_r; [lra|]. rewrite <- (Qmult_1_r x) at 1.
    apply Qmult_le_l; assumption.
  - apply nearest_comp. now rewrite Hm.
Qed.


Lemma Math_min_left (x y : Q) :
  x <= y -> Math_min (Finite false x) (Finite false y) = Finite false x.
Proof.
  intros H. unfold Math_min, leb, value. cbn [orb].
  destruct (Qeq_bool x y); [reflexivity|].
  apply Qle_bool_iff in H. now rewrite H.
Qed.

Lemma Qceiling_eq (a b : Q) : a == b -> Qceiling a = Qceiling b.
Proof. intros H. now apply Qceiling_comp. Qed.

Lemma ceiling_of_rounded (d x f : Q) :
  x == d -> Qceiling (nearest (x * f)) = Qceiling (nearest (d * f)).
Proof. intros E. apply Qceiling_comp, nearest_comp. now rewrite E. Qed.

Lemma long_tier (d x f i : Q) (cols cap : Z) :
  x == d -> nearest x == x -> x < pow2 1024 -> 0 < x ->
  spriteTier (Finite false x) = (Finite false f, cols, Finite false 10) ->
  mul (ofZ cols) (Finite false 10) = Finite false (inject_Z cap) ->
  0 <= f -> f <= 1 -> cap = (cols * 10)%Z ->
  (Z.min (Qceiling (x / i)) cap - 1 <= Z.min (Qceiling (nearest (x * f))) cap
     <= Z.min (Qceiling (x / i)) cap)%Z ->
  (1 <= Z.min (Qceiling (nearest (x * f))) cap)%Z ->
  exists (frames : Z) (step : Q),
    isInteger (spriteRows (Finite false x)) 10 /\
    isInteger (spriteTotalFrames (Finite false x)) frames /\
    spriteInterval (Finite false x) = Finite false step /\
    spriteColumns (Finite false x) = cols /\
    spriteFps (Finite false x) = Finite false f /\
    frames = Z.min (Qceiling (nearest (d * toQ (spriteFps (Finite false x)))))
                   (cols * 10) /\
    (Z.min (Qceiling (d / i)) (cols * 10) - 1 <= frames
       <= Z.min (Qceiling (d / i)) (cols * 10))%Z /\
    (1 <= frames)%Z /\
    step == nearest (d / inject_Z frames).
Proof.
  intros E Hr Hmax Hx Htier Hgrid Hf0 Hf1 Hcap Hbounds Hone.
  destruct (total_and_interval x f (inject_Z cap) cap Hr Hmax Hx Hf0 Hf1 (Qeq_refl _) Hone)
    as (m & step & Em & Hm & Estep & Hstep).
  exists (Z.min (Qceiling (nearest (x * f))) cap), step.
  unfold spriteInterval, spriteTotalFrames, spriteRows, spriteColumns, spriteFps.
  rewrite Htier. cbn [fst snd]. rewrite Hgrid, Em.
  split; [exists false, 10; split; reflexivity|].
  split; [exists false, m; split; [reflexivity|exact Hm]|].
  split; [exact Estep|]. split; [reflexivity|]. split; [reflexivity|].
  cbn [toQ value]. rewrite <- Hcap.
  split; [now rewrite (ceiling_of_rounded d x f E)|].
  split.
  { replace (Qceiling (d / i)) with (Qceiling (x / i)); [exact Hbounds|].
    apply Qceiling_eq. now rewrite E. }
  split; [exact Hone|].
  rewrite Hstep. apply nearest_comp, Qdiv_comp; [exact E|reflexivity].
Qed.


Lemma medium_bounds (x : Q) :
  60 < x -> x <= 300 ->
  (Z.min (Qceiling (x / 3)) 100 - 1 <=
     Z.min (Qceiling (nearest (x * (6004799503160661 # 18014398509481984)))) 100 <=
     Z.min (Qceiling (x / 3)) 100)%Z /\
  (1 <= Z.min (Qceiling (nearest (x * (6004799503160661 # 18014398509481984)))) 100)%Z.
Proof.
  intros Hlow Hhigh.
  assert (Ey : x / 3 == x * (1 # 3)) by field.
  destruct (frames_bounds x (6004799503160661 # 18014398509481984) (x / 3)) as [H2 H];
    [rewrite Ey; lra..|].
  lia.
Qed.

Lemma long_bounds (x : Q) :
  300 < x -> x <= 1800 ->
  (Z.min (Qceiling (x / 12)) 150 - 1 <=
     Z.min (Qceiling (nearest (x * (6004799503160661 # 72057594037927936)))) 150 <=
     Z.min (Qceiling (x / 12)) 150)%Z /\
  (1 <= Z.min (Qceiling (nearest (x * (6004799503160661 # 72057594037927936)))) 150)%Z.
Proof.
  intros Hlow Hhigh.
  assert (Ey : x / 12 == x * (1 # 12)) by field.
  destruct (frames_bounds x (6004799503160661 # 72057594037927936) (x / 12)) as [H2 H];
    [rewrite Ey; lra..|].
  lia.
Qed.

Lemma huge_bounds (x : Q) :
  1800 < x ->
  (Z.min (Qceiling (x / 30)) 200 - 1 <=
     Z.min (Qceiling (nearest (x * (4803839602528529 # 144115188075855872)))) 200 <=
     Z.min (Qceiling (x / 30)) 200)%Z /\
  (1 <= Z.min (Qceiling (nearest (x * (4803839602528529 # 144115188075855872)))) 200)%Z.
Proof.
  intros Hlow.
  assert (Ey : x / 30 == x * (1 # 30)) by field.
  destruct (Qlt_le_dec 2147483648 x) as [Hbig|Hsmall].
  - assert (H1 : (200 <= Qceiling (x / 30))%Z).
    { rewrite <- (Qceiling_Z 200). apply Qceiling_resp_le. rewrite Ey.
      change (inject_Z 200) with 200. lra. }
    assert (H2 : (200 <=
              Qceiling (nearest (x * (4803839602528529 # 144115188075855872))))%Z).
    { rewrite <- (Qceiling_Z 200). apply Qceiling_resp_le.
      rewrite <- (nearest_Z 200) by lia. apply nearest_mono.
      change (inject_Z 200) with 200. lra. }
    lia.
  - destruct (frames_bounds x (4803839602528529 # 144115188075855872) (x / 30)) as [H2 H];
      [rewrite Ey; lra..|].
    lia.
Qed.

Lemma short_tier (d x : Q) :
  x == d -> nearest x == x -> x < pow2 1024 -> 5 * pow2 (-1074) < x -> x <= 60 ->
  spriteTier (Finite false x) =
    (Finite false 1, 10%Z,
     Math_ceil (div (Math_min (Finite false x) (Finite false 60)) (Finite false 10))) ->
  exists (frames : Z) (step : Q),
    isInteger (spriteRows (Finite false x)) (Qceiling (Qmin d 60 / 10)) /\
    isInteger (spriteTotalFrames (Finite false x)) frames /\
    spriteInterval (Finite false x) = Finite false step /\
    spriteColumns (Finite false x) = 10%Z /\
    spriteFps (Finite false x) = Finite false 1 /\
    frames = Z.min (Qceiling (nearest (d * toQ (spriteFps (Finite false x)))))
                   (10 * Qceiling (Qmin d 60 / 10)) /\
    frames = Z.min (Qceiling (d / 1)) (10 * Qceiling (Qmin d 60 / 10)) /\
    frames = Qceiling d /\
    (1 <= frames)%Z /\
    step == nearest (d / inject_Z frames).
Proof.
  intros E Hr Hmax Hmin H60 Htier.
  assert (Hx : 0 < x) by (eapply Qle_lt_trans; [|exact Hmin]; qcompute).
  set (r := Qceiling (x / 10)).
  assert (Hrd : Qceiling (Qmin d 60 / 10) = r).
  { apply Qceiling_eq. rewrite Q.min_l by (rewrite <- E; exact H60).
    apply Qdiv_comp; [now symmetry|reflexivity]. }
  assert (Ey : x / 10 == x * (1 # 10)) by field.
  assert (Hr1 : (1 <= r <= 6)%Z).
  { split.
    - apply Qceiling_pos. rewrite Ey. lra.
    - apply Qceiling_le. rewrite Ey. change (inject_Z 6) with 6. lra. }
  assert (Erow : Math_ceil (div (Math_min (Finite false x) (Finite false 60))
                                (Finite false 10)) = Finite false (inject_Z r)).
  { rewrite (Math_min_left x 60 H60). cbn [div xorb].
    change (Qeq_bool 10 0) with false. cbn iota.
    rewrite (round_below false (x / 10) x); [|rewrite Ey; lra|exact Hr|exact Hmax].
    cbn [Math_ceil]. now rewrite (rows_short x Hr Hmin H60). }
  assert (Hcap : nearest (10 * inject_Z r) == inject_Z (10 * r)).
  { rewrite <- (nearest_Z (10 * r)) by lia. apply nearest_comp.
    now rewrite inject_Z_mult. }
  assert (Egrid : mul (ofZ 10) (Finite false (inject_Z r)) =
                  Finite false (nearest (10 * inject_Z r))).
  { destruct literals as (_ & _ & L10 & _). rewrite L10. cbn [mul xorb].
    apply round_finite. rewrite Hcap.
    apply Qle_lt_trans with 60; [|qcompute].
    change 60 with (inject_Z 60). rewrite <- Zle_Qle. lia. }
  assert (Hc : Qceiling (nearest (x * 1)) = Qceiling x).
  { apply Qceiling_eq. rewrite <- Hr at 2. apply nearest_comp. ring. }
  assert (Hframes : Z.min (Qceiling (nearest (x * 1))) (10 * r) = Qceiling x).
  { rewrite Hc. apply Z.min_l. apply Qceiling_ten. }
  assert (Hcx : (1 <= Qceiling x)%Z) by (apply Qceiling_pos; exact Hx).
  assert (Hxd : Qceiling x = Qceiling d) by (apply Qceiling_eq; exact E).
  destruct (total_and_interval x 1 (nearest (10 * inject_Z r)) (10 * r) Hr Hmax Hx)
    as (m & step & Em & Hm & Estep & Hstep);
    [discriminate|apply Qle_refl|exact Hcap|lia|].
  exists (Qceiling x), step.
  unfold spriteInterval, spriteTotalFrames, spriteRows, spriteColumns, spriteFps.
  rewrite Htier. cbn [fst snd]. rewrite Erow, Egrid, Em, Hrd. rewrite Hframes in Hm, Hstep.
  split; [exists false, (inject_Z r); split; reflexivity|].
  split; [exists false, m; split; [reflexivity|exact Hm]|].
  split; [exact Estep|]. split; [reflexivity|]. split; [reflexivity|].
  cbn [toQ value].
  split; [now rewrite <- (ceiling_of_rounded d x 1 E)|].
  split.
  { replace (Qceiling (d / 1)) with (Qceiling x);
      [symmetry; apply Z.min_l, Qceiling_ten|].
    apply Qceiling_eq. rewrite E. field. }
  split; [exact Hxd|]. split; [exact Hcx|].
  rewrite Hstep. apply nearest_comp, Qdiv_comp; [exact E|reflexivity].
Qed.


Lemma ofQ_double (d : Q) :
  0 < d -> representable d ->
  ofQ d = Finite false (nearest d) /\ nearest (nearest d) == nearest d /\
  nearest d == d /\ nearest d < pow2 1024.
Proof.
  intros Hd [Hrep Hmax]. destruct d as [[|n|n] p];
    [exfalso; unfold Qlt in Hd; cbn in Hd; lia| |exfalso; unfold Qlt in Hd; cbn in Hd; lia].
  change (Qabs (Z.pos n # p)) with (Z.pos n # p) in Hrep, Hmax.
  split; [|split; [|split]].
  - unfold ofQ. change (Qabs (Z.pos n # p)) with (Z.pos n # p).
    change (Qnum (Z.pos n # p) <? 0)%Z with false.
    apply round_finite. now rewrite Hrep.
  - now apply nearest_comp.
  - exact Hrep.
  - now rewrite Hrep.
Qed.

(** C1. For every duration that is a double above 5 * 2^-1074, the layout
    computed by [generateSpriteSheet] has the columns and rows of the tier
    table: at most 60 s gives 10 columns and ceil(min(d,60)/10) rows at one
    frame a second; up to 300 s a 10 x 10 grid; up to 1800 s a 15 x 10
    grid; beyond that a 20 x 10 grid. The frame rate of the last three is
    the double nearest 1/3, 1/12 and 1/30, not that fraction, and the
    frame count is min(ceil(fl(d * fps)), columns*rows), [fl] rounding to
    the nearest double: it is min(ceil(d/interval), columns*rows) or one
    less, the former whenever d <= 60, and at least one. The reported
    interval is the double nearest d/totalFrames. The configuration is
    returned whenever ffmpeg exits with code 0 and the sheet exists, and no
    run returns another one. At 30 s: interval 1, 10 x 3, 30 frames; at
    120 s: interval 3, 10 x 10 with 40 frames, at most 100; at 3600 s:
    20 x 10 with 120 frames, at most 200. *)
Theorem sprite_layout_follows_tier_table :
  (forall d : Q,
     Double.representable d -> 5 * Double.pow2 (-1074) < d ->
     exists (cfg : SpriteConfig) (tierInterval : Q) (rowCount frames : Z) (step : Q),
       generateSpriteSheet d (Closed 0 true) = Ok cfg /\
       (forall run cfg', generateSpriteSheet d run = Ok cfg' -> cfg' = cfg) /\
       TierTable d tierInterval (columns cfg) rowCount /\
       Double.isInteger (rows cfg) rowCount /\
       spriteFps (Double.ofQ d) = Double.div (Double.ofZ 1) (Double.ofQ tierInterval) /\
       Double.isInteger (totalFrames cfg) frames /\
       frames =
         Z.min (Qceiling (Double.nearest (d * Double.toQ (spriteFps (Double.ofQ d)))))
               (columns cfg * rowCount) /\
       (Z.min (Qceiling (d / tierInterval)) (columns cfg * rowCount) - 1 <= frames
          <= Z.min (Qceiling (d / tierInterval)) (columns cfg * rowCount))%Z /\
       (d <= 60 ->
        frames = Z.min (Qceiling (d / tierInterval)) (columns cfg * rowCount)) /\
       (1 <= frames)%Z /\
       interval cfg = Double.Finite false step /\
       step == Double.nearest (d / inject_Z frames)) /\
  (exists cfg, generateSpriteSheet 30 (Closed 0 true) = Ok cfg /\
     interval cfg = Double.ofZ 1 /\ columns cfg = 10%Z /\ rows cfg = Double.ofZ 3 /\
     totalFrames cfg = Double.ofZ 30) /\
  (exists cfg, generateSpriteSheet 120 (Closed 0 true) = Ok cfg /\
     spriteFps (Double.ofQ 120) = Double.div (Double.ofZ 1) (Double.ofZ 3) /\
     interval cfg = Double.ofZ 3 /\ columns cfg = 10%Z /\ rows cfg = Double.ofZ 10 /\
     totalFrames cfg = Double.ofZ 40 /\
     Double.leb (totalFrames cfg) (Double.ofZ 100) = true) /\
  (exists cfg, generateSpriteSheet 3600 (Closed 0 true) = Ok cfg /\
     spriteFps (Double.ofQ 3600) = Double.div (Double.ofZ 1) (Double.ofZ 30) /\
     columns cfg = 20%Z /\ rows cfg = Double.ofZ 10 /\
     totalFrames cfg = Double.ofZ 120 /\
     Double.leb (totalFrames cfg) (Double.ofZ 200) = true).
Proof.
  split; [|repeat split].
  - intros d Hdouble Hmin.
    assert (Hd : 0 < d) by (eapply Qle_lt_trans; [|exact Hmin]; qcompute).
    destruct (ofQ_double d Hd Hdouble) as (Eof & Hr & E & Hmax).
    set (x := nearest d) in *.
    assert (Hmin' : 5 * pow2 (-1074) < x) by (now rewrite E).
    assert (Hx : 0 < x) by (now rewrite E).
    exists (spriteLayout (ofQ d)).
    assert (Hrun : forall run cfg',
              generateSpriteSheet d run = Ok cfg' -> cfg' = spriteLayout (ofQ d)).
    { intros run cfg' H. destruct run as [code ex|m]; simpl in H; [|discriminate].
      destruct (negb (code =? 0)%Z); [discriminate|].
      destruct (negb ex); [discriminate|]. now inversion H. }
    assert (Hok : generateSpriteSheet d (Closed 0 true) = Ok (spriteLayout (ofQ d)))
      by reflexivity.
    rewrite Eof in Hok, Hrun |- *.
    cbn [spriteLayout columns rows totalFrames interval].
    destruct (spriteTier_cases x) as [[H Et]|[(H & H' & Et)|[(H & H' & Et)|[H Et]]]].
    + destruct (short_tier d x E Hr Hmax Hmin' H Et)
        as (frames & step & Hrows & Htotal & Hint & Hcols & Hfps & Hf & HN & Hc & H1 & Hs).
      exists 1, (Qceiling (Qmin d 60 / 10)), frames, step. rewrite Hcols.
      split; [exact Hok|]. split; [exact Hrun|].
      split; [apply tier_short; now rewrite <- E|]. split; [exact Hrows|].
      split; [rewrite Hfps; qcompute|]. split; [exact Htotal|]. split; [exact Hf|].
      split; [lia|]. split; [intros _; exact HN|]. split; [exact H1|].
      split; [exact Hint|exact Hs].
    + destruct (medium_bounds x H H') as [Hb H1].
      destruct (long_tier d x _ 3 10 100 E Hr Hmax Hx Et (proj1 grids))
        as (frames & step & Hrows & Htotal & Hint & Hcols & Hfps & Hf & HN & H1' & Hs);
        [qcompute|qcompute|reflexivity|exact Hb|exact H1|].
      exists 3, 10%Z, frames, step. rewrite Hcols.
      split; [exact Hok|]. split; [exact Hrun|].
      split; [apply tier_medium; now rewrite <- E|]. split; [exact Hrows|].
      split; [rewrite Hfps; qcompute|]. split; [exact Htotal|]. split; [exact Hf|].
      split; [exact HN|]. split; [intros Hle; exfalso; rewrite <- E in Hle; lra|].
      split; [exact H1'|]. split; [exact Hint|exact Hs].
    + destruct (long_bounds x H H') as [Hb H1].
      destruct (long_tier d x _ 12 15 150 E Hr Hmax Hx Et (proj1 (proj2 grids)))
        as (frames & step & Hrows & Htotal & Hint & Hcols & Hfps & Hf & HN & H1' & Hs);
        [qcompute|qcompute|reflexivity|exact Hb|exact H1|].
      exists 12, 10%Z, frames, step. rewrite Hcols.
      split; [exact Hok|]. split; [exact Hrun|].
      split; [apply tier_long; now rewrite <- E|]. split; [exact Hrows|].
      split; [rewrite Hfps; qcompute|]. split; [exact Htotal|]. split; [exact Hf|].
      split; [exact HN|]. split; [intros Hle; exfalso; rewrite <- E in Hle; lra|].
      split; [exact H1'|]. split; [exact Hint|exact Hs].
    + destruct (huge_bounds x H) as [Hb H1].
      destruct (long_tier d x _ 30 20 200 E Hr Hmax Hx Et (proj2 (proj2 grids)))
        as (frames & step & Hrows & Htotal & Hint & Hcols & Hfps & Hf & HN & H1' & Hs);
        [qcompute|qcompute|reflexivity|exact Hb|exact H1|].
      exists 30, 10%Z, frames, step. rewrite Hcols.
      split; [exact Hok|]. split; [exact Hrun|].
      split; [apply tier_huge; now rewrite <- E|]. split; [exact Hrows|].
      split; [rewrite Hfps; qcompute|]. split; [exact Htotal|]. split; [exact Hf|].
      split; [exact HN|]. split; [intros Hle; exfalso; rewrite <- E in Hle; lra|].
      split; [exact H1'|]. split; [exact Hint|exact Hs].
  - eexists. split; [reflexivity|]. vm_compute. repeat split.
  - eexists. split; [reflexivity|]. vm_compute. repeat split.
  - eexists. split; [reflexivity|]. vm_compute. repeat split.
Qed.

Lemma sprite_layout_follows_tier_table_witness :
  Double.representable Examples.justAbove63 /\
  5 * Double.pow2 (-1074) < Examples.justAbove63 /\
  exists (cfg : SpriteConfig) (tierInterval : Q) (rowCount frames : Z) (step : Q),
    generateSpriteSheet Examples.justAbove63 (Closed 0 true) = Ok cfg /\
    (forall run cfg', generateSpriteSheet Examples.justAbove63 run = Ok cfg' -> cfg' = cfg) /\
    TierTable Examples.justAbove63 tierInterval (columns cfg) rowCount /\
    Double.isInteger (rows cfg) rowCount /\
    spriteFps (Double.ofQ Examples.justAbove63) = Double.div (Double.ofZ 1) (Double.ofQ tierInterval) /\
    Double.isInteger (totalFrames cfg) frames /\
    frames =
      Z.min (Qceiling (Double.nearest (Examples.justAbove63 * Double.toQ (spriteFps (Double.ofQ Examples.justAbove63)))))
            (columns cfg * rowCount) /\
    (Z.min (Qceiling (Examples.justAbove63 / tierInterval)) (columns cfg * rowCount) - 1 <= frames
       <= Z.min (Qceiling (Examples.justAbove63 / tierInterval)) (columns cfg * rowCount))%Z /\
    (Examples.justAbove63 <= 60 ->
     frames = Z.min (Qceiling (Examples.justAbove63 / tierInterval)) (columns cfg * rowCount)) /\
    (1 <= frames)%Z /\
    interval cfg = Double.Finite false step /\
    step == Double.nearest (Examples.justAbove63 / inject_Z frames).
Proof.
  assert (R : Double.representable Examples.justAbove63) by (split; vm_compute; reflexivity).
  assert (L : 5 * Double.pow2 (-1074) < Examples.justAbove63) by (vm_compute; reflexivity).
  split; [exact R|]. split; [exact L|].
  exact (proj1 sprite_layout_follows_tier_table Examples.justAbove63 R L).
Defined.

(** C1, where the claim fails. At 63.00000000000001 s, a double of the
    second tier, d/3 is above 21 and the claimed frame count
    min(ceil(d/3), 100) is 22, but the product of d and the double nearest
    1/3 rounds to 21, and the code reports 21 frames. At the least positive
    double the quotient d/10 rounds to zero: the code computes 0 rows and 0
    frames, and the interval d/0 is infinite, where the claim has
    ceil(d/10) = 1 row. *)
Lemma sprite_frames_fall_short_of_ceiling :
  Double.representable Examples.justAbove63 /\
  60 < Examples.justAbove63 /\ Examples.justAbove63 <= 300 /\
  (exists cfg,
     generateSpriteSheet Examples.justAbove63 (Closed 0 true) = Ok cfg /\
     columns cfg = 10%Z /\ rows cfg = Double.ofZ 10 /\
     totalFrames cfg = Double.ofZ 21) /\
  Z.min (Qceiling (Examples.justAbove63 / 3)) (10 * 10) = 22%Z /\
  Double.representable Examples.leastDouble /\
  0 < Examples.leastDouble /\
  (exists cfg,
     generateSpriteSheet Examples.leastDouble (Closed 0 true) = Ok cfg /\
     columns cfg = 10%Z /\ rows cfg = Double.ofZ 0 /\
     totalFrames cfg = Double.ofZ 0 /\ interval cfg = Double.Infinite false) /\
  Qceiling (Qmin Examples.leastDouble 60 / 10) = 1%Z.
Proof.
  split; [split; vm_compute; reflexivity|].
  split; [vm_compute; reflexivity|]. split; [vm_compute; discriminate|].
  split; [eexists; split; [reflexivity|]; vm_compute; repeat split|].
  split; [vm_compute; reflexivity|].
  split; [split; vm_compute; reflexivity|].
  split; [vm_compute; reflexivity|].
  split; [eexists; split; [reflexivity|]; vm_compute; repeat split|].
  vm_compute. reflexivity.
Qed.


(** *** [parseFrameRate] *)

Lemma includes_slash (n d : string) : JS.includes (n ++ String "/" d)%string "/" = true.
Proof.
  unfold JS.includes. induction n as [|c n IH].
  - destruct d; reflexivity.
  - change (String c n ++ String "/" d)%string with (String c (n ++ String "/" d)).
    remember (n ++ String "/" d)%string as t eqn:Et.
    assert (E : String.index 0 "/" (String c t) =
                if String.prefix "/" (String c t) then Some 0%nat
                else match String.index 0 "/" t with
                     | Some k => Some (S k)
                     | None => None
                     end) by reflexivity.
    rewrite E. destruct (String.prefix "/" (String c t)); [reflexivity|].
    destruct (String.index 0 "/" t); [reflexivity|discriminate].
Qed.


Lemma split_noSlash (s : string) : noSlash s = true -> JS.split "/" s = [s].
Proof.
  induction s as [|c s IH]; simpl; [reflexivity|].
  intros H. apply andb_true_iff in H. destruct H as [Hc Hs].
  apply negb_true_iff in Hc. rewrite Hc, (IH Hs). reflexivity.
Qed.

Lemma split_slash (n d : string) :
  noSlash n = true -> JS.split "/" (n ++ String "/" d)%string = n :: JS.split "/" d.
Proof.
  induction n as [|c n IH]; simpl; [reflexivity|].
  intros H. apply andb_true_iff in H. destruct H as [Hc Hn].
  apply negb_true_iff in Hc. rewrite Hc, (IH Hn). reflexivity.
Qed.

(** A rate written [n/d], neither side holding a slash, parses to the
    quotient of [Number(n)] by [Number(d)] when the latter is truthy, and to
    30 otherwise; the numerator is not examined. *)
Lemma parseFrameRate_rational (n d : string) :
  noSlash n = true -> noSlash d = true ->
  parseFrameRate (Some (n ++ String "/" d)%string) =
    if JS.truthy (JS.Number d) then JS.divide (JS.Number n) (JS.Number d)
    else JS.Finite 30.
Proof.
  intros Hn Hd. unfold parseFrameRate.
  destruct (n ++ String "/" d)%string eqn:E.
  { destruct n; discriminate. }
  rewrite <- E. rewrite includes_slash, (split_slash n d Hn), (split_noSlash d Hd).
  reflexivity.
Qed.

(** C6. [parseFrameRate] does not return 30 for every malformed input: a
    rate whose numerator is not a number and whose denominator is a
    non-zero number yields NaN, as for ["abc/2"]. The rest of the claim
    holds: an absent or empty rate gives 30, as do a zero or non-numeric
    denominator and a text without slash that does not start with a
    number; ["30000/1001"] gives 30000/1001. *)
Theorem parseFrameRate_nan_numerator :
  parseFrameRate (Some "abc/2") = JS.NaN /\
  (forall n d : string,
     noSlash n = true -> noSlash d = true ->
     JS.Number n = JS.NaN -> JS.truthy (JS.Number d) = true ->
     parseFrameRate (Some (n ++ String "/" d)%string) = JS.NaN) /\
  (forall n d : string,
     noSlash n = true -> noSlash d = true ->
     JS.truthy (JS.Number d) = false ->
     parseFrameRate (Some (n ++ String "/" d)%string) = JS.Finite 30) /\
  parseFrameRate None = JS.Finite 30 /\
  parseFrameRate (Some "") = JS.Finite 30 /\
  parseFrameRate (Some "30000/1001") = JS.Finite (30000 # 1001) /\
  parseFrameRate (Some "25/0") = JS.Finite 30 /\
  parseFrameRate (Some "25/abc") = JS.Finite 30 /\
  parseFrameRate (Some "abc") = JS.Finite 30.
Proof.
  split; [reflexivity|]. split.
  { intros n d Hn Hd Hnan Ht. rewrite (parseFrameRate_rational n d Hn Hd), Ht, Hnan.
    reflexivity. }
  split.
  { intros n d Hn Hd Ht. rewrite (parseFrameRate_rational n d Hn Hd), Ht. reflexivity. }
  repeat split; reflexivity.
Qed.

Lemma parseFrameRate_nan_numerator_witness :
  parseFrameRate (Some ("n.a." ++ String "/" "1001")%string) = JS.NaN.
Proof.
  apply (proj1 (proj2 parseFrameRate_nan_numerator) "n.a." "1001"); reflexivity.
Defined.

End FfmpegFacts.

(** ** The record key and the upsert *)

Module DbFacts.
Import Db.

Local Open Scope string_scope.
Local Open Scope Z_scope.

Lemma find_filter_none {A} (f g : A -> bool) (l : list A) :
  (forall x, f x = true -> g x = false) -> find f (filter g l) = None.
Proof.
  intros H. induction l as [|x l IH]; simpl; [reflexivity|].
  destruct (g x) eqn:Hg; [|exact IH].
  simpl. destruct (f x) eqn:Hf; [|exact IH].
  apply H in Hf. congruence.
Qed.

Lemma find_app_none {A} (f : A -> bool) (l l' : list A) :
  find f l = None -> find f (l ++ l') = find f l'.
Proof.
  induction l as [|x l IH]; simpl; [reflexivity|].
  destruct (f x); [discriminate|exact IH].
Qed.

Lemma find_map_update {A} (key : A -> bool) (upd : A -> bool) (g : A -> A) (l : list A) :
  (forall x, key (g x) = key x) ->
  find key (map (fun x => if upd x then g x else x) l) =
  option_map (fun x => if upd x then g x else x) (find key l).
Proof.
  intros Hkey. induction l as [|x l IH]; simpl; [reflexivity|].
  destruct (upd x) eqn:Hu.
  - rewrite Hkey. destruct (key x); simpl; [now rewrite Hu|exact IH].
  - destruct (key x); simpl; [now rewrite Hu|exact IH].
Qed.

Lemma ToInt32_range (x : Z) : - 2 ^ 31 <= JS.ToInt32 x < 2 ^ 31.
Proof.
  unfold JS.ToInt32. cbv zeta.
  pose proof (Z.mod_pos_bound x (2 ^ 32) ltac:(lia)) as Hm.
  destruct (2 ^ 31 <=? x mod 2 ^ 32) eqn:E.
  - apply Z.leb_le in E. lia.
  - apply Z.leb_gt in E. lia.
Qed.

Lemma bitAnd_diag (x : Z) : JS.bitAnd x x = JS.ToInt32 x.
Proof. unfold JS.bitAnd. apply Z.land_diag. Qed.

(** The loop of [generateId] is the polynomial hash of multiplier 31,
    wrapped to 32 bits at each step. *)
Lemma generateIdHash_step (hash : Z) (c : ascii) :
  - 2 ^ 31 <= hash < 2 ^ 31 ->
  JS.bitAnd (JS.shiftLeft hash 5 - hash + JS.charCodeAt c)
            (JS.shiftLeft hash 5 - hash + JS.charCodeAt c) =
  JS.ToInt32 (31 * hash + JS.charCodeAt c).
Proof.
  intros Hh. rewrite bitAnd_diag. unfold JS.shiftLeft.
  change (5 mod 32) with 5. rewrite Z.shiftl_mul_pow2 by lia.
  set (k := JS.charCodeAt c).
  unfold JS.ToInt32 at 2 3. cbv zeta.
  assert (E : (hash mod 2 ^ 32 =? hash) || (hash mod 2 ^ 32 =? hash + 2 ^ 32) = true).
  { destruct (Z_lt_ge_dec hash 0).
    - replace (hash mod 2 ^ 32) with (hash + 2 ^ 32).
      + rewrite Z.eqb_refl. apply orb_true_r.
      + apply Z.mod_unique with (q := -1); lia.
    - rewrite Z.mod_small by lia. now rewrite Z.eqb_refl. }
  assert (Hsame : forall a b : Z, (a - b) mod 2 ^ 32 = 0 -> JS.ToInt32 a = JS.ToInt32 b).
  { intros a b Hab. unfold JS.ToInt32. cbv zeta.
    replace (a mod 2 ^ 32) with (b mod 2 ^ 32); [reflexivity|].
    apply Z.mod_divide in Hab; [|lia]. destruct Hab as [q Hq].
    replace a with (b + q * 2 ^ 32) by lia. now rewrite Z.mod_add by lia. }
  apply Hsame.
  set (t := (if 2 ^ 31 <=? hash mod 2 ^ 32 then hash mod 2 ^ 32 - 2 ^ 32
             else hash mod 2 ^ 32)).
  assert (Ht : t = hash).
  { subst t. apply orb_true_iff in E. destruct E as [E|E]; apply Z.eqb_eq in E; rewrite E.
    - destruct (2 ^ 31 <=? hash) eqn:L; [apply Z.leb_le in L; lia|reflexivity].
    - destruct (2 ^ 31 <=? hash + 2 ^ 32) eqn:L; [lia|apply Z.leb_gt in L; lia]. }
  rewrite Ht.
  pose proof (ToInt32_range (hash * 2 ^ 5)) as _.
  unfold JS.ToInt32. cbv zeta.
  destruct (2 ^ 31 <=? (hash * 2 ^ 5) mod 2 ^ 32).
  - replace ((hash * 2 ^ 5) mod 2 ^ 32 - 2 ^ 32 - hash + k - (31 * hash + k))
      with ((hash * 2 ^ 5) mod 2 ^ 32 - hash * 2 ^ 5 + (-1) * 2 ^ 32) by lia.
    rewrite Z.mod_add by lia.
    rewrite Zminus_mod, Z.mod_mod by lia. rewrite Z.sub_diag. reflexivity.
  - replace ((hash * 2 ^ 5) mod 2 ^ 32 - hash + k - (31 * hash + k))
      with ((hash * 2 ^ 5) mod 2 ^ 32 - hash * 2 ^ 5) by lia.
    rewrite Zminus_mod, Z.mod_mod by lia. rewrite Z.sub_diag. reflexivity.
Qed.

Lemma generateIdHash_range (filePath : string) :
  - 2 ^ 31 <= generateIdHash filePath < 2 ^ 31.
Proof.
  unfold generateIdHash.
  assert (H : forall l h, - 2 ^ 31 <= h < 2 ^ 31 ->
    - 2 ^ 31 <= fold_left
      (fun hash c =>
         let hash := (JS.shiftLeft hash 5 - hash) + JS.charCodeAt c in
         JS.bitAnd hash hash) l h < 2 ^ 31).
  { induction l as [|c l IH]; intros h Hh; simpl; [exact Hh|].
    apply IH. rewrite bitAnd_diag. apply ToInt32_range. }
  apply H. lia.
Qed.

Lemma find_id_insert (scannedAt : string) (video : VideoInsertData) (db : Database) :
  find (fun row => String.eqb (VideoRow.id row) (generateId (filePath video)))
       (videos (fst (insertVideo scannedAt video db))) =
  Some (insertedRow (generateId (filePath video)) scannedAt video).
Proof.
  unfold insertVideo, insertOrReplaceVideo. simpl.
  rewrite find_app_none.
  - simpl. now rewrite String.eqb_refl.
  - apply find_filter_none. intros r Hr. now rewrite Hr.
Qed.

Lemma find_path_insert (scannedAt : string) (video : VideoInsertData) (db : Database) :
  find (fun row => String.eqb (VideoRow.file_path row) (filePath video))
       (videos (fst (insertVideo scannedAt video db))) =
  Some (insertedRow (generateId (filePath video)) scannedAt video).
Proof.
  unfold insertVideo, insertOrReplaceVideo. simpl.
  rewrite find_app_none.
  - simpl. now rewrite String.eqb_refl.
  - apply find_filter_none. intros r Hr. rewrite Hr. now rewrite orb_true_r.
Qed.

Lemma getVideoById_insert (scannedAt : string) (video : VideoInsertData) (db : Database) :
  snd (insertVideo scannedAt video db) =
  Some (Types.rowToVideo (insertedRow (generateId (filePath video)) scannedAt video)).
Proof.
  pose proof (find_id_insert scannedAt video db) as H.
  unfold insertVideo in *. cbn [fst snd] in *. unfold getVideoById. now rewrite H.
Qed.

Lemma getVideoByPath_insert (scannedAt : string) (video : VideoInsertData) (db : Database) :
  getVideoByPath (filePath video) (fst (insertVideo scannedAt video db)) =
  Some (Types.rowToVideo (insertedRow (generateId (filePath video)) scannedAt video)).
Proof.
  unfold getVideoByPath. now rewrite find_path_insert.
Qed.

Lemma getVideoByPath_updateVideos (filePath id : string) (f : VideoRow.t -> VideoRow.t)
  (db : Database) :
  (forall r, VideoRow.file_path (f r) = VideoRow.file_path r) ->
  getVideoByPath filePath (updateVideos id f db) =
  option_map (fun r => Types.rowToVideo (if String.eqb (VideoRow.id r) id then f r else r))
    (find (fun row => String.eqb (VideoRow.file_path row) filePath) (videos db)).
Proof.
  intros Hf. unfold getVideoByPath, updateVideos. cbn [videos].
  rewrite (find_map_update (fun row => String.eqb (VideoRow.file_path row) filePath)
             (fun r => String.eqb (VideoRow.id r) id) f).
  - now destruct (find _ (videos db)).
  - intros x. now rewrite Hf.
Qed.

Lemma find_none_forall {A} (f : A -> bool) (l : list A) :
  (forall x, In x l -> f x = false) -> find f l = None.
Proof.
  induction l as [|x l IH]; intros H; simpl; [reflexivity|].
  rewrite (H x (or_introl eq_refl)). apply IH. intros y Hy. apply H. now right.
Qed.

(** C9. [generateId] is not injective. It folds the path into a signed
    32-bit hash and prints its absolute value in base 36: two distinct
    paths can have the same hash, and two paths whose hashes are h and -h
    get the same id as well. Whenever two distinct paths share an id, the
    INSERT OR REPLACE of [insertVideo] for the second deletes the stored
    record of the first. *)
Theorem generateId_collisions_overwrite :
  (forall p, - 2 ^ 31 <= generateIdHash p < 2 ^ 31) /\
  (exists p1 p2, p1 <> p2 /\ generateIdHash p1 = generateIdHash p2 /\
     generateId p1 = generateId p2) /\
  (exists p1 p2, generateIdHash p1 <> 0 /\ generateIdHash p1 = - generateIdHash p2 /\
     generateId p1 = generateId p2) /\
  (forall (db : Database) (t1 t2 : string) (v1 v2 : VideoInsertData),
     filePath v1 <> filePath v2 ->
     generateId (filePath v1) = generateId (filePath v2) ->
     let db1 := fst (insertVideo t1 v1 db) in
     let db2 := fst (insertVideo t2 v2 db1) in
     getVideoByPath (filePath v1) db1 <> None /\
     getVideoByPath (filePath v1) db2 = None /\
     getVideoById (generateId (filePath v1)) db2 =
       Some (Types.rowToVideo (insertedRow (generateId (filePath v2)) t2 v2))).
Proof.
  split; [exact generateIdHash_range|].
  split. { exists "/v/Aa.mp4", "/v/BB.mp4". split; [discriminate|]. now vm_compute. }
  split. { exists "/bGm.mov", "/FGPzVfA.mkv". split; [now vm_compute|]. now vm_compute. }
  intros db t1 t2 v1 v2 Hpath Hid db1 db2.
  split; [|split].
  - subst db1. rewrite getVideoByPath_insert. discriminate.
  - subst db2 db1. unfold getVideoByPath.
    replace (find _ _) with (@None VideoRow.t); [reflexivity|].
    symmetry. apply find_none_forall. intros r Hr.
    cbn [insertVideo fst insertOrReplaceVideo videos] in Hr.
    apply in_app_or in Hr. destruct Hr as [Hr|[<-|[]]].
    + apply filter_In in Hr. destruct Hr as [Hr Hkeep].
      apply in_app_or in Hr. destruct Hr as [Hr|[<-|[]]].
      * apply filter_In in Hr. destruct Hr as [_ Hc].
        cbn [insertedRow VideoRow.id VideoRow.file_path] in Hc.
        apply negb_true_iff, orb_false_iff in Hc. tauto.
      * cbn [insertedRow VideoRow.id VideoRow.file_path] in Hkeep.
        rewrite Hid, String.eqb_refl in Hkeep. discriminate.
    + cbn [insertedRow VideoRow.file_path]. apply String.eqb_neq. congruence.
  - subst db2. rewrite Hid.
    pose proof (getVideoById_insert t2 v2 db1) as H. exact H.
Qed.

Lemma generateId_collisions_overwrite_witness :
  getVideoByPath "/v/Aa.mp4"
    (fst (insertVideo "t1" (Examples.dataOf "/v/Aa.mp4" "Aa.mp4") emptyDatabase)) <> None /\
  getVideoByPath "/v/Aa.mp4"
    (fst (insertVideo "t2" (Examples.dataOf "/v/BB.mp4" "BB.mp4")
       (fst (insertVideo "t1" (Examples.dataOf "/v/Aa.mp4" "Aa.mp4") emptyDatabase)))) = None /\
  getVideoById (generateId "/v/Aa.mp4")
    (fst (insertVideo "t2" (Examples.dataOf "/v/BB.mp4" "BB.mp4")
       (fst (insertVideo "t1" (Examples.dataOf "/v/Aa.mp4" "Aa.mp4") emptyDatabase)))) =
    Some (Types.rowToVideo
            (insertedRow (generateId "/v/BB.mp4") "t2" (Examples.dataOf "/v/BB.mp4" "BB.mp4"))).
Proof.
  apply (proj2 (proj2 (proj2 generateId_collisions_overwrite)) emptyDatabase "t1" "t2"
           (Examples.dataOf "/v/Aa.mp4" "Aa.mp4") (Examples.dataOf "/v/BB.mp4" "BB.mp4")).
  - discriminate.
  - vm_compute. reflexivity.
Defined.

End DbFacts.

(** ** The process phase of a scan *)

Module ScannerFacts.
Import Effects Scanner ScannerTerms.

Local Open Scope string_scope.


Lemma thumbnailAndSprite_runs (env : Env) (filePath rootPath : string) (duration : Q)
  (inserted : option Video.t) (w : World) :
  exists w',
    thumbnailAndSprite env filePath rootPath duration inserted w = (Ok tt, w') /\
    sameControl w w' /\
    (database w' = database w \/
     exists v t s, inserted = Some v /\
       database w' = Db.updateVideoThumbnailAndSprite (Video.id v) t s (database w)).
Proof.
  unfold thumbnailAndSprite, tryCatch.
  destruct inserted as [v|]; simpl.
  2:{ eexists. split; [reflexivity|]. split; [repeat split|now left]. }
  unfold promiseAll2, generateThumbnailOnly, generateSpriteSheetOnly, ensureProxyDir, bind.
  destruct (mkdirProxies env rootPath); simpl.
  2:{ eexists. split; [reflexivity|]. split; [repeat split|now left]. }
  unfold lift.
  destruct (Ffmpeg.generateThumbnail (thumbnailRun env filePath)) as [[]|e1];
    destruct (Ffmpeg.generateSpriteSheet duration (spriteRun env filePath)) as [cfg|e2];
    simpl; eexists; (split; [reflexivity|]); (split; [repeat split|]);
    try (now left).
  right. exists v. eexists. eexists. split; reflexivity.
Qed.


Lemma processVideoFile_unchanged (env : Env) (filePath rootPath : string) (g : bool)
  (w : World) (file : FileEntry) (v : Video.t) :
  files env filePath = Some file ->
  Db.getVideoByPath filePath (database w) = Some v ->
  Video.fileHash v = Some (fingerprintOf env file) ->
  processVideoFile env filePath rootPath g w =
    (Ok {| video := Some v; skipped := true |}, w).
Proof.
  intros Hfile Hget Hhash.
  unfold processVideoFile, tryCatch, bind, getFileFingerprint, stat, readDb.
  rewrite Hfile. simpl. rewrite Hget. unfold unchanged. rewrite Hhash.
  unfold fingerprintOf. rewrite String.eqb_refl. reflexivity.
Qed.

Lemma processVideoFile_unreadable (env : Env) (filePath rootPath : string) (g : bool)
  (w : World) :
  files env filePath = None ->
  processVideoFile env filePath rootPath g w =
    (Ok failedUnit,
     withTrace w [ConsoleError ("Error processing video " ++ filePath)]).
Proof.
  intros Hfile.
  unfold processVideoFile, tryCatch, bind, getFileFingerprint.
  rewrite Hfile. reflexivity.
Qed.

Lemma processVideoFile_probe_fails (env : Env) (filePath rootPath : string) (g : bool)
  (w : World) (file : FileEntry) (e : string) :
  files env filePath = Some file ->
  unchanged (Db.getVideoByPath filePath (database w)) (fingerprintOf env file) = false ->
  ffprobe env filePath = Throw e ->
  processVideoFile env filePath rootPath g w =
    (Ok failedUnit,
     withTrace w [ProbeStarted filePath;
                  ConsoleError ("Error processing video " ++ filePath)]).
Proof.
  intros Hfile Hun Hprobe.
  unfold processVideoFile, tryCatch, bind, getFileFingerprint, stat, readDb.
  rewrite Hfile. simpl. unfold fingerprintOf in Hun. rewrite Hun.
  unfold reprocess, getVideoMetadata, bind, lift. simpl. rewrite Hprobe. simpl.
  unfold withTrace. simpl. now rewrite <- app_assoc.
Qed.


Lemma processVideoFile_probe_succeeds (env : Env) (filePath rootPath : string) (g : bool)
  (w : World) (file : FileEntry) (metadata : FFmpegMetadata.t) :
  files env filePath = Some file ->
  unchanged (Db.getVideoByPath filePath (database w)) (fingerprintOf env file) = false ->
  ffprobe env filePath = Ok metadata ->
  let scannedAt := JS.toISOString (now env (clock w)) in
  let data := videoDataOf env filePath file metadata in
  let row := Db.insertedRow (Db.generateId filePath) scannedAt data in
  let db1 := fst (Db.insertVideo scannedAt data (database w)) in
  exists w',
    processVideoFile env filePath rootPath g w =
      (Ok {| video := Some (Types.rowToVideo row); skipped := false |}, w') /\
    sameControl w w' /\
    (database w' = db1 \/
     exists t s, database w' = Db.updateVideoThumbnailAndSprite (Db.generateId filePath) t s db1).
Proof.
  intros Hfile Hun Hprobe scannedAt data row db1.
  unfold processVideoFile, tryCatch, bind, getFileFingerprint, stat, readDb.
  rewrite Hfile. simpl. unfold fingerprintOf in Hun. rewrite Hun.
  unfold reprocess, getVideoMetadata, bind, lift. simpl. rewrite Hprobe. simpl.
  unfold insertVideo, bind, newDate, readDb, writeDb. simpl.
  fold (fingerprintOf env file). fold (videoDataOf env filePath file metadata).
  fold scannedAt. fold data.
  pose proof (DbFacts.getVideoById_insert scannedAt data (database w)) as Hins.
  cbn [Db.insertVideo snd] in Hins. cbn [Db.filePath data videoDataOf] in Hins.
  change (Db.filePath data) with filePath in Hins.
  rewrite Hins.
  destruct (g && negb (Qle_bool (FFmpegMetadata.duration metadata) 0)).
  - match goal with
    | |- context [thumbnailAndSprite ?e ?p ?r ?d ?i ?w0] =>
        destruct (thumbnailAndSprite_runs e p r d i w0) as (w' & Hrun & Hctl & Hdb)
    end.
    rewrite Hrun. exists w'. split; [reflexivity|]. split.
    + destruct Hctl as (H1 & H2 & H3). repeat split; [rewrite H1|rewrite H2|rewrite H3];
        reflexivity.
    + destruct Hdb as [Hdb|(v & t & s & Hv & Hdb)]; [left; exact Hdb|].
      right. exists t, s. rewrite Hdb. inversion Hv. reflexivity.
  - eexists. split; [reflexivity|]. split; [repeat split|]. now left.
Qed.


Lemma processVideoFile_skips (env : Env) (filePath rootPath : string) (g : bool)
  (w : World) (file : FileEntry) :
  files env filePath = Some file ->
  unchanged (Db.getVideoByPath filePath (database w)) (fingerprintOf env file) = true ->
  processVideoFile env filePath rootPath g w =
    (Ok {| video := Db.getVideoByPath filePath (database w); skipped := true |}, w).
Proof.
  intros Hfile Hun.
  unfold processVideoFile, tryCatch, bind, getFileFingerprint, stat, readDb.
  rewrite Hfile. simpl. unfold fingerprintOf in Hun. now rewrite Hun.
Qed.

(** A unit always resolves: whatever the file system, the probe and the
    generators do, [processVideoFile] returns a result. *)
Lemma processVideoFile_resolves (env : Env) (filePath rootPath : string) (g : bool)
  (w : World) :
  exists r w', processVideoFile env filePath rootPath g w = (Ok r, w') /\ sameControl w w'.
Proof.
  destruct (files env filePath) as [file|] eqn:Hfile.
  2:{ rewrite (processVideoFile_unreadable env filePath rootPath g w Hfile).
      eexists _, _. split; [reflexivity|repeat split]. }
  destruct (unchanged (Db.getVideoByPath filePath (database w)) (fingerprintOf env file))
    eqn:Hun.
  { rewrite (processVideoFile_skips env filePath rootPath g w file Hfile Hun).
    eexists _, _. split; [reflexivity|repeat split]. }
  destruct (ffprobe env filePath) as [metadata|e] eqn:Hprobe.
  - destruct (processVideoFile_probe_succeeds env filePath rootPath g w file metadata Hfile Hun Hprobe)
      as (w' & Hrun & Hctl & _).
    rewrite Hrun. eexists _, _. split; [reflexivity|exact Hctl].
  - rewrite (processVideoFile_probe_fails env filePath rootPath g w file e Hfile Hun Hprobe).
    eexists _, _. split; [reflexivity|repeat split].
Qed.


Lemma processVideo_run (env : Env) (rootPath scanId : string) (counters : Counters)
  (videoPath : string) (w w' : World) (r : UnitResult) :
  processVideoFile env videoPath rootPath true w = (Ok r, w') ->
  processVideo env rootPath scanId counters videoPath w =
    (Ok (count counters r), withScanProgress scanId (count counters r) w').
Proof.
  intros Hrun. unfold processVideo, bind. rewrite Hrun. reflexivity.
Qed.


Lemma processAll_runs_every_unit (env : Env) (rootPath scanId : string)
  (videoPaths : list string) (counters : Counters) (w : World) :
  processAll env rootPath scanId videoPaths counters w =
    (Ok (fst (fold_left (unitStep env rootPath scanId) videoPaths (counters, w))),
     snd (fold_left (unitStep env rootPath scanId) videoPaths (counters, w))).
Proof.
  revert counters w. induction videoPaths as [|p rest IH]; intros counters w.
  - reflexivity.
  - simpl. unfold bind.
    destruct (processVideoFile_resolves env p rootPath true w) as (r & w' & Hrun & _).
    unfold unitStep at 2 4. simpl fst. simpl snd.
    rewrite (processVideo_run env rootPath scanId counters p w w' r Hrun). apply IH.
Qed.


Lemma unchanged_false_of_hash (found : Video.t) (fingerprint : string) :
  Video.fileHash found <> Some fingerprint ->
  unchanged (Some found) fingerprint = false.
Proof.
  intros H. unfold unchanged. destruct (Video.fileHash found) as [stored|]; [|reflexivity].
  apply String.eqb_neq. congruence.
Qed.

(** C10. [insertVideo] writes the whole row again: whatever the stored
    record of the path held, the record read back has no proxy, no sprite
    and no thumbnail ([hasProxy] and [hasSprite] false, the three paths
    null). A scan that re-processes a changed file therefore loses the
    proxy of its record: after [processVideoFile], which only regenerates
    thumbnail and sprite, the record of the path still has no proxy. *)
Theorem reprocessing_drops_proxy :
  (forall (db : Db.Database) (scannedAt : string) (data : Db.VideoInsertData),
     exists v,
       snd (Db.insertVideo scannedAt data db) = Some v /\
       Db.getVideoByPath (Db.filePath data) (fst (Db.insertVideo scannedAt data db)) = Some v /\
       Video.hasProxy v = false /\ Video.hasSprite v = false /\
       Video.proxyPath v = None /\ Video.spritePath v = None /\
       Video.thumbnailPath v = None) /\
  (forall (env : Env) (filePath rootPath : string) (g : bool) (w : World)
          (file : FileEntry) (old : Video.t) (metadata : FFmpegMetadata.t),
     files env filePath = Some file ->
     Db.getVideoByPath filePath (database w) = Some old ->
     Video.fileHash old <> Some (fingerprintOf env file) ->
     ffprobe env filePath = Ok metadata ->
     exists r w' v,
       processVideoFile env filePath rootPath g w = (Ok r, w') /\
       skipped r = false /\
       Db.getVideoByPath filePath (database w') = Some v /\
       Video.hasProxy v = false /\ Video.proxyPath v = None).
Proof.
  split.
  - intros db scannedAt data. eexists. split; [apply DbFacts.getVideoById_insert|].
    split; [apply DbFacts.getVideoByPath_insert|]. repeat split.
  - intros env filePath rootPath g w file old metadata Hfile Hold Hhash Hprobe.
    assert (Hun : unchanged (Db.getVideoByPath filePath (database w))
                    (fingerprintOf env file) = false).
    { rewrite Hold. now apply unchanged_false_of_hash. }
    destruct (processVideoFile_probe_succeeds env filePath rootPath g w file metadata
                Hfile Hun Hprobe) as (w' & Hrun & _ & Hdb).
    cbv zeta in Hrun, Hdb.
    set (scannedAt := JS.toISOString (now env (clock w))) in *.
    set (data := videoDataOf env filePath file metadata) in *.
    change filePath with (Db.filePath data) in Hdb |- * at 2.
    destruct Hdb as [Hdb|(t & s & Hdb)].
    + eexists _, w', _. split; [exact Hrun|]. split; [reflexivity|].
      rewrite Hdb. split; [apply DbFacts.getVideoByPath_insert|]. split; reflexivity.
    + eexists _, w', _. split; [exact Hrun|]. split; [reflexivity|].
      rewrite Hdb. unfold Db.updateVideoThumbnailAndSprite.
      rewrite DbFacts.getVideoByPath_updateVideos by reflexivity.
      rewrite DbFacts.find_path_insert. cbn [option_map].
      split; [reflexivity|].
      destruct (String.eqb _ _); split; reflexivity.
Qed.

Lemma reprocessing_drops_proxy_witness :
  exists r w' v,
    processVideoFile Examples.healthyEnv "/v/a.mp4" "/v" true Examples.staleWorld = (Ok r, w') /\
    skipped r = false /\
    Db.getVideoByPath "/v/a.mp4" (database w') = Some v /\
    Video.hasProxy v = false /\ Video.proxyPath v = None.
Proof.
  apply (proj2 reprocessing_drops_proxy Examples.healthyEnv "/v/a.mp4" "/v" true
           Examples.staleWorld Examples.clip
           (Types.rowToVideo (Examples.proxiedRow "stale")) Examples.tenSeconds).
  - reflexivity.
  - reflexivity.
  - vm_compute. discriminate.
  - reflexivity.
Defined.


Lemma thumbnailAndSprite_fails (env : Env) (filePath rootPath : string) (duration : Q)
  (inserted : option Video.t) (w : World) :
  generationFails env filePath rootPath duration ->
  exists w',
    thumbnailAndSprite env filePath rootPath duration inserted w = (Ok tt, w') /\
    database w' = database w.
Proof.
  intros Hfail. unfold thumbnailAndSprite, tryCatch.
  destruct inserted as [v|]; simpl.
  2:{ eexists. split; reflexivity. }
  unfold promiseAll2, generateThumbnailOnly, generateSpriteSheetOnly, ensureProxyDir, bind.
  destruct (mkdirProxies env rootPath) eqn:Hmk; simpl.
  2:{ eexists. split; reflexivity. }
  unfold lift.
  destruct (Ffmpeg.generateThumbnail (thumbnailRun env filePath)) as [[]|e1] eqn:Ht;
    destruct (Ffmpeg.generateSpriteSheet duration (spriteRun env filePath)) as [cfg|e2] eqn:Hs;
    simpl; try (eexists; split; reflexivity).
  destruct Hfail as [H|[[e H]|[e H]]]; congruence.
Qed.

(** A file whose probe succeeded: the upsert, then thumbnail and sprite
    under their own [catch]. *)
Lemma processVideoFile_after_probe (env : Env) (filePath rootPath : string) (g : bool)
  (w : World) (file : FileEntry) (metadata : FFmpegMetadata.t) :
  files env filePath = Some file ->
  unchanged (Db.getVideoByPath filePath (database w)) (fingerprintOf env file) = false ->
  ffprobe env filePath = Ok metadata ->
  let scannedAt := JS.toISOString (now env (clock w)) in
  let data := videoDataOf env filePath file metadata in
  let row := Db.insertedRow (Db.generateId filePath) scannedAt data in
  let w1 :=
    {| database := fst (Db.insertVideo scannedAt data (database w));
       currentRootPath := currentRootPath w;
       isGenerating := isGenerating w;
       job := job w;
       closures := closures w;
       clock := S (clock w);
       trace := trace w ++ [ProbeStarted filePath] |} in
  forall w',
    (if g && negb (Qle_bool (FFmpegMetadata.duration metadata) 0)
     then thumbnailAndSprite env filePath rootPath (FFmpegMetadata.duration metadata)
            (Some (Types.rowToVideo row))
     else ret tt) w1 = (Ok tt, w') ->
    processVideoFile env filePath rootPath g w =
      (Ok {| video := Some (Types.rowToVideo row); skipped := false |}, w').
Proof.
  intros Hfile Hun Hprobe scannedAt data row w1 w' Hgen.
  unfold processVideoFile, tryCatch, bind, getFileFingerprint, stat, readDb.
  rewrite Hfile. simpl. unfold fingerprintOf in Hun. rewrite Hun.
  unfold reprocess, getVideoMetadata, bind, lift. simpl. rewrite Hprobe. simpl.
  unfold insertVideo, bind, newDate, readDb, writeDb. simpl.
  fold (fingerprintOf env file). fold (videoDataOf env filePath file metadata).
  fold scannedAt. fold data.
  pose proof (DbFacts.getVideoById_insert scannedAt data (database w)) as Hins.
  cbn [Db.insertVideo snd] in Hins. change (Db.filePath data) with filePath in Hins.
  rewrite Hins. fold row.
  cbn [Db.insertVideo fst] in w1. change (Db.filePath data) with filePath in w1.
  match goal with
  | |- context [(if ?c then ?a else ?b) ?x] => change x with w1
  end.
  rewrite Hgen. reflexivity.
Qed.


Lemma find_existsb_false {A} (f : A -> bool) (l : list A) :
  existsb f l = false -> find f l = None.
Proof.
  induction l as [|x l IH]; simpl; [reflexivity|].
  destruct (f x); simpl; [discriminate|exact IH].
Qed.

Lemma unitStep_keeps_scan (env : Env) (rootPath scanId : string) (state : Counters * World)
  (videoPath : string) :
  (exists row, find (fun r => String.eqb (ScanRow.id r) scanId)
                 (Db.scans (database (snd state))) = Some row) ->
  exists row, find (fun r => String.eqb (ScanRow.id r) scanId)
                (Db.scans (database (snd (unitStep env rootPath scanId state videoPath))))
              = Some row.
Proof.
  intros [row Hrow]. destruct state as [c w]. simpl in *.
  destruct (processVideoFile_resolves env videoPath rootPath true w)
    as (r & w' & Hrun & _ & _ & Hscans).
  unfold unitStep. simpl fst. simpl snd.
  rewrite (processVideo_run env rootPath scanId c videoPath w w' r Hrun).
  cbn [snd withScanProgress database Db.updateScanProgress Db.updateScans Db.scans].
  rewrite (DbFacts.find_map_update (fun r => String.eqb (ScanRow.id r) scanId)
             (fun r => String.eqb (ScanRow.id r) scanId)) by reflexivity.
  rewrite Hscans, Hrow. simpl. eexists. reflexivity.
Qed.

Lemma fold_unitStep_keeps_scan (env : Env) (rootPath scanId : string)
  (videoPaths : list string) (state : Counters * World) :
  (exists row, find (fun r => String.eqb (ScanRow.id r) scanId)
                 (Db.scans (database (snd state))) = Some row) ->
  exists row, find (fun r => String.eqb (ScanRow.id r) scanId)
                (Db.scans (database (snd (fold_left (unitStep env rootPath scanId)
                                            videoPaths state))))
              = Some row.
Proof.
  revert state. induction videoPaths as [|p rest IH]; intros state H; [exact H|].
  simpl. apply IH. now apply unitStep_keeps_scan.
Qed.


(** A scan of an existing directory, with a fresh session id: the session
    row is written, every unit of the walk runs, the session is closed. *)
Lemma scanAndProcessDirectory_runs (env : Env) (rootPath : string)
  (listing : option (list Dirent)) (w : World) :
  scanIdFresh env rootPath w ->
  let id := sessionId env rootPath w in
  let final := fold_left (unitStep env rootPath id) (scanDirectory rootPath listing)
                 (zeroCounters, sessionStarted env rootPath w) in
  scanAndProcessDirectory env rootPath (RootDirectory listing) w =
    (Ok {| scanId := id;
           found := videosFound (fst final);
           processed := videosProcessed (fst final);
           skippedCount := videosSkipped (fst final) |},
     sessionCompleted env id final).
Proof.
  intros Hfresh id final.
  unfold scanAndProcessDirectory, createScan, bind, setRootPath, readDateNow, newDate,
    readDb, lift, writeDb, ret.
  cbn [database clock currentRootPath isGenerating job closures trace fst snd].
  unfold Db.createScan. unfold scanIdFresh in Hfresh. rewrite Hfresh.
  cbn [database clock currentRootPath isGenerating job closures trace fst snd].
  fold (sessionId env rootPath w). fold id.
  match goal with
  | |- context [processAll _ _ _ _ _ ?x] => change x with (sessionStarted env rootPath w)
  end.
  rewrite processAll_runs_every_unit. fold zeroCounters. fold final.
  reflexivity.
Qed.


Lemma scan_status_after_session (env : Env) (rootPath : string)
  (listing : option (list Dirent)) (w : World) :
  scanIdFresh env rootPath w ->
  let id := sessionId env rootPath w in
  let final := fold_left (unitStep env rootPath id) (scanDirectory rootPath listing)
                 (zeroCounters, sessionStarted env rootPath w) in
  Db.getScanStatus id (database (sessionCompleted env id final)) =
    Some (scanComplete, videosFound (fst final)).
Proof.
  intros Hfresh id final.
  assert (Hstart : exists row,
             find (fun r => String.eqb (ScanRow.id r) id)
               (Db.scans (database (snd (zeroCounters, sessionStarted env rootPath w))))
             = Some row).
  { cbn [snd sessionStarted database Db.scans].
    rewrite DbFacts.find_app_none by (apply find_existsb_false; exact Hfresh).
    simpl. fold id. rewrite String.eqb_refl. eexists. reflexivity. }
  destruct (fold_unitStep_keeps_scan env rootPath id (scanDirectory rootPath listing)
              _ Hstart) as [row Hrow].
  fold final in Hrow.
  unfold Db.getScanStatus, sessionCompleted.
  cbn [database Db.completeScan Db.updateScans Db.scans].
  rewrite (DbFacts.find_map_update (fun r => String.eqb (ScanRow.id r) id)
             (fun r => String.eqb (ScanRow.id r) id)) by reflexivity.
  rewrite Hrow. cbn [option_map].
  apply find_some in Hrow. destruct Hrow as [_ Hid]. rewrite Hid. reflexivity.
Qed.

(** The counters and the catalog after a pool of units each of which is
    skipped as unchanged or fails before anything is written. *)
Lemma unchangedIn_videos (env : Env) (db db' : Db.Database) (filePath : string) :
  Db.videos db' = Db.videos db -> unchangedIn env db' filePath = unchangedIn env db filePath.
Proof.
  intros H. unfold unchangedIn, Db.getVideoByPath. now rewrite H.
Qed.

Lemma processVideo_failed (env : Env) (rootPath scanId filePath : string)
  (counters : Counters) (w : World) :
  (files env filePath = None \/
   exists file e,
     files env filePath = Some file /\
     unchanged (Db.getVideoByPath filePath (database w)) (fingerprintOf env file) = false /\
     ffprobe env filePath = Throw e) ->
  exists w',
    processVideo env rootPath scanId counters filePath w = (Ok counters, w') /\
    Db.videos (database w') = Db.videos (database w).
Proof.
  intros [Hnone|(file & e & Hfile & Hun & Hprobe)].
  - rewrite (processVideo_run env rootPath scanId counters filePath w _ failedUnit
               (processVideoFile_unreadable env filePath rootPath true w Hnone)).
    eexists. split; reflexivity.
  - rewrite (processVideo_run env rootPath scanId counters filePath w _ failedUnit
               (processVideoFile_probe_fails env filePath rootPath true w file e
                  Hfile Hun Hprobe)).
    eexists. split; reflexivity.
Qed.

Lemma processVideo_skipped (env : Env) (rootPath scanId filePath : string)
  (counters : Counters) (w : World) :
  unchangedIn env (database w) filePath = true ->
  exists w',
    processVideo env rootPath scanId counters filePath w =
      (Ok {| videosFound := videosFound counters + 1;
             videosProcessed := videosProcessed counters;
             videosSkipped := videosSkipped counters + 1 |}, w') /\
    Db.videos (database w') = Db.videos (database w).
Proof.
  unfold unchangedIn. intros Hun.
  destruct (files env filePath) as [file|] eqn:Hfile; [|discriminate].
  rewrite (processVideo_run env rootPath scanId counters filePath w _ _
             (processVideoFile_skips env filePath rootPath true w file Hfile Hun)).
  unfold unchanged in Hun.
  destruct (Db.getVideoByPath filePath (database w)) as [v|]; [|discriminate].
  eexists. split; reflexivity.
Qed.

Lemma processAll_unchanged_or_failed (env : Env) (rootPath scanId : string)
  (videoPaths : list string) (counters : Counters) (w : World) :
  (forall p, In p videoPaths -> unchangedIn env (database w) p = false ->
     files env p = None \/ exists e, ffprobe env p = Throw e) ->
  exists w',
    processAll env rootPath scanId videoPaths counters w =
      (Ok {| videosFound :=
               videosFound counters +
               Z.of_nat (List.length (filter (unchangedIn env (database w)) videoPaths));
             videosProcessed := videosProcessed counters;
             videosSkipped :=
               videosSkipped counters +
               Z.of_nat (List.length (filter (unchangedIn env (database w)) videoPaths)) |},
       w') /\
    Db.videos (database w') = Db.videos (database w) /\
    clock w' = clock w /\
    currentRootPath w' = currentRootPath w.
Proof.
  revert counters w. induction videoPaths as [|p rest IH]; intros counters w Hall.
  - exists w. cbn [processAll filter List.length Z.of_nat]. rewrite !Z.add_0_r.
    destruct counters. split; [reflexivity|]. repeat split.
  - cbn [processAll filter]. unfold bind at 1.
    assert (Hstep : exists counters' w1,
              processVideo env rootPath scanId counters p w = (Ok counters', w1) /\
              Db.videos (database w1) = Db.videos (database w) /\
              clock w1 = clock w /\ currentRootPath w1 = currentRootPath w /\
              counters' =
                if unchangedIn env (database w) p
                then {| videosFound := videosFound counters + 1;
                        videosProcessed := videosProcessed counters;
                        videosSkipped := videosSkipped counters + 1 |}
                else counters).
    { destruct (unchangedIn env (database w) p) eqn:Hun.
      - unfold unchangedIn in Hun.
        destruct (files env p) as [file|] eqn:Hfile; [|discriminate].
        rewrite (processVideo_run env rootPath scanId counters p w _ _
                   (processVideoFile_skips env p rootPath true w file Hfile Hun)).
        unfold unchanged in Hun.
        destruct (Db.getVideoByPath p (database w)) as [v|]; [|discriminate].
        eexists _, _. split; [reflexivity|]. repeat split.
      - destruct (files env p) as [file|] eqn:Hfile.
        + destruct (Hall p (or_introl eq_refl) Hun) as [Hnone|[e Hprobe]]; [congruence|].
          unfold unchangedIn in Hun. rewrite Hfile in Hun.
          rewrite (processVideo_run env rootPath scanId counters p w _ failedUnit
                     (processVideoFile_probe_fails env p rootPath true w file e
                        Hfile Hun Hprobe)).
          eexists _, _. split; [reflexivity|]. repeat split.
        + rewrite (processVideo_run env rootPath scanId counters p w _ failedUnit
                     (processVideoFile_unreadable env p rootPath true w Hfile)).
          eexists _, _. split; [reflexivity|]. repeat split. }
    destruct Hstep as (counters' & w1 & Hrun & Hvideos & Hclock & Hroot & Hcount).
    rewrite Hrun.
    destruct (IH counters' w1) as (w' & Hrest & Hvideos' & Hclock' & Hroot').
    { intros q Hq Hun. apply (Hall q (or_intror Hq)).
      now rewrite <- (unchangedIn_videos env (database w) (database w1) q Hvideos). }
    exists w'. split.
    + rewrite Hrest. f_equal. rewrite Hcount.
      rewrite (filter_ext (unchangedIn env (database w1)) (unchangedIn env (database w))
                 (fun q => unchangedIn_videos env (database w) (database w1) q Hvideos)).
      destruct (unchangedIn env (database w) p);
        cbn [videosFound videosProcessed videosSkipped List.length];
        [rewrite Nat2Z.inj_succ; f_equal; f_equal; lia|reflexivity].
    + repeat split; congruence.
Qed.

(** C2, as the code has it. A unit of the process phase never throws. When
    the file cannot be read or the metadata probe fails, the failure is
    caught, nothing is written to the catalog and [processVideo] leaves the
    three counters as they were: the unit counts neither as processed nor
    as skipped. When the probe succeeds and the thumbnail or sprite
    generation fails, that failure is caught by a [catch] of its own: the
    record stays inserted, without thumbnail and sprite, and
    [processVideo] counts the unit as found and processed. In no case are
    the other units or the session stopped: after any unit the pool goes
    on with the rest of the walk, and the session, once opened (the id
    drawn for it being free), ends marked complete. A scan all of whose
    files are unchanged or fail in the first way reports no video
    processed and as many found and skipped as there are unchanged files,
    and leaves the video table as it was. *)
Theorem unit_failures_are_contained :
  (forall (env : Env) (filePath rootPath : string) (g : bool) (w : World),
     exists r w', processVideoFile env filePath rootPath g w = (Ok r, w')) /\
  (forall (env : Env) (filePath rootPath : string) (g : bool) (w : World),
     (files env filePath = None \/
      exists file e,
        files env filePath = Some file /\
        unchanged (Db.getVideoByPath filePath (database w)) (fingerprintOf env file) = false /\
        ffprobe env filePath = Throw e) ->
     (exists w',
        processVideoFile env filePath rootPath g w = (Ok failedUnit, w') /\
        database w' = database w /\
        forall counters, count counters failedUnit = counters) /\
     forall scanId counters,
       exists w',
         processVideo env rootPath scanId counters filePath w = (Ok counters, w') /\
         Db.videos (database w') = Db.videos (database w)) /\
  (forall (env : Env) (filePath rootPath : string) (w : World) (file : FileEntry)
          (metadata : FFmpegMetadata.t),
     files env filePath = Some file ->
     unchanged (Db.getVideoByPath filePath (database w)) (fingerprintOf env file) = false ->
     ffprobe env filePath = Ok metadata ->
     (0 < FFmpegMetadata.duration metadata)%Q ->
     generationFails env filePath rootPath (FFmpegMetadata.duration metadata) ->
     (exists v w',
        processVideoFile env filePath rootPath true w =
          (Ok {| video := Some v; skipped := false |}, w') /\
        Db.getVideoByPath filePath (database w') = Some v /\
        Video.thumbnailPath v = None /\ Video.hasSprite v = false /\
        forall counters,
          videosProcessed (count counters {| video := Some v; skipped := false |}) =
            (videosProcessed counters + 1)%Z /\
          videosSkipped (count counters {| video := Some v; skipped := false |}) =
            videosSkipped counters) /\
     forall scanId counters,
       exists v w',
         processVideo env rootPath scanId counters filePath w =
           (Ok (oneMoreProcessed counters), w') /\
         Db.getVideoByPath filePath (database w') = Some v /\
         Video.thumbnailPath v = None /\ Video.hasSprite v = false) /\
  (forall (env : Env) (rootPath scanId : string) (videoPaths : list string)
          (counters : Counters) (w : World),
     processAll env rootPath scanId videoPaths counters w =
       (Ok (fst (fold_left (unitStep env rootPath scanId) videoPaths (counters, w))),
        snd (fold_left (unitStep env rootPath scanId) videoPaths (counters, w)))) /\
  (forall (env : Env) (rootPath scanId videoPath : string) (rest : list string)
          (counters : Counters) (w : World),
     exists counters' w',
       processVideo env rootPath scanId counters videoPath w = (Ok counters', w') /\
       processAll env rootPath scanId (videoPath :: rest) counters w =
         processAll env rootPath scanId rest counters' w') /\
  (forall (env : Env) (rootPath : string) (listing : option (list Dirent)) (w : World),
     scanIdFresh env rootPath w ->
     exists summary w',
       scanAndProcessDirectory env rootPath (RootDirectory listing) w = (Ok summary, w') /\
       Db.getScanStatus (scanId summary) (database w') =
         Some (scanComplete, found summary)) /\
  (forall (env : Env) (rootPath : string) (listing : option (list Dirent)) (w : World),
     scanIdFresh env rootPath w ->
     (forall p, In p (scanDirectory rootPath listing) ->
        unchangedIn env (database w) p = false ->
        files env p = None \/ exists e, ffprobe env p = Throw e) ->
     exists summary w',
       scanAndProcessDirectory env rootPath (RootDirectory listing) w = (Ok summary, w') /\
       processed summary = 0%Z /\
       skippedCount summary =
         Z.of_nat (List.length (filter (unchangedIn env (database w))
                                  (scanDirectory rootPath listing))) /\
       found summary = skippedCount summary /\
       Db.videos (database w') = Db.videos (database w)).
Proof.
  split; [|split; [|split; [|split; [|split; [|split]]]]].
  - intros env filePath rootPath g w.
    destruct (processVideoFile_resolves env filePath rootPath g w) as (r & w' & H & _).
    now exists r, w'.
  - intros env filePath rootPath g w Hfail. split.
    + destruct Hfail as [Hnone|(file & e & Hfile & Hun & Hprobe)].
      * rewrite (processVideoFile_unreadable env filePath rootPath g w Hnone).
        eexists. split; [reflexivity|]. split; reflexivity.
      * rewrite (processVideoFile_probe_fails env filePath rootPath g w file e Hfile Hun
                   Hprobe).
        eexists. split; [reflexivity|]. split; reflexivity.
    + intros scanId counters. now apply processVideo_failed.
  - intros env filePath rootPath w file metadata Hfile Hun Hprobe Hpos Hfail.
    pose proof (processVideoFile_after_probe env filePath rootPath true w file metadata
                  Hfile Hun Hprobe) as Hrun.
    cbv zeta in Hrun.
    assert (Hd : Qle_bool (FFmpegMetadata.duration metadata) 0 = false).
    { destruct (Qle_bool (FFmpegMetadata.duration metadata) 0) eqn:E; [|reflexivity].
      apply Qle_bool_iff in E. exfalso. eapply Qlt_not_le; eassumption. }
    rewrite Hd in Hrun. cbn [andb negb] in Hrun.
    match type of Hrun with
    | forall w', thumbnailAndSprite ?e ?p ?r ?d ?i ?w0 = _ -> _ =>
        destruct (thumbnailAndSprite_fails e p r d i w0 Hfail) as (w' & Hgen & Hdb)
    end.
    specialize (Hrun w' Hgen).
    set (data := videoDataOf env filePath file metadata) in *.
    assert (Hget : Db.getVideoByPath filePath (database w') =
                   Some (Types.rowToVideo
                           (Db.insertedRow (Db.generateId filePath)
                              (JS.toISOString (now env (clock w))) data))).
    { rewrite Hdb. cbn [database]. change filePath with (Db.filePath data) at 1.
      apply DbFacts.getVideoByPath_insert. }
    split.
    + eexists _, w'. split; [exact Hrun|]. split; [exact Hget|].
      split; [reflexivity|]. split; [reflexivity|].
      intros counters. split; reflexivity.
    + intros scanId counters.
      rewrite (processVideo_run env rootPath scanId counters filePath w w' _ Hrun).
      eexists _, _. split; [reflexivity|].
      split; [exact Hget|]. split; reflexivity.
  - exact processAll_runs_every_unit.
  - intros env rootPath scanId videoPath rest counters w.
    destruct (processVideoFile_resolves env videoPath rootPath true w) as (r & w' & Hrun & _).
    eexists _, _.
    split; [apply (processVideo_run env rootPath scanId counters videoPath w w' r Hrun)|].
    cbn [processAll]. unfold bind.
    now rewrite (processVideo_run env rootPath scanId counters videoPath w w' r Hrun).
  - intros env rootPath listing w Hfresh.
    eexists _, _. split; [apply (scanAndProcessDirectory_runs env rootPath listing w Hfresh)|].
    cbn [scanId found]. apply (scan_status_after_session env rootPath listing w Hfresh).
  - intros env rootPath listing w Hfresh Hall.
    destruct (processAll_unchanged_or_failed env rootPath (sessionId env rootPath w)
                (scanDirectory rootPath listing) zeroCounters
                (sessionStarted env rootPath w)) as (w1 & Hrun & Hvideos & _).
    { intros p Hp Hun. apply (Hall p Hp). exact Hun. }
    unfold scanAndProcessDirectory, createScan, bind, setRootPath, readDateNow, newDate,
      readDb, lift, writeDb, ret.
    cbn [database clock currentRootPath isGenerating job closures trace fst snd].
    unfold Db.createScan. unfold scanIdFresh in Hfresh. rewrite Hfresh.
    cbn [database clock currentRootPath isGenerating job closures trace fst snd].
    fold (sessionId env rootPath w).
    match goal with
    | |- context [processAll _ _ _ _ _ ?x] => change x with (sessionStarted env rootPath w)
    end.
    fold zeroCounters. rewrite Hrun.
    eexists _, _. split; [reflexivity|].
    cbn [processed skippedCount found videosFound videosProcessed videosSkipped
           zeroCounters database Db.completeScan Db.updateScans Db.videos].
    change (unchangedIn env (database (sessionStarted env rootPath w)))
      with (unchangedIn env (database w)).
    repeat split. exact Hvideos.
Qed.

Lemma unit_failures_are_contained_witness :
  (exists w',
     processVideoFile Examples.probeFailsEnv "/v/a.mp4" "/v" true Examples.staleWorld =
       (Ok failedUnit, w') /\
     database w' = database Examples.staleWorld /\
     forall counters, count counters failedUnit = counters) /\
  forall scanId counters,
    exists w',
      processVideo Examples.probeFailsEnv "/v" scanId counters "/v/a.mp4"
        Examples.staleWorld = (Ok counters, w') /\
      Db.videos (database w') = Db.videos (database Examples.staleWorld).
Proof.
  apply (proj1 (proj2 unit_failures_are_contained)
           Examples.probeFailsEnv "/v/a.mp4" "/v" true Examples.staleWorld).
  right. exists Examples.clip, "ffprobe exited with code 1".
  split; [reflexivity|]. split; [vm_compute; reflexivity|reflexivity].
Defined.

(** C2 as stated fails for the generators: here ffmpeg exits with code 1
    for the thumbnail of [/v/a.mp4], and the unit resolves with the video,
    which is in the catalog and counted as processed, by [processVideo]
    and in the summary of the scan. *)
Lemma generation_failure_counts_as_processed :
  Ffmpeg.generateThumbnail (thumbnailRun Examples.thumbnailFailsEnv "/v/a.mp4") =
    Throw "ffmpeg thumbnail exited with a non-zero code" /\
  exists v w',
    processVideoFile Examples.thumbnailFailsEnv "/v/a.mp4" "/v" true Examples.emptyWorld =
      (Ok {| video := Some v; skipped := false |}, w') /\
    Db.getVideoByPath "/v/a.mp4" (database w') = Some v /\
    fst (processVideo Examples.thumbnailFailsEnv "/v" "s" zeroCounters "/v/a.mp4"
           Examples.emptyWorld) =
      Ok {| videosFound := 1; videosProcessed := 1; videosSkipped := 0 |} /\
    exists summary w'',
      scanAndProcessDirectory Examples.thumbnailFailsEnv "/v"
        (RootDirectory (Some [FileEnt "a.mp4"])) Examples.emptyWorld = (Ok summary, w'') /\
      (found summary, processed summary, skippedCount summary) = (1, 1, 0)%Z.
Proof.
  split; [reflexivity|].
  eexists _, _. split; [vm_compute; reflexivity|].
  split; [vm_compute; reflexivity|]. split; [vm_compute; reflexivity|].
  eexists _, _. split; vm_compute; reflexivity.
Qed.


Lemma fold_unitStep_unchanged (env : Env) (rootPath scanId : string)
  (videoPaths : list string) (counters : Counters) (w : World) :
  (forall p, In p videoPaths -> indexedUnchanged env (database w) p) ->
  let final := fold_left (unitStep env rootPath scanId) videoPaths (counters, w) in
  videosFound (fst final) = (videosFound counters + Z.of_nat (List.length videoPaths))%Z /\
  videosProcessed (fst final) = videosProcessed counters /\
  videosSkipped (fst final) = (videosSkipped counters + Z.of_nat (List.length videoPaths))%Z /\
  trace (snd final) = trace w /\
  clock (snd final) = clock w /\
  Db.videos (database (snd final)) = Db.videos (database w).
Proof.
  revert counters w. induction videoPaths as [|p rest IH]; intros counters w Hall.
  - simpl. repeat split; lia.
  - destruct (Hall p (or_introl eq_refl)) as (file & v & Hfile & Hget & Hhash).
    pose proof (processVideoFile_unchanged env p rootPath true w file v Hfile Hget Hhash)
      as Hrun.
    cbn [fold_left]. unfold unitStep at 2 4 6 8 10 12. cbn [fst snd].
    rewrite (processVideo_run env rootPath scanId counters p w w _ Hrun).
    set (c' := count counters {| video := Some v; skipped := true |}).
    set (w1 := withScanProgress scanId c' w).
    assert (Hall' : forall q, In q rest -> indexedUnchanged env (database w1) q).
    { intros q Hq. destruct (Hall q (or_intror Hq)) as (f & u & H1 & H2 & H3).
      exists f, u. split; [exact H1|]. split; [exact H2|exact H3]. }
    destruct (IH c' w1 Hall') as (H1 & H2 & H3 & H4 & H5 & H6).
    cbv zeta in *. rewrite H1, H2, H3, H4, H5, H6.
    subst c' w1. cbn [count video skipped videosFound videosProcessed videosSkipped
                        withScanProgress trace clock database]. cbn [List.length].
    repeat split; try lia.
Qed.

(** C3. A file whose path has a stored record with the fingerprint the
    file has now is skipped: the unit returns the stored record as skipped
    and leaves the world as it was, so no probe is started, no row is
    written and no thumbnail or sprite is generated. A scan of a directory
    all of whose videos are in that case, once its session is opened (the
    id drawn for it being free), starts no external program, leaves
    the video table as it was, processes nothing and skips every file of
    the walk; when the walk yields exactly the indexed paths, the skip
    count is the number of indexed videos. *)
Theorem unchanged_files_are_skipped :
  (forall (env : Env) (filePath rootPath : string) (g : bool) (w : World)
          (file : FileEntry) (v : Video.t),
     files env filePath = Some file ->
     Db.getVideoByPath filePath (database w) = Some v ->
     Video.fileHash v = Some (md5 env (fingerprintInput file)) ->
     processVideoFile env filePath rootPath g w =
       (Ok {| video := Some v; skipped := true |}, w)) /\
  (forall (env : Env) (rootPath : string) (listing : option (list Dirent)) (w : World),
     scanIdFresh env rootPath w ->
     (forall p, In p (scanDirectory rootPath listing) ->
        indexedUnchanged env (database w) p) ->
     exists summary w',
       scanAndProcessDirectory env rootPath (RootDirectory listing) w = (Ok summary, w') /\
       trace w' = trace w /\
       Db.videos (database w') = Db.videos (database w) /\
       processed summary = 0%Z /\
       skippedCount summary = Z.of_nat (List.length (scanDirectory rootPath listing)) /\
       (Permutation (map VideoRow.file_path (Db.videos (database w)))
          (scanDirectory rootPath listing) ->
        skippedCount summary = Z.of_nat (List.length (Db.videos (database w))))).
Proof.
  split.
  - intros env filePath rootPath g w file v. apply processVideoFile_unchanged.
  - intros env rootPath listing w Hfresh Hall.
    eexists _, _. split; [apply (scanAndProcessDirectory_runs env rootPath listing w Hfresh)|].
    cbv zeta.
    destruct (fold_unitStep_unchanged env rootPath (sessionId env rootPath w)
                (scanDirectory rootPath listing) zeroCounters
                (sessionStarted env rootPath w)) as (H1 & H2 & H3 & H4 & H5 & H6).
    { intros p Hp. destruct (Hall p Hp) as (f & u & Ha & Hb & Hc).
      exists f, u. split; [exact Ha|]. split; [exact Hb|exact Hc]. }
    cbv zeta in *. cbn [processed skippedCount sessionCompleted trace database].
    split; [rewrite H4; reflexivity|].
    split; [cbn [Db.completeScan Db.updateScans Db.videos]; rewrite H6; reflexivity|].
    split; [rewrite H2; reflexivity|].
    split; [rewrite H3; reflexivity|].
    intros Hperm. rewrite H3. cbn [zeroCounters videosSkipped].
    apply Permutation_length in Hperm. rewrite length_map in Hperm. now rewrite Hperm.
Qed.

Lemma unchanged_files_are_skipped_witness :
  exists summary w',
    scanAndProcessDirectory Examples.healthyEnv "/v"
      (RootDirectory (Some [FileEnt "a.mp4"; FileEnt "notes.txt"])) Examples.freshWorld =
      (Ok summary, w') /\
    trace w' = trace Examples.freshWorld /\
    Db.videos (database w') = Db.videos (database Examples.freshWorld) /\
    processed summary = 0%Z /\
    skippedCount summary =
      Z.of_nat (List.length (scanDirectory "/v" (Some [FileEnt "a.mp4"; FileEnt "notes.txt"]))) /\
    (Permutation (map VideoRow.file_path (Db.videos (database Examples.freshWorld)))
       (scanDirectory "/v" (Some [FileEnt "a.mp4"; FileEnt "notes.txt"])) ->
     skippedCount summary = Z.of_nat (List.length (Db.videos (database Examples.freshWorld)))).
Proof.
  apply (proj2 unchanged_files_are_skipped Examples.healthyEnv "/v"
           (Some [FileEnt "a.mp4"; FileEnt "notes.txt"]) Examples.freshWorld).
  - reflexivity.
  - intros p Hp. vm_compute in Hp. destruct Hp as [<-|[]].
    exists Examples.clip. eexists. split; [reflexivity|]. split; reflexivity.
Defined.

End ScannerFacts.

(** ** Creation stamps *)

Module StampFacts.
Import StampTerms.

Local Open Scope Z_scope.











End StampFacts.

(** ** The queue worker *)

Module ProxyFacts.
Import Effects ProxyRoute StampTerms ProxyTerms.

Local Open Scope string_scope.
Local Open Scope list_scope.

(** *** Running the monad *)

Lemma bind_Ok {A B} (m : M A) (k : A -> M B) (w w1 : World) (a : A) :
  m w = (Ok a, w1) -> bind m k w = k a w1.
Proof. intros H. unfold bind. now rewrite H. Qed.





Lemma updateProxyJobStatus_run (env : Env) (id : string) (status : JobStatus)
  (progress : Z) (error : option string) (w : World) :
  updateProxyJobStatus env id status progress error w =
    (Ok tt, afterStatus env id status progress error w).
Proof. reflexivity. Qed.

(** *** What the writes of one job do to the queue table *)









(** *** The weighted progress of a job *)


Lemma last_cons {A} (a d : A) (l : list A) : last (a :: l) d = last l a.
Proof.
  revert a d. induction l as [|b l IH]; intros a d; [reflexivity|].
  change (last (a :: b :: l) d) with (last (b :: l) d).
  rewrite (IH b d). symmetry. apply IH.
Qed.

Lemma trackEvent_fold (events : list (string * Z)) (st : Progress) :
  fold_left trackEvent events st =
    {| thumbnailDone := thumbnailDone st || thumbnailFinished events;
       spriteDone := spriteDone st || spriteFinished events;
       proxyProgress := last (proxyReports events) (proxyProgress st) |}.
Proof.
  revert st. induction events as [|[stage p] events IH]; intros st.
  - simpl. rewrite !orb_false_r. now destruct st.
  - cbn [fold_left]. rewrite IH. unfold trackEvent, track, thumbnailFinished,
      spriteFinished, proxyReports. cbn [fst snd existsb filter].
    destruct (String.eqb_spec stage "thumbnail") as [->|Ht].
    + cbn [String.eqb Ascii.eqb Bool.eqb andb orb map].
      destruct (p =? 100)%Z; cbn [thumbnailDone spriteDone proxyProgress andb orb];
        rewrite ?orb_true_r; reflexivity.
    + destruct (String.eqb_spec stage "sprite") as [->|Hs].
      * cbn [String.eqb Ascii.eqb Bool.eqb andb orb map].
        destruct (p =? 100)%Z; cbn [thumbnailDone spriteDone proxyProgress andb orb];
          rewrite ?orb_true_r; reflexivity.
      * destruct (String.eqb_spec stage "proxy") as [->|Hp].
        -- cbn [andb orb map snd thumbnailDone spriteDone proxyProgress].
           now rewrite last_cons.
        -- reflexivity.
Qed.

Lemma weighted_overall (events : list (string * Z)) :
  JS.Math_round (overallProgress (fold_left trackEvent events initialProgress)) =
    weighted events.
Proof.
  rewrite trackEvent_fold. unfold weighted, overallProgress, JS.Math_round, proxyPercent.
  cbn [initialProgress thumbnailDone spriteDone proxyProgress orb].
  apply Qfloor_comp. ring.
Qed.


Lemma find_job_updated (now id : string) (status : JobStatus) (progress : Z)
  (detail : option string) (db : Db.Database) (row : ProxyJobRow.t) :
  find (fun r => ProxyJobRow.id r =? id) (Db.proxy_queue db) = Some row ->
  exists row',
    find (fun r => ProxyJobRow.id r =? id)
      (Db.proxy_queue (Db.updateProxyJobStatus now id status progress detail db)) = Some row' /\
    ProxyJobRow.status row' = status /\ ProxyJobRow.progress row' = progress /\
    ProxyJobRow.video_id row' = ProxyJobRow.video_id row.
Proof.
  intros Hrow. unfold Db.updateProxyJobStatus, Db.updateJobs. cbn [Db.proxy_queue].
  rewrite (DbFacts.find_map_update (fun r => ProxyJobRow.id r =? id)
             (fun r => ProxyJobRow.id r =? id)).
  - rewrite Hrow. cbn [option_map]. apply find_some in Hrow. destruct Hrow as [_ Hid].
    rewrite Hid. eexists. split; [reflexivity|]. destruct status; repeat split.
  - intros r. now destruct status.
Qed.

Lemma stored_afterStatus (env : Env) (id : string) (status : JobStatus) (progress : Z)
  (detail : option string) (w : World) :
  Db.getProxyJobById id (database w) <> None ->
  storedProgress id (afterStatus env id status progress detail w) = Some progress /\
  storedStatus id (afterStatus env id status progress detail w) = Some status.
Proof.
  intros Hjob. unfold Db.getProxyJobById in Hjob.
  destruct (find (fun r => ProxyJobRow.id r =? id) (Db.proxy_queue (database w)))
    as [row|] eqn:Hrow; [|now contradiction Hjob].
  destruct (find_job_updated (JS.toISOString (now env (clock w))) id status progress detail
              (database w) row Hrow) as (row' & Hfind & Hs & Hp & _).
  unfold storedProgress, storedStatus, Db.getProxyJobById, afterStatus. cbn [database].
  rewrite Hfind. cbn [option_map Types.rowToProxyJob ProxyJob.progress ProxyJob.status].
  now rewrite Hs, Hp.
Qed.

Lemma job_kept_afterStatus (env : Env) (id id' : string) (status : JobStatus)
  (progress : Z) (detail : option string) (w : World) :
  Db.getProxyJobById id (database w) <> None ->
  Db.getProxyJobById id (database (afterStatus env id' status progress detail w)) <> None.
Proof.
  unfold Db.getProxyJobById, afterStatus, Db.updateProxyJobStatus, Db.updateJobs.
  cbn [database Db.proxy_queue].
  rewrite (DbFacts.find_map_update (fun r => ProxyJobRow.id r =? id)
             (fun r => ProxyJobRow.id r =? id')).
  - destruct (find _ (Db.proxy_queue (database w))); [discriminate|auto].
  - intros r. now destruct status.
Qed.


Lemma StronglySorted_snoc (l : list Z) (p : Z) :
  StronglySorted Z.le (l ++ [p]) -> Forall (fun x => (x <= p)%Z) l.
Proof.
  induction l as [|a l IH]; intros H; [constructor|].
  inversion H as [|a' l' Hs Hall]; subst. constructor.
  - rewrite Forall_forall in Hall. apply Hall. apply in_or_app. right. now left.
  - now apply IH.
Qed.

Lemma last_In {A} (l : list A) (d : A) : l <> [] -> In (last l d) l.
Proof.
  induction l as [|a l IH]; intros H; [contradiction|].
  destruct l as [|b l]; [now left|].
  right. apply IH. discriminate.
Qed.

Lemma proxyReports_snoc (events : list (string * Z)) (e : string * Z) :
  proxyReports (events ++ [e]) =
    proxyReports events ++ (if fst e =? "proxy" then [snd e] else []).
Proof.
  unfold proxyReports. rewrite filter_app, map_app. cbn [filter].
  now destruct (fst e =? "proxy").
Qed.

Lemma proxyPercent_monotone (events : list (string * Z)) (e : string * Z) :
  StronglySorted Z.le (proxyReports (events ++ [e])) ->
  Forall (fun p => (0 <= p)%Z) (proxyReports (events ++ [e])) ->
  (proxyPercent events <= proxyPercent (events ++ [e]))%Z.
Proof.
  unfold proxyPercent. rewrite proxyReports_snoc.
  destruct (fst e =? "proxy"); [|rewrite app_nil_r; lia].
  intros Hsorted Hpos. rewrite last_last.
  destruct (proxyReports events) as [|a l] eqn:E.
  - rewrite Forall_forall in Hpos. apply Hpos. now left.
  - apply StronglySorted_snoc in Hsorted. rewrite Forall_forall in Hsorted.
    apply Hsorted. apply last_In. discriminate.
Qed.

Lemma proxyPercent_range (events : list (string * Z)) :
  Forall (fun p => (0 <= p <= 100)%Z) (proxyReports events) ->
  (0 <= proxyPercent events <= 100)%Z.
Proof.
  unfold proxyPercent. intros H.
  destruct (proxyReports events) as [|a l] eqn:E; [simpl; lia|].
  rewrite Forall_forall in H. apply H. apply last_In. discriminate.
Qed.

Lemma weighted_monotone (events : list (string * Z)) (e : string * Z) :
  StronglySorted Z.le (proxyReports (events ++ [e])) ->
  Forall (fun p => (0 <= p)%Z) (proxyReports (events ++ [e])) ->
  (weighted events <= weighted (events ++ [e]))%Z.
Proof.
  intros Hsorted Hpos.
  pose proof (proxyPercent_monotone events e Hsorted Hpos) as Hp.
  rewrite Zle_Qle in Hp.
  unfold weighted, JS.Math_round. apply Qfloor_resp_le.
  unfold thumbnailFinished, spriteFinished. rewrite !existsb_app. cbn [existsb].
  rewrite !orb_false_r.
  destruct (existsb _ events); destruct (existsb _ events); cbn [orb];
    repeat match goal with
           | |- context [if ?b then _ else _] => destruct b
           end; lra.
Qed.

Lemma weighted_range (events : list (string * Z)) :
  Forall (fun p => (0 <= p <= 100)%Z) (proxyReports events) ->
  (0 <= weighted events <= 100)%Z.
Proof.
  intros H. apply proxyPercent_range in H. destruct H as [H0 H100].
  rewrite Zle_Qle in H0, H100.
  change (inject_Z 0) with 0%Q in H0. change (inject_Z 100) with 100%Q in H100.
  unfold weighted, JS.Math_round. split.
  - apply Z.le_trans with (Qfloor (0 + (1 # 2))); [discriminate|]. apply Qfloor_resp_le.
    destruct (thumbnailFinished events); destruct (spriteFinished events); lra.
  - apply Z.le_trans with (Qfloor (100 + (1 # 2))); [|discriminate]. apply Qfloor_resp_le.
    destruct (thumbnailFinished events); destruct (spriteFinished events); lra.
Qed.

(** *** The progress callback *)


Lemma onProgress_run (env : Env) (k : nat) (stage : string) (p : Z) (w : World)
  (j : ProxyJob.t) (st : Progress) :
  Effects.job w = Some j ->
  nth_error (closures w) k = Some st ->
  onProgress env k stage p w =
    (Ok tt, afterCallback env (ProxyJob.id j) k (track st stage p) w).
Proof.
  intros Hj Hk. unfold onProgress.
  erewrite bind_Ok by reflexivity. rewrite Hk.
  erewrite bind_Ok by reflexivity.
  erewrite bind_Ok by reflexivity.
  cbn [Effects.job]. unfold afterCallback, withClosure.
  rewrite Hj. reflexivity.
Qed.


Lemma setNth_length {A} (k : nat) (a : A) (l : list A) :
  List.length (setNth k a l) = List.length l.
Proof.
  revert k. induction l as [|b l IH]; intros [|k]; simpl; auto.
Qed.

Lemma setNth_same {A} (k : nat) (a b : A) (l : list A) :
  nth_error l k = Some b -> nth_error (setNth k a l) k = Some a.
Proof.
  revert k. induction l as [|c l IH]; intros [|k] H; try discriminate; simpl; auto.
Qed.

Lemma setNth_other {A} (k k' : nat) (a : A) (l : list A) :
  k' <> k -> nth_error (setNth k a l) k' = nth_error l k'.
Proof.
  revert k k'. induction l as [|c l IH]; intros [|k] [|k'] H; simpl; auto.
  contradiction.
Qed.


(** *** One job *)



















(** *** First in, first out *)





















(** *** What a turn does for its video *)

























(** The example queue: the older job fails and is marked in error with the
    message of the encoder, the younger one is then claimed and completes. *)
Example failed_job_does_not_block :
  exists w',
    processQueue 2 Examples.queueEnv Examples.queueWorld =
      (Ok (Some [Types.rowToProxyJob
                   (Examples.queueRow "ja" (Db.generateId "/v/a.mp4")
                      "2024-01-01T00:00:00.000Z" queued);
                 Types.rowToProxyJob
                   (Examples.queueRow "jb" (Db.generateId "/v/b.mp4")
                      "2024-01-02T00:00:00.000Z" queued)]), w') /\
    option_map (fun j => (ProxyJob.status j, ProxyJob.progress j, ProxyJob.error j))
      (Db.getProxyJobById "ja" (database w')) =
      Some (error, 0%Z, Some "Error: ffmpeg proxy exited with code 1") /\
    option_map (fun j => (ProxyJob.status j, ProxyJob.progress j, ProxyJob.error j))
      (Db.getProxyJobById "jb" (database w')) = Some (complete, 100%Z, None) /\
    option_map Video.hasProxy (Db.getVideoByPath "/v/b.mp4" (database w')) = Some true /\
    option_map Video.hasProxy (Db.getVideoByPath "/v/a.mp4" (database w')) = Some false.
Proof.
  eexists. split; [vm_compute; reflexivity|]. repeat split; vm_compute; reflexivity.
Qed.

(** *** Progress under the callbacks of the turn itself *)


Lemma job_kept_withClosure (id : string) (k : nat) (st : Progress) (w : World) :
  Db.getProxyJobById id (database w) <> None ->
  Db.getProxyJobById id (database (withClosure k st w)) <> None.
Proof. auto. Qed.

(** A callback stores the weighted value of the locals it closes over in
    the row of the job that [job] holds. *)
Lemma onProgress_stores (env : Env) (k : nat) (stage : string) (p : Z) (w : World)
  (j : ProxyJob.t) (st : Progress) :
  Effects.job w = Some j ->
  Db.getProxyJobById (ProxyJob.id j) (database w) <> None ->
  nth_error (closures w) k = Some st ->
  exists w',
    onProgress env k stage p w = (Ok tt, w') /\
    storedProgress (ProxyJob.id j) w' =
      Some (JS.Math_round (overallProgress (track st stage p))) /\
    storedStatus (ProxyJob.id j) w' = Some processing /\
    nth_error (closures w') k = Some (track st stage p) /\
    Effects.job w' = Some j /\
    Db.getProxyJobById (ProxyJob.id j) (database w') <> None.
Proof.
  intros Hj Hrow Hk. eexists. split; [apply (onProgress_run env k stage p w j st Hj Hk)|].
  unfold afterCallback.
  pose proof (job_kept_withClosure (ProxyJob.id j) k (track st stage p) w Hrow) as Hrow'.
  destruct (stored_afterStatus env (ProxyJob.id j) processing
              (JS.Math_round (overallProgress (track st stage p))) None
              (withClosure k (track st stage p) w) Hrow') as [Hp Hs].
  split; [exact Hp|]. split; [exact Hs|]. split; [|split].
  - cbn [afterStatus withClosure closures]. eapply setNth_same. exact Hk.
  - exact Hj.
  - now apply job_kept_afterStatus.
Qed.

Lemma deliver_own (env : Env) (me : nat) (events : list (string * Z)) (w : World)
  (j : ProxyJob.t) (st : Progress) :
  Effects.job w = Some j ->
  Db.getProxyJobById (ProxyJob.id j) (database w) <> None ->
  nth_error (closures w) me = Some st ->
  exists w',
    deliver env me (map own events) w = (Ok tt, w') /\
    nth_error (closures w') me = Some (fold_left trackEvent events st) /\
    (events <> [] ->
     storedProgress (ProxyJob.id j) w' =
       Some (JS.Math_round (overallProgress (fold_left trackEvent events st))) /\
     storedStatus (ProxyJob.id j) w' = Some processing).
Proof.
  revert w st. induction events as [|e events IH]; intros w st Hj Hrow Hme.
  - exists w. split; [reflexivity|]. split; [exact Hme|]. intros H. now contradiction H.
  - destruct (onProgress_stores env me (fst e) (snd e) w j st Hj Hrow Hme)
      as (w1 & H1 & Hp1 & Hs1 & Hme1 & Hj1 & Hrow1).
    destruct (IH w1 (trackEvent st e) Hj1 Hrow1 Hme1) as (w' & H' & Hme' & Hstored).
    exists w'. cbn [map deliver own fold_left].
    split; [erewrite bind_Ok by exact H1; exact H'|]. split; [exact Hme'|].
    intros _. destruct events as [|e2 events].
    + cbn [map deliver] in H'. injection H' as <-. cbn [fold_left]. now split.
    + apply Hstored. discriminate.
Qed.

(** C5. While a turn of the worker waits, every callback that runs stores
    round(5 [thumbnail finished] + 15 [sprite finished] + 0.8 p) of the
    locals it closes over, in the row of the job that the variable [job]
    holds at that moment. For the callbacks of the turn itself this is the
    weighted progress of the job: after the claim and any sequence of its
    own callbacks the stored progress is the weighted value of the events
    so far and the job is still [processing]; the value never decreases
    when the proxy percentages are non-negative and non-decreasing, and it
    stays within 0..100. A callback created by an earlier turn, whose
    generation failed while one of its generators was still running, stores
    the weighted value of the events of that earlier job in the row of the
    current one. On the example queue the stored progress of the second job
    reads 0, 40, 5, 48, 53, 68, 100 along its turn: it falls from 40 to 5
    when the thumbnail of the first, failed job is ready, though the events
    of the second job weigh 40 at that moment and its encoder never
    reported less than before. *)
Theorem queue_progress_follows_the_running_callback :
  (forall (env : Env) (me : nat) (events : list (string * Z)) (w : World)
          (current : ProxyJob.t),
     Effects.job w = Some current ->
     Db.getProxyJobById (ProxyJob.id current) (database w) <> None ->
     nth_error (closures w) me = Some initialProgress ->
     exists w',
       Effects.bind (updateProxyJobStatus env (ProxyJob.id current) processing 0 None)
         (fun _ => deliver env me (map own events)) w = (Ok tt, w') /\
       storedProgress (ProxyJob.id current) w' = Some (weighted events) /\
       storedStatus (ProxyJob.id current) w' = Some processing) /\
  (forall (events : list (string * Z)) (e : string * Z),
     StronglySorted Z.le (proxyReports (events ++ [e])) ->
     Forall (fun p => (0 <= p)%Z) (proxyReports (events ++ [e])) ->
     (weighted events <= weighted (events ++ [e]))%Z) /\
  (forall (events : list (string * Z)),
     Forall (fun p => (0 <= p <= 100)%Z) (proxyReports events) ->
     (0 <= weighted events <= 100)%Z) /\
  (forall (env : Env) (closure : nat) (stage : string) (p : Z) (w : World)
          (current : ProxyJob.t) (st : Progress),
     Effects.job w = Some current ->
     Db.getProxyJobById (ProxyJob.id current) (database w) <> None ->
     nth_error (closures w) closure = Some st ->
     exists w',
       onProgress env closure stage p w = (Ok tt, w') /\
       nth_error (closures w') closure = Some (track st stage p) /\
       storedProgress (ProxyJob.id current) w' =
         Some (JS.Math_round (overallProgress (track st stage p))) /\
       storedStatus (ProxyJob.id current) w' = Some processing) /\
  (map (fun n => storedProgress "jb" (snd (Examples.secondTurn n Examples.queueWorld)))
     [0; 1; 2; 3; 4; 5; 6]%nat =
     [Some 0; Some 40; Some 5; Some 48; Some 53; Some 68; Some 100]%Z /\
   map weighted
     [[("all", 0)]; [("all", 0); ("proxy", 50)]; [("all", 0); ("proxy", 50)];
      [("all", 0); ("proxy", 50); ("proxy", 60)]]%Z = [0; 40; 40; 48]%Z /\
   exists w',
     processQueue 2 Examples.lateEnv Examples.queueWorld =
       (Ok (Some [Examples.jobOf "ja" "/v/a.mp4" "2024-01-01T00:00:00.000Z";
                  Examples.jobOf "jb" "/v/b.mp4" "2024-01-02T00:00:00.000Z"]), w') /\
     option_map (fun j => (ProxyJob.status j, ProxyJob.progress j, ProxyJob.error j))
       (Db.getProxyJobById "ja" (database w')) =
       Some (error, 0%Z, Some "Error: ffmpeg sprite sheet exited with code 1") /\
     option_map (fun j => (ProxyJob.status j, ProxyJob.progress j, ProxyJob.error j))
       (Db.getProxyJobById "jb" (database w')) = Some (complete, 100%Z, None)).
Proof.
  split; [|split; [|split; [|split]]].
  - intros env me events w current Hheld Hrow Hme.
    erewrite bind_Ok by apply updateProxyJobStatus_run.
    set (w0 := afterStatus env (ProxyJob.id current) processing 0 None w).
    assert (Hrow0 : Db.getProxyJobById (ProxyJob.id current) (database w0) <> None)
      by now apply job_kept_afterStatus.
    destruct (deliver_own env me events w0 current initialProgress Hheld Hrow0 Hme)
      as (w' & Hrun & _ & Hstored).
    exists w'. split; [exact Hrun|].
    destruct events as [|e events].
    + cbn [map deliver] in Hrun. injection Hrun as <-.
      apply (stored_afterStatus env (ProxyJob.id current) processing 0 None w Hrow).
    + rewrite <- weighted_overall. apply Hstored. discriminate.
  - exact weighted_monotone.
  - exact weighted_range.
  - intros env closure stage p w current st Hheld Hrow Hk.
    destruct (onProgress_stores env closure stage p w current st Hheld Hrow Hk)
      as (w' & Hrun & Hp & Hs & Hk' & _).
    exists w'. now repeat split.
  - split; [vm_compute; reflexivity|]. split; [vm_compute; reflexivity|].
    eexists. split; [vm_compute; reflexivity|]. split; vm_compute; reflexivity.
Qed.

Lemma queue_progress_follows_the_running_callback_witness :
  exists w',
    onProgress Examples.lateEnv 0 "thumbnail" 100
      (snd (Examples.secondTurn 1 Examples.queueWorld)) = (Ok tt, w') /\
    nth_error (closures w') 0 = Some (track initialProgress "thumbnail" 100) /\
    storedProgress
      (ProxyJob.id (Examples.jobOf "jb" "/v/b.mp4" "2024-01-02T00:00:00.000Z")) w' =
      Some (JS.Math_round (overallProgress (track initialProgress "thumbnail" 100))) /\
    storedStatus
      (ProxyJob.id (Examples.jobOf "jb" "/v/b.mp4" "2024-01-02T00:00:00.000Z")) w' =
      Some processing.
Proof.
  apply (proj1 (proj2 (proj2 (proj2 queue_progress_follows_the_running_callback)))
           Examples.lateEnv 0%nat "thumbnail" 100%Z
           (snd (Examples.secondTurn 1 Examples.queueWorld))
           (Examples.jobOf "jb" "/v/b.mp4" "2024-01-02T00:00:00.000Z") initialProgress).
  - vm_compute. reflexivity.
  - vm_compute. discriminate.
  - vm_compute. reflexivity.
Defined.

(** The stored values along the callbacks of a successful run. *)
Example weighted_along_a_run :
  map weighted
    [[]; [("all", 0%Z)]; [("all", 0%Z); ("thumbnail", 100%Z)];
     [("all", 0%Z); ("thumbnail", 100%Z); ("proxy", 33%Z)];
     [("all", 0%Z); ("thumbnail", 100%Z); ("proxy", 33%Z); ("sprite", 100%Z)];
     [("all", 0%Z); ("thumbnail", 100%Z); ("proxy", 33%Z); ("sprite", 100%Z);
      ("proxy", 100%Z)]] =
    [0; 0; 5; 31; 46; 100]%Z.
Proof. reflexivity. Qed.

End ProxyFacts.

(** ** The directory walk *)

Module WalkFacts.
Import Scanner WalkTerms.

Local Open Scope string_scope.
Local Open Scope list_scope.

Lemma Dirent_induction (P : Dirent -> Prop) :
  (forall name, P (FileEnt name)) ->
  (forall name, P (DirectoryEnt name None)) ->
  (forall name entries, Forall P entries -> P (DirectoryEnt name (Some entries))) ->
  (forall name, P (OtherEnt name)) ->
  forall entry, P entry.
Proof.
  intros Hfile Hnone Hsome Hother. fix IH 1.
  intros [name|name [entries|]|name]; [apply Hfile| |apply Hnone|apply Hother].
  apply Hsome. induction entries as [|e entries IHentries]; constructor;
    [apply IH|exact IHentries].
Qed.


Lemma startsWith_dot (name : string) :
  JS.startsWith name "." = true <-> exists rest, name = String "." rest.
Proof.
  unfold JS.startsWith. destruct name as [|c rest]; cbn [String.prefix].
  - split; [discriminate|]. intros [r H]. discriminate.
  - destruct (Ascii.ascii_dec "." c) as [<-|Hc].
    + split; [eauto|]. intros _. now destruct rest.
    + split; [discriminate|]. intros [r H]. inversion H. congruence.
Qed.

Lemma existsb_eqb_In (x : string) (l : list string) :
  existsb (String.eqb x) l = true <-> In x l.
Proof.
  rewrite existsb_exists. split.
  - intros (y & Hy & E). apply String.eqb_eq in E. now subst.
  - intros H. exists x. split; [exact H|apply String.eqb_refl].
Qed.

Lemma shouldSkipPath_spec (name : string) :
  shouldSkipPath name = true <-> hiddenOrDenied name.
Proof.
  unfold shouldSkipPath, hiddenOrDenied.
  destruct (JS.startsWith name ".") eqn:Hdot.
  - apply startsWith_dot in Hdot. tauto.
  - assert (Hno : ~ exists rest, name = String "." rest).
    { intros H. apply startsWith_dot in H. congruence. }
    fold denyList. destruct (existsb (String.eqb name) denyList) eqn:Hdeny.
    + apply existsb_eqb_In in Hdeny. tauto.
    + split; [discriminate|]. intros [H|H]; [contradiction|].
      apply existsb_eqb_In in H. congruence.
Qed.

Lemma isVideoFile_spec (name : string) :
  isVideoFile name = true <-> hasVideoExtension name.
Proof. unfold isVideoFile, hasVideoExtension. cbv zeta. apply existsb_eqb_In. Qed.

Lemma scanEntry_spec (entry : Dirent) :
  forall rootPath p,
    In p (scanEntry rootPath entry) <->
    exists dirs name,
      fileUnder entry dirs name /\ visibleVideo dirs name /\
      p = pathOf rootPath (dirs ++ [name]).
Proof.
  induction entry as [name|name|name entries IH|name] using Dirent_induction;
    intros rootPath p; cbn [scanEntry direntName].
  - destruct (shouldSkipPath name) eqn:Hskip.
    + split; [contradiction|]. intros (dirs & n & Hu & [Hvis _] & _).
      inversion Hu; subst. inversion Hvis as [|? ? Hn _]; subst.
      apply Hn. now apply shouldSkipPath_spec.
    + destruct (isVideoFile name) eqn:Hvideo.
      * split.
        -- intros [<-|[]]. exists [], name. split; [constructor|]. split; [|reflexivity].
           split; [|now apply isVideoFile_spec].
           constructor; [|constructor]. intros H. apply shouldSkipPath_spec in H. congruence.
        -- intros (dirs & n & Hu & _ & ->). inversion Hu; subst. now left.
      * split; [contradiction|]. intros (dirs & n & Hu & [_ Hext] & _).
        inversion Hu; subst. apply isVideoFile_spec in Hext. congruence.
  - destruct (shouldSkipPath name); (split; [contradiction|]);
      intros (dirs & n & Hu & _); inversion Hu.
  - destruct (shouldSkipPath name) eqn:Hskip.
    + split; [contradiction|]. intros (dirs & n & Hu & [Hvis _] & _).
      inversion Hu; subst. inversion Hvis as [|? ? Hn _]; subst.
      apply Hn. now apply shouldSkipPath_spec.
    + rewrite in_flat_map. rewrite Forall_forall in IH. split.
      * intros (e & He & Hp). apply (IH e He) in Hp.
        destruct Hp as (dirs & n & Hu & [Hvis Hext] & ->).
        exists (name :: dirs), n. split; [econstructor; eassumption|].
        split; [|reflexivity]. split; [|exact Hext].
        constructor; [|exact Hvis]. intros H. apply shouldSkipPath_spec in H. congruence.
      * intros (dirs & n & Hu & [Hvis Hext] & ->). inversion Hu; subst.
        exists entry. split; [assumption|]. apply (IH entry); [assumption|].
        exists dirs0, n. split; [assumption|]. split; [|reflexivity].
        split; [|exact Hext]. now inversion Hvis.
  - destruct (shouldSkipPath name); (split; [contradiction|]);
      intros (dirs & n & Hu & _); inversion Hu.
Qed.


(** *** Paths and the components they are made of *)


Lemma append_assoc (a b c : string) : ((a ++ b) ++ c = a ++ (b ++ c))%string.
Proof. induction a as [|x a IH]; simpl; [reflexivity|now rewrite IH]. Qed.

Lemma append_cancel (a b c : string) : (a ++ b = a ++ c)%string -> b = c.
Proof. induction a as [|x a IH]; simpl; intros H; [exact H|]. inversion H. auto. Qed.

Lemma pathOf_tail (components : list string) (rootPath : string) :
  pathOf rootPath components = (rootPath ++ tailOf components)%string.
Proof.
  revert rootPath. induction components as [|c rest IH]; intros rootPath.
  - simpl. induction rootPath as [|x r IHr]; simpl; [reflexivity|now rewrite <- IHr].
  - cbn [pathOf fold_left tailOf]. fold (pathOf (join rootPath c) rest).
    rewrite IH. unfold join. now rewrite !append_assoc.
Qed.

Lemma component_unique (c c' x x' : string) :
  slashFree c = true -> slashFree c' = true ->
  (x = "" \/ exists r, x = String "/" r) ->
  (x' = "" \/ exists r, x' = String "/" r) ->
  (c ++ x = c' ++ x')%string -> c = c' /\ x = x'.
Proof.
  revert c'. induction c as [|a c IH]; intros c' Hc Hc' Hx Hx' E.
  - destruct c' as [|a' c']; [now split|]. simpl in E, Hc'. exfalso.
    apply andb_true_iff in Hc'. destruct Hc' as [Ha _]. apply negb_true_iff in Ha.
    destruct Hx as [->|[r ->]]; [discriminate|]. inversion E; subst.
    now rewrite Ascii.eqb_refl in Ha.
  - simpl in Hc. apply andb_true_iff in Hc. destruct Hc as [Ha Hc].
    destruct c' as [|a' c'].
    + simpl in E. exfalso. apply negb_true_iff in Ha.
      destruct Hx' as [->|[r ->]]; [discriminate|]. inversion E; subst.
      now rewrite Ascii.eqb_refl in Ha.
    + simpl in E, Hc'. apply andb_true_iff in Hc'. destruct Hc' as [_ Hc'].
      inversion E; subst. destruct (IH c' Hc Hc' Hx Hx' H1) as [-> ->]. now split.
Qed.

Lemma tailOf_shape (components : list string) :
  tailOf components = "" \/ exists r, tailOf components = String "/" r.
Proof. destruct components; [now left|right; simpl; eauto]. Qed.

Lemma tailOf_unique (cs cs' : list string) :
  Forall (fun c => slashFree c = true) cs ->
  Forall (fun c => slashFree c = true) cs' ->
  tailOf cs = tailOf cs' -> cs = cs'.
Proof.
  revert cs'. induction cs as [|c cs IH]; intros cs' H H' E.
  - destruct cs'; [reflexivity|discriminate].
  - destruct cs' as [|c' cs']; [discriminate|].
    inversion H; inversion H'; subst. simpl in E. inversion E as [E'].
    destruct (component_unique c c' (tailOf cs) (tailOf cs')) as [-> Ht];
      auto using tailOf_shape.
    f_equal. now apply IH.
Qed.

Lemma pathOf_unique (rootPath : string) (cs cs' : list string) :
  Forall (fun c => slashFree c = true) cs ->
  Forall (fun c => slashFree c = true) cs' ->
  pathOf rootPath cs = pathOf rootPath cs' -> cs = cs'.
Proof.
  intros H H' E. rewrite !pathOf_tail in E. apply append_cancel in E.
  now apply tailOf_unique.
Qed.

Lemma fileUnder_named (entry : Dirent) (dirs : list string) (name : string) :
  fileUnder entry dirs name -> wellNamed entry ->
  Forall (fun c => slashFree c = true) (dirs ++ [name]).
Proof.
  induction 1 as [name|dir entries entry dirs name Hin _ IH]; intros Hnamed.
  - inversion Hnamed; subst. now constructor.
  - inversion Hnamed as [| |? ? Hdir Hall|]; subst. simpl. constructor; [exact Hdir|].
    apply IH. rewrite Forall_forall in Hall. now apply Hall.
Qed.


Example scanDirectory_sample :
  scanDirectory "/v" (Some sampleTree) = ["/v/a.MP4"; "/v/day1/b.mov"; "/v/day1/deep/c.webm"].
Proof. reflexivity. Qed.

(** C8. The walk yields exactly the paths of the regular files that lie
    below the root through readable directories, none of whose components
    is hidden (a leading dot) or on the deny-list, and whose extension
    lower-cased is on the allow-list, at any depth. In a tree whose names
    hold no slash, the path of a file with a hidden or denied component is
    never yielded. *)
Theorem walk_yields_exactly_the_visible_videos :
  (forall (rootPath : string) (listing : option (list Dirent)) (p : string),
     In p (scanDirectory rootPath listing) <->
     exists entries entry dirs name,
       listing = Some entries /\ In entry entries /\
       fileUnder entry dirs name /\
       Forall (fun component => ~ hiddenOrDenied component) (dirs ++ [name]) /\
       In (JS.toLowerCase (extname name)) VIDEO_EXTENSIONS /\
       p = pathOf rootPath (dirs ++ [name])) /\
  (forall (rootPath : string) (entries : list Dirent) (entry : Dirent)
          (dirs : list string) (name : string),
     Forall wellNamed entries ->
     In entry entries -> fileUnder entry dirs name ->
     (exists component, In component (dirs ++ [name]) /\ hiddenOrDenied component) ->
     ~ In (pathOf rootPath (dirs ++ [name])) (scanDirectory rootPath (Some entries))) /\
  (forall name : string, shouldSkipPath name = true <-> hiddenOrDenied name).
Proof.
  assert (Hiff : forall rootPath listing p,
    In p (scanDirectory rootPath listing) <->
    exists entries entry dirs name,
      listing = Some entries /\ In entry entries /\
      fileUnder entry dirs name /\
      Forall (fun component => ~ hiddenOrDenied component) (dirs ++ [name]) /\
      In (JS.toLowerCase (extname name)) VIDEO_EXTENSIONS /\
      p = pathOf rootPath (dirs ++ [name])).
  { intros rootPath listing p. destruct listing as [entries|]; cbn [scanDirectory].
    - rewrite in_flat_map. split.
      + intros (entry & Hin & Hp). apply scanEntry_spec in Hp.
        destruct Hp as (dirs & name & Hu & [Hvis Hext] & ->).
        exists entries, entry, dirs, name. repeat split; assumption.
      + intros (es & entry & dirs & name & E & Hin & Hu & Hvis & Hext & ->).
        inversion E; subst. exists entry. split; [exact Hin|].
        apply scanEntry_spec. exists dirs, name. repeat split; assumption.
    - split; [contradiction|]. intros (es & _ & _ & _ & E & _). discriminate. }
  split; [exact Hiff|]. split; [|exact shouldSkipPath_spec].
  intros rootPath entries entry dirs name Hnamed Hin Hu (c & Hc & Hhidden) Hyield.
  apply Hiff in Hyield.
  destruct Hyield as (es & entry' & dirs' & name' & E & Hin' & Hu' & Hvis & _ & Hpath).
  inversion E; subst es. rewrite Forall_forall in Hnamed.
  apply pathOf_unique in Hpath.
  - rewrite Hpath in Hc. rewrite Forall_forall in Hvis. exact (Hvis c Hc Hhidden).
  - eapply fileUnder_named; [exact Hu|]. now apply Hnamed.
  - eapply fileUnder_named; [exact Hu'|]. now apply Hnamed.
Qed.

Lemma walk_yields_exactly_the_visible_videos_witness :
  ~ In (pathOf "/v" ([".vcb-data"] ++ ["p.mp4"])) (scanDirectory "/v" (Some sampleTree)).
Proof.
  apply (proj1 (proj2 walk_yields_exactly_the_visible_videos) "/v" sampleTree
           (DirectoryEnt ".vcb-data" (Some [FileEnt "p.mp4"])) [".vcb-data"] "p.mp4").
  - repeat constructor.
  - simpl. tauto.
  - econstructor; [now left|constructor].
  - exists ".vcb-data". split; [now left|]. left. eauto.
Defined.

End WalkFacts.

(** ** The fingerprint *)

Module FingerprintFacts.
Import Effects Scanner FingerprintTerms.

Local Open Scope string_scope.
Local Open Scope list_scope.
Local Open Scope Z_scope.

(** *** Decimal printing *)

Lemma digitChar_inj (a b : Z) :
  0 <= a < 10 -> 0 <= b < 10 -> JS.digitChar a = JS.digitChar b -> a = b.
Proof.
  intros Ha Hb H. unfold JS.digitChar in H.
  destruct (a <? 10) eqn:Ea; [|apply Z.ltb_ge in Ea; lia].
  destruct (b <? 10) eqn:Eb; [|apply Z.ltb_ge in Eb; lia].
  apply (f_equal N_of_ascii) in H.
  rewrite !N_ascii_embedding in H by lia. lia.
Qed.

Lemma tenth_small (f : nat) (n : Z) :
  0 <= n < 2 ^ Z.of_nat (S f) -> 0 <= n / 10 < 2 ^ Z.of_nat f.
Proof.
  intros [H0 H1]. split; [apply Z.div_pos; lia|].
  rewrite Nat2Z.inj_succ, Z.pow_succ_r in H1 by lia.
  apply Z.div_lt_upper_bound; lia.
Qed.

Lemma has_tens (f : nat) (n : Z) :
  0 <= n < 2 ^ Z.of_nat (S f) -> n / 10 <> 0 -> (1 <= f)%nat.
Proof.
  intros Hn Hd. destruct f as [|f]; [|lia]. exfalso. apply Hd.
  change (2 ^ Z.of_nat 1) with 2 in Hn. apply Z.div_small. lia.
Qed.

Lemma digitsLE_fuel (f f' : nat) (n : Z) :
  (1 <= f)%nat -> (1 <= f')%nat ->
  0 <= n < 2 ^ Z.of_nat f -> 0 <= n < 2 ^ Z.of_nat f' ->
  JS.digitsLE f 10 n = JS.digitsLE f' 10 n.
Proof.
  revert f' n. induction f as [|f IH]; intros f' n Hf Hf' Hn Hn'; [lia|].
  destruct f' as [|f']; [lia|]. cbn [JS.digitsLE]. f_equal.
  destruct (n / 10 =? 0) eqn:E; [reflexivity|]. apply Z.eqb_neq in E.
  apply IH.
  - eapply has_tens; eassumption.
  - eapply has_tens; eassumption.
  - now apply tenth_small.
  - now apply tenth_small.
Qed.

Lemma digitsLE_length_mono (f : nat) (n m : Z) :
  0 <= n <= m -> m < 2 ^ Z.of_nat f ->
  (List.length (JS.digitsLE f 10 n) <= List.length (JS.digitsLE f 10 m))%nat.
Proof.
  revert n m. induction f as [|f IH]; intros n m Hnm Hm; [simpl; lia|].
  cbn [JS.digitsLE List.length]. apply le_n_S.
  assert (Hdiv : n / 10 <= m / 10) by (apply Z.div_le_mono; lia).
  assert (Hn10 : 0 <= n / 10) by (apply Z.div_pos; lia).
  destruct (n / 10 =? 0) eqn:En; [simpl; lia|]. apply Z.eqb_neq in En.
  destruct (m / 10 =? 0) eqn:Em; [apply Z.eqb_eq in Em; lia|].
  apply IH; [lia|]. apply (tenth_small f m). lia.
Qed.

Lemma digitsLE_inj (f : nat) (n m : Z) :
  0 <= n < 2 ^ Z.of_nat f -> 0 <= m < 2 ^ Z.of_nat f ->
  JS.digitsLE f 10 n = JS.digitsLE f 10 m -> n = m.
Proof.
  revert n m. induction f as [|f IH]; intros n m Hn Hm H.
  { change (2 ^ Z.of_nat 0) with 1 in *. lia. }
  cbn [JS.digitsLE] in H. inversion H as [[Hd Hrest]].
  apply digitChar_inj in Hd; try (apply Z.mod_pos_bound; lia).
  assert (Hq : n / 10 = m / 10).
  { destruct (n / 10 =? 0) eqn:En; destruct (m / 10 =? 0) eqn:Em.
    - apply Z.eqb_eq in En, Em. lia.
    - apply Z.eqb_neq in Em. destruct f as [|f]; [|discriminate].
      exfalso. apply Em. change (2 ^ Z.of_nat 1) with 2 in Hm. apply Z.div_small. lia.
    - apply Z.eqb_neq in En. destruct f as [|f]; [|discriminate].
      exfalso. apply En. change (2 ^ Z.of_nat 1) with 2 in Hn. apply Z.div_small. lia.
    - apply IH; [now apply tenth_small|now apply tenth_small|exact Hrest]. }
  rewrite (Z.div_mod n 10), (Z.div_mod m 10) by lia. lia.
Qed.


Lemma fuelOf_enough (n m : Z) : 0 <= n <= m -> 0 <= n < 2 ^ Z.of_nat (fuelOf m).
Proof.
  intros Hnm. split; [lia|]. unfold fuelOf.
  rewrite Nat2Z.inj_succ, Z2Nat.id by apply Z.log2_nonneg.
  destruct (Z.eq_dec m 0) as [->|Hm].
  - assert (n = 0) by lia. subst. reflexivity.
  - pose proof (Z.log2_spec m ltac:(lia)). lia.
Qed.

Lemma decimal_length_mono (n m : Z) :
  0 <= n <= m ->
  (List.length (JS.digitsOf 10 n) <= List.length (JS.digitsOf 10 m))%nat.
Proof.
  intros Hnm. unfold JS.digitsOf. rewrite !length_rev.
  fold (fuelOf n). fold (fuelOf m).
  rewrite (digitsLE_fuel (fuelOf n) (fuelOf m) n).
  - apply digitsLE_length_mono; [exact Hnm|]. apply (fuelOf_enough m m). lia.
  - unfold fuelOf. lia.
  - unfold fuelOf. lia.
  - apply fuelOf_enough. lia.
  - now apply fuelOf_enough.
Qed.

Lemma decimal_inj (n m : Z) :
  0 <= n -> 0 <= m -> JS.digitsOf 10 n = JS.digitsOf 10 m -> n = m.
Proof.
  assert (Hle : forall a b, 0 <= a <= b -> JS.digitsOf 10 a = JS.digitsOf 10 b -> a = b).
  { intros a b Hab H. unfold JS.digitsOf in H. apply rev_inj in H.
    fold (fuelOf a) in H. fold (fuelOf b) in H.
    rewrite (digitsLE_fuel (fuelOf a) (fuelOf b) a) in H.
    - apply (digitsLE_inj (fuelOf b)); [now apply fuelOf_enough| |exact H].
      apply fuelOf_enough. lia.
    - unfold fuelOf. lia.
    - unfold fuelOf. lia.
    - apply fuelOf_enough. lia.
    - now apply fuelOf_enough. }
  intros Hn Hm H. destruct (Z_le_gt_dec n m).
  - apply Hle; [lia|exact H].
  - symmetry. apply Hle; [lia|now symmetry].
Qed.


(** *** The three inputs of the digest *)


Lemma fingerprintInput_parts (file : FileEntry) :
  fingerprintInput file =
    prefixOf file ++ JS.digitsOf 10 (sizeOf file) ++ JS.isoChars (mtime file).
Proof.
  unfold fingerprintInput, prefixOf, sizeOf, JS.chars, JS.String_, JS.toStringRadix,
    JS.toISOString.
  now rewrite !list_ascii_of_string_of_list_ascii.
Qed.

Lemma isoChars_length (d : JS.Date) :
  List.length (JS.isoChars d) = if fourDigitYear d then 24%nat else 27%nat.
Proof.
  unfold JS.isoChars, JS.isoYear, fourDigitYear.
  destruct ((0 <=? JS.year d) && (JS.year d <=? 9999)); reflexivity.
Qed.

Lemma app_same_length {A} (a1 a2 b1 b2 : list A) :
  List.length b1 = List.length b2 -> a1 ++ b1 = a2 ++ b2 -> a1 = a2 /\ b1 = b2.
Proof.
  intros Hlen. revert a2. induction a1 as [|x a1 IH]; intros a2 H.
  - destruct a2 as [|y a2]; [now split|].
    apply (f_equal (@List.length A)) in H. rewrite !length_app in H. simpl in H. lia.
  - destruct a2 as [|y a2].
    + apply (f_equal (@List.length A)) in H. rewrite !length_app in H. simpl in H. lia.
    + inversion H; subst. destruct (IH a2 H2) as [-> ->]. now split.
Qed.

Lemma firstn_min {A} (k : nat) (l : list A) :
  firstn k l = firstn (Nat.min k (List.length l)) l.
Proof.
  destruct (Nat.le_ge_cases k (List.length l)) as [L|L].
  - now rewrite Nat.min_l.
  - rewrite Nat.min_r by exact L. rewrite firstn_all. now apply firstn_all2.
Qed.

Lemma prefix_size_unique (k : nat) (c1 c2 p1 p2 : list ascii) :
  List.length p1 = Nat.min k (List.length c1) ->
  List.length p2 = Nat.min k (List.length c2) ->
  p1 ++ JS.digitsOf 10 (Z.of_nat (List.length c1)) =
  p2 ++ JS.digitsOf 10 (Z.of_nat (List.length c2)) ->
  p1 = p2 /\ List.length c1 = List.length c2.
Proof.
  assert (Hle : forall a b pa pb : list ascii,
    List.length pa = Nat.min k (List.length a) ->
    List.length pb = Nat.min k (List.length b) ->
    (List.length a <= List.length b)%nat ->
    pa ++ JS.digitsOf 10 (Z.of_nat (List.length a)) =
    pb ++ JS.digitsOf 10 (Z.of_nat (List.length b)) ->
    pa = pb /\ List.length a = List.length b).
  { intros a b pa pb Hpa Hpb Hab H.
    pose proof (decimal_length_mono (Z.of_nat (List.length a)) (Z.of_nat (List.length b))
                  ltac:(lia)) as Hd.
    pose proof (f_equal (@List.length ascii) H) as Hl.
    rewrite !length_app in Hl.
    apply app_same_length in H; [|lia].
    destruct H as [Hp Hs]. split; [exact Hp|].
    apply decimal_inj in Hs; lia. }
  intros H1 H2 H. destruct (Nat.le_ge_cases (List.length c1) (List.length c2)) as [L|L].
  - now apply (Hle c1 c2 p1 p2).
  - symmetry in H. destruct (Hle c2 c1 p2 p1 H2 H1 L H) as [Hp Hs]. now split.
Qed.

Lemma prefixOf_length (file : FileEntry) :
  List.length (prefixOf file) = Nat.min (N.to_nat 65536) (List.length (content file)).
Proof. unfold prefixOf. apply length_firstn. Qed.

(** What the digest is fed determines the three inputs, when the two
    modification times print at the same length. *)
Lemma fingerprintInput_unique (f1 f2 : FileEntry) :
  fourDigitYear (mtime f1) = fourDigitYear (mtime f2) ->
  fingerprintInput f1 = fingerprintInput f2 ->
  prefixOf f1 = prefixOf f2 /\ sizeOf f1 = sizeOf f2 /\ stampOf f1 = stampOf f2.
Proof.
  intros Hyear H. rewrite !fingerprintInput_parts, !app_assoc in H.
  apply app_same_length in H.
  2:{ rewrite !isoChars_length, Hyear. reflexivity. }
  destruct H as [Hps Hiso].
  destruct (prefix_size_unique (N.to_nat 65536) (content f1) (content f2)
              (prefixOf f1) (prefixOf f2) (prefixOf_length f1) (prefixOf_length f2) Hps)
    as [Hp Hs].
  split; [exact Hp|]. split.
  - unfold sizeOf. now rewrite Hs.
  - unfold stampOf, JS.toISOString. now rewrite Hiso.
Qed.

(** C7, as the code has it. The fingerprint of a readable file is the
    digest of its first min(size, 65536) bytes followed by the decimal size
    and the ISO-8601 modification time: two files that agree on these three
    give the same token, whatever they hold beyond the first 65536 bytes.
    A change of the modification time alone changes what the digest is fed;
    so does any change of the three inputs when both modification times
    print at the same length, which is the case of all years from 0 to
    9999. The token then changes unless the digest collides. *)
Theorem fingerprint_of_prefix_size_mtime :
  (forall (env : Env) (filePath : string) (w : World) (file : FileEntry),
     files env filePath = Some file ->
     getFileFingerprint env filePath w =
       (Ok (md5 env (prefixOf file ++ JS.chars (JS.String_ (sizeOf file)) ++
                     JS.chars (stampOf file))), w) /\
     prefixOf file =
       firstn (Nat.min (N.to_nat 65536) (List.length (content file))) (content file)) /\
  (forall (env : Env) (f1 f2 : FileEntry),
     prefixOf f1 = prefixOf f2 -> sizeOf f1 = sizeOf f2 -> stampOf f1 = stampOf f2 ->
     md5 env (fingerprintInput f1) = md5 env (fingerprintInput f2)) /\
  (forall (env : Env) (f1 f2 : FileEntry),
     fourDigitYear (mtime f1) = fourDigitYear (mtime f2) ->
     md5 env (fingerprintInput f1) = md5 env (fingerprintInput f2) ->
     (prefixOf f1 = prefixOf f2 /\ sizeOf f1 = sizeOf f2 /\ stampOf f1 = stampOf f2) \/
     fingerprintInput f1 <> fingerprintInput f2) /\
  (forall (env : Env) (f1 f2 : FileEntry),
     prefixOf f1 = prefixOf f2 -> sizeOf f1 = sizeOf f2 ->
     md5 env (fingerprintInput f1) = md5 env (fingerprintInput f2) ->
     stampOf f1 = stampOf f2 \/ fingerprintInput f1 <> fingerprintInput f2).
Proof.
  split; [|split; [|split]].
  - intros env filePath w file Hfile. split.
    + unfold getFileFingerprint. rewrite Hfile.
      unfold fingerprintInput, prefixOf, sizeOf, stampOf, ret. reflexivity.
    + unfold prefixOf. apply firstn_min.
  - intros env f1 f2 Hp Hs Ht. f_equal.
    rewrite !fingerprintInput_parts, Hp, Hs.
    unfold stampOf, JS.toISOString in Ht.
    apply (f_equal list_ascii_of_string) in Ht.
    rewrite !list_ascii_of_string_of_list_ascii in Ht. now rewrite Ht.
  - intros env f1 f2 Hyear _.
    destruct (list_eq_dec Ascii.ascii_dec (fingerprintInput f1) (fingerprintInput f2))
      as [E|E]; [left|now right].
    now apply fingerprintInput_unique.
  - intros env f1 f2 Hp Hs _.
    destruct (list_eq_dec Ascii.ascii_dec (fingerprintInput f1) (fingerprintInput f2))
      as [E|E]; [left|now right].
    rewrite !fingerprintInput_parts, Hp, Hs in E.
    apply app_inv_head in E. apply app_inv_head in E.
    unfold stampOf, JS.toISOString. now rewrite E.
Qed.

Lemma fingerprint_of_prefix_size_mtime_witness :
  (prefixOf Examples.clip = prefixOf Examples.copiedClip /\
   sizeOf Examples.clip = sizeOf Examples.copiedClip /\
   stampOf Examples.clip = stampOf Examples.copiedClip) \/
  fingerprintInput Examples.clip <> fingerprintInput Examples.copiedClip.
Proof.
  apply (proj1 (proj2 (proj2 fingerprint_of_prefix_size_mtime))
           Examples.healthyEnv Examples.clip Examples.copiedClip).
  - reflexivity.
  - vm_compute. reflexivity.
Defined.

(** C7 as stated fails: these two files differ in their first bytes, in
    size and in modification time, and the digest is fed the same bytes for
    both, so that they get the same token from any digest. *)
Lemma distinct_files_same_fingerprint :
  prefixOf Examples.nineBytes <> prefixOf Examples.elevenBytes /\
  sizeOf Examples.nineBytes <> sizeOf Examples.elevenBytes /\
  stampOf Examples.nineBytes <> stampOf Examples.elevenBytes /\
  fingerprintInput Examples.nineBytes = fingerprintInput Examples.elevenBytes /\
  fst (getFileFingerprint Examples.twinEnv "/v/nine.mp4" Examples.emptyWorld) =
  fst (getFileFingerprint Examples.twinEnv "/v/eleven.mp4" Examples.emptyWorld).
Proof.
  split; [vm_compute; discriminate|].
  split; [vm_compute; discriminate|].
  split; [vm_compute; discriminate|].
  split; vm_compute; reflexivity.
Qed.

Example nineBytes_input :
  string_of_list_ascii (fingerprintInput Examples.nineBytes) =
    "aaaaaaaaa9+112024-01-01T00:00:00.000Z".
Proof. vm_compute. reflexivity. Qed.

End FingerprintFacts.
